(** * Lightmap baking pipeline of Urho3D/Glow/LightmapBaker.cpp

    A shallow embedding of the lightmap baker: region allocation, baking
    scene set-up, G-buffer capture, the banded ray caster and the result
    binder, followed by the properties established about them.

    Conventions.
    - [unsigned] and [int] values are integers in [Z]; every operation of the
      source that can leave the 32-bit range is followed by [wrap_unsigned]
      or [wrap_int] ([int] overflow is undefined in C++; the model wraps as
      two's-complement hardware does).
    - [float] is IEEE 754 binary32, computed with the Standard Library's
      [SpecFloat] at precision 24 and maximal exponent 128.
    - Operations that C++ leaves undefined (element access out of range,
      integer division by zero, a null or dangling pointer, a float that
      does not fit the integer type it is cast to) and failed [assert]s end
      the computation with a [fault]. *)

From Stdlib Require Import ZArith Lia Permutation.
From Stdlib Require Import Floats.SpecFloat.
From stdpp Require Import base option list strings gmap.

Local Open Scope Z_scope.

(** ** Machine integers *)

Definition wrap_unsigned (z : Z) : Z := z mod 2 ^ 32.
Definition wrap_int (z : Z) : Z := (z + 2 ^ 31) mod 2 ^ 32 - 2 ^ 31.

(** [M_MAX_UNSIGNED] (Math/MathDefs.h) is the largest [unsigned]. *)
Definition M_MAX_UNSIGNED : Z := 2 ^ 32 - 1.

(** Size of Embree ray packed. *)
Definition RayPacketSize : Z := 16.

(** [RTC_INVALID_GEOMETRY_ID] of embree3/rtcore_common.h is [((unsigned)-1)]. *)
Definition RTC_INVALID_GEOMETRY_ID : Z := wrap_unsigned (-1).

(** ** Outcomes of a computation *)

Inductive fault : Set :=
| OutOfRange       (* operator[] past the end of a vector *)
| DivisionByZero   (* integer [/] or [%] by zero *)
| AssertionFailed  (* assert(...) in a build without NDEBUG *)
| NullPointer      (* dereference of a pointer to no live object *)
| AllocationFailed (* resize to a negative count *)
| BadConversion.   (* float-to-integer cast of a value out of range *)

Inductive outcome (A : Type) : Type :=
| Done (a : A)
| Fault (f : fault).
Arguments Done {A} a.
Arguments Fault {A} f.

#[global] Instance outcome_ret : MRet outcome := fun _ a => Done a.
#[global] Instance outcome_bind : MBind outcome := fun _ _ k m =>
  match m with
  | Done a => k a
  | Fault f => Fault f
  end.

Definition is_Done {A} (m : outcome A) : Prop := ∃ a, m = Done a.

(** [v[i]] on a vector: undefined past the end. *)
Definition at_ {A} (v : list A) (i : Z) : outcome A :=
  if decide (0 ≤ i) then
    match v !! Z.to_nat i with
    | Some a => Done a
    | None => Fault OutOfRange
    end
  else Fault OutOfRange.

(** [v[i] = a] on a vector. *)
Definition store_at {A} (v : list A) (i : Z) (a : A) : outcome (list A) :=
  if decide (0 ≤ i < Z.of_nat (length v)) then Done (<[Z.to_nat i := a]> v)
  else Fault OutOfRange.

(** An [outcome]-valued loop over the elements of a list, first to last. *)
Fixpoint foldM {A S} (body : S → A → outcome S) (s : S) (l : list A) : outcome S :=
  match l with
  | [] => Done s
  | a :: l' => s' ← body s a; foldM body s' l'
  end.

(** ** binary32 arithmetic *)

Definition float : Set := spec_float.

Definition fadd : float → float → float := SFadd 24 128.
Definition fsub : float → float → float := SFsub 24 128.
Definition fmul : float → float → float := SFmul 24 128.
Definition fdiv : float → float → float := SFdiv 24 128.
Definition fsqrt : float → float := SFsqrt 24 128.
Definition fneg : float → float := SFopp.
Definition flt : float → float → bool := SFltb.
Definition feq : float → float → bool := SFeqb.
Definition fle : float → float → bool := SFleb.

(** [static_cast<float>] of an integer: round to nearest, ties to even. *)
Definition float_of_int (z : Z) : float := binary_normalize 24 128 z 0 false.

Definition f0 : float := float_of_int 0.
Definition f1 : float := float_of_int 1.
(** The literal [0.001f]. *)
Definition f0_001 : float := S754_finite false 8589935 (-33).
(** The literal [0.5f]. *)
Definition f0_5 : float := S754_finite false 8388608 (-24).
(** The literal [-1.0f]. *)
Definition fm1 : float := float_of_int (-1).

(** [ea::max(a, b)] is [a < b ? b : a]. *)
Definition fmax (a b : float) : float := if flt a b then b else a.

(** Integer part of a float, rounded towards zero; [None] for NaN and the
    infinities. *)
Definition float_trunc (x : float) : option Z :=
  match x with
  | S754_zero _ => Some 0
  | S754_finite s m e =>
      let a := if decide (0 ≤ e) then Z.pos m * 2 ^ e else Z.pos m / 2 ^ (- e) in
      Some (if s then - a else a)
  | _ => None
  end.

(** Least integer not below a float; [None] for NaN and the infinities. *)
Definition float_ceil (x : float) : option Z :=
  match x with
  | S754_zero _ => Some 0
  | S754_finite s m e =>
      if decide (0 ≤ e) then Some ((if s then -1 else 1) * (Z.pos m * 2 ^ e))
      else Some (if s then - (Z.pos m / 2 ^ (- e))
                 else - ((- Z.pos m) / 2 ^ (- e)))
  | _ => None
  end.

(** [static_cast<unsigned>(x)]: the truncated value when it is representable,
    undefined otherwise. *)
Definition unsigned_of_float (x : float) : outcome Z :=
  match float_trunc x with
  | Some z => if decide (0 ≤ z < 2 ^ 32) then Done z else Fault BadConversion
  | None => Fault BadConversion
  end.

(** [static_cast<int>(x)]. *)
Definition int_of_float (x : float) : outcome Z :=
  match float_trunc x with
  | Some z => if decide (- 2 ^ 31 ≤ z < 2 ^ 31) then Done z else Fault BadConversion
  | None => Fault BadConversion
  end.

(** ** Vectors, rectangles and colours (Math/) *)

Record IntVector2 : Set := mkIntVector2 { ix_ : Z; iy_ : Z }.
Record Vector2 : Set := mkVector2 { x2_ : float; y2_ : float }.
Record Vector3 : Set := mkVector3 { x_ : float; y_ : float; z_ : float }.
Record Vector4 : Set := mkVector4 { vx_ : float; vy_ : float; vz_ : float; w_ : float }.
Record Color : Set := mkColor { r_ : float; g_ : float; b_ : float; a_ : float }.
Record IntRect : Set := mkIntRect { left_ : Z; top_ : Z; right_ : Z; bottom_ : Z }.
Record Rect : Set := mkRect { min_ : Vector2; max_ : Vector2 }.

#[global] Instance IntVector2_eq_dec : EqDecision IntVector2.
Proof. solve_decision. Defined.

Definition IntVector2_ZERO : IntVector2 := mkIntVector2 0 0.

Definition IntVector2_add (a b : IntVector2) : IntVector2 :=
  mkIntVector2 (wrap_int (ix_ a + ix_ b)) (wrap_int (iy_ a + iy_ b)).

(** [k * IntVector2::ONE]. *)
Definition IntVector2_splat (k : Z) : IntVector2 :=
  mkIntVector2 (wrap_int (k * 1)) (wrap_int (k * 1)).

(** [IntRect(min, max)], [Min()], [Max()]. *)
Definition IntRect_of (mn mx : IntVector2) : IntRect :=
  mkIntRect (ix_ mn) (iy_ mn) (ix_ mx) (iy_ mx).
Definition IntRect_Min (r : IntRect) : IntVector2 := mkIntVector2 (left_ r) (top_ r).
Definition IntRect_Max (r : IntRect) : IntVector2 := mkIntVector2 (right_ r) (bottom_ r).

(** [static_cast<Vector2>(v)] and [v / f]. *)
Definition Vector2_of_Int (v : IntVector2) : Vector2 :=
  mkVector2 (float_of_int (ix_ v)) (float_of_int (iy_ v)).
Definition Vector2_div (v : Vector2) (f : float) : Vector2 :=
  mkVector2 (fdiv (x2_ v) f) (fdiv (y2_ v) f).
Definition Vector2_mul (v : Vector2) (f : float) : Vector2 :=
  mkVector2 (fmul (x2_ v) f) (fmul (y2_ v) f).
Definition Vector2_sub (a b : Vector2) : Vector2 :=
  mkVector2 (fsub (x2_ a) (x2_ b)) (fsub (y2_ a) (y2_ b)).

Definition Rect_Min (r : Rect) : Vector2 := min_ r.
Definition Rect_Size (r : Rect) : Vector2 := Vector2_sub (max_ r) (min_ r).

Definition Vector3_ZERO : Vector3 := mkVector3 f0 f0 f0.
(** [Vector3::FORWARD] is the positive Z axis. *)
Definition Vector3_FORWARD : Vector3 := mkVector3 f0 f0 f1.
Definition Vector3_neg (a : Vector3) : Vector3 :=
  mkVector3 (fneg (x_ a)) (fneg (y_ a)) (fneg (z_ a)).
Definition Vector3_add (a b : Vector3) : Vector3 :=
  mkVector3 (fadd (x_ a) (x_ b)) (fadd (y_ a) (y_ b)) (fadd (z_ a) (z_ b)).
Definition Vector3_sub (a b : Vector3) : Vector3 :=
  mkVector3 (fsub (x_ a) (x_ b)) (fsub (y_ a) (y_ b)) (fsub (z_ a) (z_ b)).
Definition Vector3_mul (a : Vector3) (f : float) : Vector3 :=
  mkVector3 (fmul (x_ a) f) (fmul (y_ a) f) (fmul (z_ a) f).
Definition DotProduct (a b : Vector3) : float :=
  fadd (fadd (fmul (x_ a) (x_ b)) (fmul (y_ a) (y_ b))) (fmul (z_ a) (z_ b)).
Definition Vector3_Length (a : Vector3) : float := fsqrt (DotProduct a a).
(** [static_cast<Vector3>(v)] drops the fourth component. *)
Definition Vector3_of_4 (v : Vector4) : Vector3 := mkVector3 (vx_ v) (vy_ v) (vz_ v).

Definition Color_WHITE : Color := mkColor f1 f1 f1 f1.
Definition Color_mul (c : Color) (f : float) : Color :=
  mkColor (fmul (r_ c) f) (fmul (g_ c) f) (fmul (b_ c) f) (fmul (a_ c) f).

(** Axis-aligned box with the corners [min_] and [max_] that
    InitializeCameraBoundingBox reads. *)
Record BoundingBox : Set := mkBoundingBox { bmin_ : Vector3; bmax_ : Vector3 }.

Definition finfinity : float := S754_infinity false.
(** A default-constructed box is empty: it spans from +infinity to -infinity. *)
Definition BoundingBox_default : BoundingBox :=
  mkBoundingBox (mkVector3 finfinity finfinity finfinity)
                (mkVector3 (fneg finfinity) (fneg finfinity) (fneg finfinity)).
Definition fmin_into (cur new : float) : float := if flt new cur then new else cur.
Definition fmax_into (cur new : float) : float := if flt cur new then new else cur.
Definition BoundingBox_Merge (a box : BoundingBox) : BoundingBox :=
  mkBoundingBox
    (mkVector3 (fmin_into (x_ (bmin_ a)) (x_ (bmin_ box)))
               (fmin_into (y_ (bmin_ a)) (y_ (bmin_ box)))
               (fmin_into (z_ (bmin_ a)) (z_ (bmin_ box))))
    (mkVector3 (fmax_into (x_ (bmax_ a)) (x_ (bmax_ box)))
               (fmax_into (y_ (bmax_ a)) (y_ (bmax_ box)))
               (fmax_into (z_ (bmax_ a)) (z_ (bmax_ box)))).
Definition BoundingBox_Size (a : BoundingBox) : Vector3 := Vector3_sub (bmax_ a) (bmin_ a).
Definition BoundingBox_Center (a : BoundingBox) : Vector3 :=
  Vector3_mul (Vector3_add (bmax_ a) (bmin_ a)) f0_5.

(** ** Rect Packer *)

(** Modelled from the spec: [AreaAllocator] (Math/AreaAllocator.h) is not
    among the sources.  Section 4.1: [Allocate(width, height)] places a
    rectangle without overlapping previously allocated rectangles within a
    fixed-size canvas and fails when no free position of the requested size
    exists; [Reset(width, height)] clears all allocations and resizes the
    canvas.  The model keeps the canvas and the rectangles handed out, and
    [Allocate] takes the first free position in row-major order, so that a
    fresh canvas answers with the origin, as AllocateLightmapRegion asserts. *)
Record AreaAllocator : Set := mkAreaAllocator {
  size_ : IntVector2;
  reserved_ : list IntRect
}.

Definition AreaAllocator_Reset (width height : Z) : AreaAllocator :=
  mkAreaAllocator (mkIntVector2 width height) [].
Definition GetWidth (a : AreaAllocator) : Z := ix_ (size_ a).
Definition GetHeight (a : AreaAllocator) : Z := iy_ (size_ a).

Definition overlaps (a b : IntRect) : bool :=
  (left_ a <? right_ b) && (left_ b <? right_ a) &&
  (top_ a <? bottom_ b) && (top_ b <? bottom_ a).

Definition is_free (a : AreaAllocator) (r : IntRect) : bool :=
  forallb (λ r', negb (overlaps r r')) (reserved_ a).

Definition positions (a : AreaAllocator) (width height : Z) : list (Z * Z) :=
  y ← seqZ 0 (GetHeight a - height + 1);
  x ← seqZ 0 (GetWidth a - width + 1);
  [(x, y)].

(** [Allocate(width, height, x, y)]: [None] is the answer [false], which
    leaves [x], [y] and the allocator as they were. *)
Definition AreaAllocator_Allocate (a : AreaAllocator) (width height : Z)
  : option (IntVector2 * AreaAllocator) :=
  let width := Z.max 0 width in
  let height := Z.max 0 height in
  match find (λ p, is_free a (mkIntRect p.1 p.2 (p.1 + width) (p.2 + height)))
             (positions a width height) with
  | Some (x, y) =>
      Some (mkIntVector2 x y,
            mkAreaAllocator (size_ a)
              (reserved_ a ++ [mkIntRect x y (x + width) (y + height)]))
  | None => None
  end.

(** ** Scene graph *)

(** A [Node*] is an address in the heap of scene nodes. A [StaticModel*] is
    represented by the address of the node that owns the component, since
    [GetComponent<StaticModel>()] answers with one component per node. *)
Definition NodePtr : Set := nat.

Inductive LightType : Set := LIGHT_DIRECTIONAL | LIGHT_SPOT | LIGHT_POINT.

(** The two metadata entries of a model that the baker reads:
    [LightmapUVGenerationSettings::LightmapSizeKey] and [LightmapDensityKey]. *)
Record Model : Set := mkModel {
  LightmapSizeKey : IntVector2;
  LightmapDensityKey : Z
}.

Record StaticModel : Set := mkStaticModel {
  GetModel : option Model;
  GetWorldBoundingBox : BoundingBox;
  GetLightmap : bool;
  GetLightmapIndex : Z;
  GetLightmapScaleOffset : Vector4
}.

Record Node : Set := mkNode {
  GetStaticModel : option StaticModel;
  GetLight : option LightType;
  GetWorldPosition : Vector3;
  GetWorldRotation : Vector4;
  GetWorldScale : Vector3;
  GetWorldDirection : Vector3
}.

Abbreviation NodeHeap := (gmap NodePtr Node).

Definition deref (heap : NodeHeap) (p : NodePtr) : outcome Node :=
  match heap !! p with
  | Some n => Done n
  | None => Fault NullPointer
  end.

(** ** Data model of the baker *)

Record LightmapBakingSettings : Set := mkSettings {
  lightmapSize_ : Z;
  lightmapPadding_ : Z;
  texelDensity_ : Z;
  minLightmapScale_ : float;
  numParallelChunks_ : Z;
  bakingRenderPath_ : string;
  bakingMaterial_ : string
}.

(** Description of lightmap region. *)
Record LightmapRegion : Set := mkLightmapRegion {
  lightmapIndex_ : Z;
  lightmapTexelRect_ : IntRect;
  lightmapUVRect_ : Rect
}.

(** Construct actual region. *)
Definition LightmapRegion_new (index : Z) (position size : IntVector2) (maxSize : Z)
  : LightmapRegion :=
  let texelRect := IntRect_of position (IntVector2_add position size) in
  mkLightmapRegion index texelRect
    (mkRect (Vector2_div (Vector2_of_Int (IntRect_Min texelRect)) (float_of_int maxSize))
            (Vector2_div (Vector2_of_Int (IntRect_Max texelRect)) (float_of_int maxSize))).

(** Get lightmap offset vector. *)
Definition GetScaleOffset (r : LightmapRegion) : Vector4 :=
  let offset := Rect_Min (lightmapUVRect_ r) in
  let size := Rect_Size (lightmapUVRect_ r) in
  mkVector4 (x2_ size) (y2_ size) (x2_ offset) (y2_ offset).

(** Description of lightmap receiver. *)
Record LightReceiver : Set := mkLightReceiver {
  node_ : NodePtr;
  staticModel_ : option NodePtr;
  region_ : LightmapRegion
}.

Record Material : Set := mkMaterial { shaderParameters : list (string * Vector4) }.
Definition SetShaderParameter (m : Material) (name : string) (v : Vector4) : Material :=
  mkMaterial ((name, v) :: filter (λ p, p.1 ≠ name) (shaderParameters m)).

Record Camera : Set := mkCamera {
  cameraPosition : Vector3;
  cameraDirection : Vector3;
  orthographic : bool;
  orthoSize : Vector2;
  nearClip : float;
  farClip : float
}.

(** A child of a baking scene: the clone of one receiver. *)
Record BakingNode : Set := mkBakingNode {
  bnPosition : Vector3;
  bnRotation : Vector4;
  bnScale : Vector3;
  bnModel : option Model;
  bnMaterial : Material
}.

Record Scene : Set := mkScene { children : list BakingNode }.

(** A render-target texture, and the render surface that belongs to it. *)
Record Texture2D : Set := mkTexture2D { texWidth : Z; texHeight : Z }.

(** Lightmap description. *)
Record LightmapDesc : Set := mkLightmapDesc {
  allocator_ : AreaAllocator;
  bakingScene_ : option Scene;
  bakingCamera_ : option Camera;
  renderTexturePlaceholder_ : option Texture2D;
  renderSurfacePlaceholder_ : option Texture2D
}.

(** The element that [lightmaps.push_back()] appends. *)
Definition LightmapDesc_default : LightmapDesc :=
  mkLightmapDesc (AreaAllocator_Reset 0 0) None None None None.

Definition with_allocator (d : LightmapDesc) (a : AreaAllocator) : LightmapDesc :=
  mkLightmapDesc a (bakingScene_ d) (bakingCamera_ d)
    (renderTexturePlaceholder_ d) (renderSurfacePlaceholder_ d).

(** A render path, known by the name of the resource it was loaded from. *)
Record RenderPath : Set := mkRenderPath { renderPathName : string }.

(** The resources that [Context::GetCache()] can serve. *)
Record ResourceCache : Type := mkResourceCache {
  GetRenderPathResource : string → option RenderPath;
  GetMaterialResource : string → option Material
}.

(** A ray of the packet: origin, direction and parametric range. The
    remaining fields of [RTCRay] are constants in this program. *)
Record RTCRay : Set := mkRTCRay {
  ray_org : Vector3;
  ray_dir : Vector3;
  ray_tnear : float;
  ray_tfar : float
}.

(** A committed Embree scene, seen through the one thing the baker asks of
    it: the geometry id that an intersection query stores for a valid ray
    whose id was [RTC_INVALID_GEOMETRY_ID] on entry. Embree leaves the id
    untouched when the ray hits nothing. *)
Definition RTCScene : Set := RTCRay → Z.

(** The four readbacks of a rendered view. *)
Record GBuffer : Set := mkGBuffer {
  gb_position : list Vector4;
  gb_smoothposition : list Vector4;
  gb_facenormal : list Vector4;
  gb_smoothnormal : list Vector4
}.

(** The rendering back end: whether a frame can begin, and what the extra
    render targets hold once the baking scene of a lightmap is rendered. *)
Record Graphics : Type := mkGraphics {
  BeginFrame : bool;
  RenderView : LightmapDesc → option RenderPath → GBuffer
}.

Record LightmapBakerImpl : Type := mkImpl {
  settings_ : LightmapBakingSettings;
  lightReceivers_ : list LightReceiver;
  obstacles_ : list NodePtr;
  lights_ : list NodePtr;
  maxRayLength_ : float;
  lightmaps_ : list LightmapDesc;
  impl_bakingRenderPath_ : option RenderPath;
  embreeScene_ : option RTCScene;
  impl_renderTexturePlaceholder_ : option Texture2D;
  impl_renderSurfacePlaceholder_ : option Texture2D;
  currentLightmapIndex_ : Z;
  positionBuffer_ : list Vector4;
  smoothPositionBuffer_ : list Vector4;
  faceNormalBuffer_ : list Vector4;
  smoothNormalBuffer_ : list Vector4
}.

(** Construct. [lightReceivers_(lightReceivers.size())] default-constructs
    the receivers: [staticModel_] is null, and [region_] holds whatever
    [LightmapRegion() = default] leaves there, which is the argument
    [garbage]. *)
Definition LightmapBakerImpl_new (garbage : LightmapRegion)
    (settings : LightmapBakingSettings)
    (lightReceivers obstacles lights : list NodePtr) : LightmapBakerImpl :=
  mkImpl settings
    ((λ n, mkLightReceiver n None garbage) <$> lightReceivers)
    obstacles lights f0 [] None None None None M_MAX_UNSIGNED [] [] [] [].

(** [a % b] and [a / b] on [unsigned]. *)
Definition umod (a b : Z) : outcome Z :=
  if decide (b = 0) then Fault DivisionByZero else Done (a mod b).
Definition udiv (a b : Z) : outcome Z :=
  if decide (b = 0) then Fault DivisionByZero else Done (a / b).

(** Validate settings and whatever. *)
Definition Validate (impl : LightmapBakerImpl) : outcome bool :=
  r1 ← umod (lightmapSize_ (settings_ impl)) (numParallelChunks_ (settings_ impl));
  if decide (r1 ≠ 0) then Done false
  else
    r2 ← umod (lightmapSize_ (settings_ impl)) RayPacketSize;
    if decide (r2 ≠ 0) then Done false else Done true.

Definition CeilToInt (x : float) : outcome Z :=
  match float_ceil x with
  | Some z => if decide (- 2 ^ 31 ≤ z < 2 ^ 31) then Done z else Fault BadConversion
  | None => Fault BadConversion
  end.

Definition VectorCeilToInt (v : Vector2) : outcome IntVector2 :=
  x ← CeilToInt (x2_ v); y ← CeilToInt (y2_ v); Done (mkIntVector2 x y).

Section Baker.

(** [assert] is compiled out when [NDEBUG] is defined. *)
Variable NDEBUG : bool.
(** [DOT_SCALE], the weights that average the three axes of a node scale,
    is declared outside the sources. *)
Variable DOT_SCALE : Vector3.
(** [Vector3::Normalized()] (Math/Vector3.h) is declared outside the sources. *)
Variable Normalized : Vector3 → Vector3.

Definition assert (b : bool) : outcome unit :=
  if NDEBUG || b then Done () else Fault AssertionFailed.

(** Calculate model lightmap size. *)
Definition CalculateModelLightmapSize (settings : LightmapBakingSettings)
    (model : Model) (scale : Vector3) : outcome IntVector2 :=
  let modelLightmapSize := Vector2_of_Int (LightmapSizeKey model) in
  let modelLightmapDensity := LightmapDensityKey model in
  let nodeScale := DotProduct scale DOT_SCALE in
  let rescaleFactor :=
    fdiv (fmul nodeScale (float_of_int (texelDensity_ settings)))
         (float_of_int modelLightmapDensity) in
  let clampedRescaleFactor := fmax (minLightmapScale_ settings) rescaleFactor in
  VectorCeilToInt (Vector2_mul modelLightmapSize clampedRescaleFactor).

(** [allocator.Allocate(width, height, position.x_, position.y_)] with its
    result and the two references it writes on success. *)
Definition Allocate (a : AreaAllocator) (width height : Z) (position : IntVector2)
  : bool * IntVector2 * AreaAllocator :=
  match AreaAllocator_Allocate a width height with
  | Some (p, a') => (true, p, a')
  | None => (false, position, a)
  end.

(** Try existing maps: the loop of AllocateLightmapRegion. It answers with
    the region and the updated maps, or with the index reached after the
    last map. *)
Fixpoint tryExistingMaps (settings : LightmapBakingSettings) (padding : Z)
    (paddedSize size : IntVector2) (lightmaps : list LightmapDesc) (lightmapIndex : Z)
  : (LightmapRegion * list LightmapDesc) + Z :=
  match lightmaps with
  | [] => inr lightmapIndex
  | lightmapDesc :: rest =>
      match Allocate (allocator_ lightmapDesc) (ix_ paddedSize) (iy_ paddedSize)
                     IntVector2_ZERO with
      | (true, paddedPosition, a') =>
          let position := IntVector2_add paddedPosition (IntVector2_splat padding) in
          inl (LightmapRegion_new lightmapIndex position size (lightmapSize_ settings),
               with_allocator lightmapDesc a' :: rest)
      | (false, _, _) =>
          match tryExistingMaps settings padding paddedSize size rest
                  (wrap_unsigned (lightmapIndex + 1)) with
          | inl (region, rest') => inl (region, lightmapDesc :: rest')
          | inr i => inr i
          end
      end
  end.

(** Allocate lightmap region. *)
Definition AllocateLightmapRegion (settings : LightmapBakingSettings)
    (lightmaps : list LightmapDesc) (size : IntVector2)
  : outcome (LightmapRegion * list LightmapDesc) :=
  let padding := wrap_int (lightmapPadding_ settings) in
  let paddedSize := IntVector2_add size (IntVector2_splat (wrap_int (2 * padding))) in
  match tryExistingMaps settings padding paddedSize size lightmaps 0 with
  | inl found => Done found
  | inr lightmapIndex =>
      (* Create new map *)
      let lightmapSize := wrap_int (lightmapSize_ settings) in
      let lightmapDesc := LightmapDesc_default in
      if (ix_ size >? lightmapSize) || (iy_ size >? lightmapSize) then
        (* Allocate dedicated map for this specific region *)
        let sizeX :=
          wrap_int
            (wrap_unsigned
               (wrap_unsigned (wrap_unsigned (wrap_unsigned (ix_ size) + RayPacketSize) - 1)
                  / RayPacketSize * RayPacketSize)) in
        let a := AreaAllocator_Reset sizeX (iy_ size) in
        let '(success, position, a') := Allocate a sizeX (iy_ size) IntVector2_ZERO in
        _ ← assert success;
        _ ← assert (bool_decide (position = IntVector2_ZERO));
        Done (LightmapRegion_new lightmapIndex IntVector2_ZERO size (lightmapSize_ settings),
              lightmaps ++ [with_allocator lightmapDesc a'])
      else
        (* Allocate chunk from new map *)
        let a := AreaAllocator_Reset lightmapSize lightmapSize in
        let '(success, paddedPosition, a') :=
          Allocate a (ix_ paddedSize) (iy_ paddedSize) IntVector2_ZERO in
        _ ← assert success;
        _ ← assert (bool_decide (paddedPosition = IntVector2_ZERO));
        let position := IntVector2_add paddedPosition (IntVector2_splat padding) in
        Done (LightmapRegion_new lightmapIndex position size (lightmapSize_ settings),
              lightmaps ++ [with_allocator lightmapDesc a'])
  end.

(** Allocate lightmap regions for light receivers. *)
Fixpoint AllocateLightmapRegions (heap : NodeHeap) (settings : LightmapBakingSettings)
    (lightReceivers : list LightReceiver) (lightmaps : list LightmapDesc)
  : outcome (list LightReceiver * list LightmapDesc) :=
  match lightReceivers with
  | [] => Done ([], lightmaps)
  | lightReceiver :: rest =>
      node ← deref heap (node_ lightReceiver);
      match GetStaticModel node with
      | Some staticModel =>
          model ← from_option Done (Fault NullPointer) (GetModel staticModel);
          nodeLightmapSize ← CalculateModelLightmapSize settings model (GetWorldScale node);
          '(region, lightmaps') ← AllocateLightmapRegion settings lightmaps nodeLightmapSize;
          '(rest', lightmaps'') ← AllocateLightmapRegions heap settings rest lightmaps';
          Done (mkLightReceiver (node_ lightReceiver) (Some (node_ lightReceiver)) region
                  :: rest', lightmaps'')
      | None =>
          '(rest', lightmaps') ← AllocateLightmapRegions heap settings rest lightmaps;
          Done (lightReceiver :: rest', lightmaps')
      end
  end.

(** [receiver.staticModel_->...]: the component behind a [StaticModel*]. *)
Definition derefStaticModel (heap : NodeHeap) (p : NodePtr) : outcome StaticModel :=
  node ← deref heap p;
  from_option Done (Fault NullPointer) (GetStaticModel node).

(** Calculate bounding box of all light receivers. *)
Definition CalculateReceiversBoundingBox (heap : NodeHeap)
    (lightReceivers : list LightReceiver) : outcome BoundingBox :=
  foldM (λ boundingBox lightReceiver,
           match staticModel_ lightReceiver with
           | Some p =>
               staticModel ← derefStaticModel heap p;
               Done (BoundingBox_Merge boundingBox (GetWorldBoundingBox staticModel))
           | None => Done boundingBox
           end)
        BoundingBox_default lightReceivers.

(** Load render path. *)
Definition LoadRenderPath (cache : ResourceCache) (renderPathName : string)
  : option RenderPath :=
  GetRenderPathResource cache renderPathName.

(** Initialize camera from bounding box. *)
Definition InitializeCameraBoundingBox (boundingBox : BoundingBox) : Camera :=
  let zNear := f1 in
  let zFar := fadd (z_ (BoundingBox_Size boundingBox)) zNear in
  let center := BoundingBox_Center boundingBox in
  let position := mkVector3 (x_ center) (y_ center) (fsub (z_ (bmin_ boundingBox)) zNear) in
  mkCamera position Vector3_FORWARD true
    (mkVector2 (x_ (BoundingBox_Size boundingBox)) (y_ (BoundingBox_Size boundingBox)))
    zNear zFar.

Definition with_bakingScene (d : LightmapDesc) (s : Scene) : LightmapDesc :=
  mkLightmapDesc (allocator_ d) (Some s) (bakingCamera_ d)
    (renderTexturePlaceholder_ d) (renderSurfacePlaceholder_ d).

(** Prepare baking scenes: the body of the second loop of
    InitializeLightmapBakingScenes. The lightmap is looked up before the
    receiver is tested for a static model. *)
Definition prepareBakingScene (heap : NodeHeap) (bakingMaterial : option Material)
    (lightmaps : list LightmapDesc) (receiver : LightReceiver)
  : outcome (list LightmapDesc) :=
  lightmapDesc ← at_ lightmaps (lightmapIndex_ (region_ receiver));
  let bakingScene := bakingScene_ lightmapDesc in
  match staticModel_ receiver with
  | Some p =>
      cloned ← from_option Done (Fault NullPointer) bakingMaterial;
      let material := SetShaderParameter cloned "LMOffset" (GetScaleOffset (region_ receiver)) in
      scene ← from_option Done (Fault NullPointer) bakingScene;
      source ← deref heap (node_ receiver);
      staticModel ← derefStaticModel heap p;
      let node := mkBakingNode (GetWorldPosition source) (GetWorldRotation source)
                    (GetWorldScale source) (GetModel staticModel) material in
      store_at lightmaps (lightmapIndex_ (region_ receiver))
        (with_bakingScene lightmapDesc (mkScene (children scene ++ [node])))
  | None => Done lightmaps
  end.

(** Initialize lightmap baking scenes. *)
Definition InitializeLightmapBakingScenes (heap : NodeHeap)
    (bakingMaterial : option Material) (lightmaps : list LightmapDesc)
    (lightReceivers : list LightReceiver) : outcome (list LightmapDesc) :=
  lightReceiversBoundingBox ← CalculateReceiversBoundingBox heap lightReceivers;
  (* Allocate lightmap baking scenes *)
  let lightmaps :=
    (λ lightmapDesc,
       mkLightmapDesc (allocator_ lightmapDesc) (Some (mkScene []))
         (Some (InitializeCameraBoundingBox lightReceiversBoundingBox))
         (renderTexturePlaceholder_ lightmapDesc) (renderSurfacePlaceholder_ lightmapDesc))
    <$> lightmaps in
  (* Prepare baking scenes *)
  foldM (prepareBakingScene heap bakingMaterial) lightmaps lightReceivers.

(** Create render surface texture for lightmap. *)
Definition CreateRenderTextureForLightmap (width height : Z) : Texture2D :=
  mkTexture2D width height.

(** The loop of Initialize that gives every lightmap its render surface. *)
Definition createRenderSurface (lightmapSize : Z) (shared : Texture2D)
    (lightmapDesc : LightmapDesc) : LightmapDesc :=
  let width := GetWidth (allocator_ lightmapDesc) in
  let height := GetHeight (allocator_ lightmapDesc) in
  if bool_decide (width ≠ lightmapSize) || bool_decide (height ≠ lightmapSize) then
    let texture := CreateRenderTextureForLightmap width height in
    mkLightmapDesc (allocator_ lightmapDesc) (bakingScene_ lightmapDesc)
      (bakingCamera_ lightmapDesc) (Some texture) (Some texture)
  else
    mkLightmapDesc (allocator_ lightmapDesc) (bakingScene_ lightmapDesc)
      (bakingCamera_ lightmapDesc) (Some shared) (Some shared).

(** LightmapBaker::Initialize. The answer pairs the returned flag with
    [impl_] as the call leaves it. *)
Definition Initialize (garbage : LightmapRegion) (heap : NodeHeap) (cache : ResourceCache)
    (settings : LightmapBakingSettings) (lightReceivers obstacles lights : list NodePtr)
  : outcome (bool * LightmapBakerImpl) :=
  let impl := LightmapBakerImpl_new garbage settings lightReceivers obstacles lights in
  valid ← Validate impl;
  if negb valid then Done (false, impl)
  else
    (* Prepare metadata and baking scenes *)
    '(receivers, lightmaps) ←
      AllocateLightmapRegions heap (settings_ impl) (lightReceivers_ impl) (lightmaps_ impl);
    lightReceiversBoundingBox ← CalculateReceiversBoundingBox heap receivers;
    let maxRayLength := Vector3_Length (BoundingBox_Size lightReceiversBoundingBox) in
    let renderPath := LoadRenderPath cache (bakingRenderPath_ (settings_ impl)) in
    let bakingMaterial := GetMaterialResource cache (bakingMaterial_ settings) in
    lightmaps ← InitializeLightmapBakingScenes heap bakingMaterial lightmaps receivers;
    (* Create render surfaces *)
    let lightmapSize := wrap_int (lightmapSize_ (settings_ impl)) in
    let shared := CreateRenderTextureForLightmap lightmapSize lightmapSize in
    Done (true,
          mkImpl settings receivers obstacles lights maxRayLength
            (createRenderSurface lightmapSize shared <$> lightmaps)
            renderPath None (Some shared) (Some shared)
            M_MAX_UNSIGNED [] [] [] []).

(** LightmapBaker::CookRaytracingScene. The triangles of the obstacles go
    to Embree, whose traversal is outside the sources: [committed] is the
    scene that [rtcCommitScene] leaves behind. *)
Definition CookRaytracingScene (committed : RTCScene) (impl : LightmapBakerImpl)
  : LightmapBakerImpl :=
  mkImpl (settings_ impl) (lightReceivers_ impl) (obstacles_ impl) (lights_ impl)
    (maxRayLength_ impl) (lightmaps_ impl) (impl_bakingRenderPath_ impl)
    (Some committed) (impl_renderTexturePlaceholder_ impl)
    (impl_renderSurfacePlaceholder_ impl) (currentLightmapIndex_ impl)
    (positionBuffer_ impl) (smoothPositionBuffer_ impl) (faceNormalBuffer_ impl)
    (smoothNormalBuffer_ impl).

Definition GetNumLightmaps (impl : LightmapBakerImpl) : Z :=
  wrap_unsigned (Z.of_nat (length (lightmaps_ impl))).

(** LightmapBaker::RenderLightmapGBuffer. *)
Definition RenderLightmapGBuffer (graphics : Graphics) (index : Z)
    (impl : LightmapBakerImpl) : outcome (bool * LightmapBakerImpl) :=
  if decide (index >= GetNumLightmaps impl) then Done (false, impl)
  else
    lightmapDesc ← at_ (lightmaps_ impl) index;
    if negb (BeginFrame graphics) then Done (false, impl)
    else
      (* Setup viewport, render bakingScene *)
      let view := RenderView graphics lightmapDesc (impl_bakingRenderPath_ impl) in
      (* Fill temporary buffers *)
      Done (true,
            mkImpl (settings_ impl) (lightReceivers_ impl) (obstacles_ impl) (lights_ impl)
              (maxRayLength_ impl) (lightmaps_ impl) (impl_bakingRenderPath_ impl)
              (embreeScene_ impl) (impl_renderTexturePlaceholder_ impl)
              (impl_renderSurfacePlaceholder_ impl)
              index
              (gb_position view) (gb_smoothposition view)
              (gb_facenormal view) (gb_smoothnormal view)).

(** ** Ray caster *)

(** The output of a bake: atlas dimensions and one colour per texel. *)
Record LightmapBakedData : Set := mkBakedData {
  data_lightmapSize_ : IntVector2;
  backedLighting_ : list Color
}.

(** Lane [i] of the packet-sized locals of a band: [rayValid[i]],
    [diffuseLight[i]], the ray of [rayHit16.ray] and [rayHit16.hit.geomID[i]]. *)
Record Lane : Set := mkLane {
  rayValid : Z;
  diffuseLight : float;
  ray : RTCRay;
  geomID : Z
}.

(** The locals of a band, as a function of the lane index. They are
    declared once per band and written lane by lane. *)
Definition Packet : Set := Z → Lane.

Definition set_lane (lanes : Packet) (i : Z) (l : Lane) : Packet :=
  λ j, if decide (j = i) then l else lanes j.

(** A store [data.backedLighting_[index] = color] issued by a band. *)
Definition Store : Set := Z * Color.

(** The stores of a trace, carried out first to last. *)
Definition run_stores (lighting : list Color) (trace : list Store) : outcome (list Color) :=
  foldM (λ lighting (st : Store), store_at lighting st.1 st.2) lighting trace.

(** First loop over the lanes of a packet. *)
Definition fillRay (impl : LightmapBakerImpl) (rayDirection : Vector3) (baseIndex : Z)
    (state : Packet * Z) (i : Z) : outcome (Packet * Z) :=
  let '(lanes, numValidRays) := state in
  let index := wrap_unsigned (baseIndex + i) in
  texel ← at_ (positionBuffer_ impl) index;
  geometryId ← unsigned_of_float (w_ texel);
  if decide (geometryId = 0) then
    let old := lanes i in
    Done (set_lane lanes i
            (mkLane 0 (diffuseLight old)
               (mkRTCRay (ray_org (ray old)) (ray_dir (ray old)) f0 fm1)
               RTC_INVALID_GEOMETRY_ID),
          numValidRays)
  else
    let position := Vector3_of_4 texel in
    normal ← at_ (smoothNormalBuffer_ impl) index;
    let smoothNormal := Vector3_of_4 normal in
    let diffuse := fmax f0 (DotProduct smoothNormal rayDirection) in
    let rayOrigin := Vector3_add position (Vector3_mul rayDirection f0_001) in
    Done (set_lane lanes i
            (mkLane (-1) diffuse
               (mkRTCRay rayOrigin rayDirection f0 (maxRayLength_ impl))
               RTC_INVALID_GEOMETRY_ID),
          numValidRays + 1).

(** [rtcIntersect16]: every valid lane receives the geometry id of its hit.
    Embree also shortens [tfar] of a ray that hits; the baker rewrites
    [tfar] before it casts the lane again and never reads it. *)
Definition rtcIntersect16 (scene : RTCScene) (lanes : Packet) : Packet :=
  λ i, let l := lanes i in
       if decide (rayValid l = 0) then l
       else mkLane (rayValid l) (diffuseLight l) (ray l) (scene (ray l)).

(** Second loop over the lanes of a packet: the store of lane [i], if any. *)
Definition storeRay (lanes : Packet) (baseIndex i : Z) : list Store :=
  if decide (rayValid (lanes i) = 0) then []
  else
    let index := wrap_unsigned (baseIndex + i) in
    let shadow := if decide (geomID (lanes i) = RTC_INVALID_GEOMETRY_ID) then f1 else f0 in
    [(index, Color_mul (Color_mul Color_WHITE (diffuseLight (lanes i))) shadow)].

(** One ray packet of row [y]. The state is the locals of the band and the
    stores it has issued so far. *)
Definition castPacket (impl : LightmapBakerImpl) (rayDirection : Vector3)
    (lightmapWidth y : Z) (state : Packet * list Store) (rayPacketIndex : Z)
  : outcome (Packet * list Store) :=
  let '(lanes, trace) := state in
  let fromX := wrap_unsigned (rayPacketIndex * RayPacketSize) in
  let baseIndex := wrap_unsigned (wrap_unsigned (y * wrap_unsigned lightmapWidth) + fromX) in
  '(lanes, numValidRays) ←
    foldM (fillRay impl rayDirection baseIndex) (lanes, 0) (seqZ 0 RayPacketSize);
  if decide (numValidRays = 0) then Done (lanes, trace)
  else
    scene ← from_option Done (Fault NullPointer) (embreeScene_ impl);
    let lanes := rtcIntersect16 scene lanes in
    Done (lanes, trace ++ (seqZ 0 RayPacketSize ≫= storeRay lanes baseIndex)).

(** [fromY] and [toY] of the band [parallelChunkIndex]. *)
Definition chunkFromY (chunkHeight parallelChunkIndex : Z) : Z :=
  wrap_unsigned (parallelChunkIndex * chunkHeight).
Definition chunkToY (lightmapHeight chunkHeight parallelChunkIndex : Z) : Z :=
  Z.min (wrap_unsigned ((parallelChunkIndex + 1) * chunkHeight))
        (wrap_unsigned lightmapHeight).

(** The task of one band: the stores it issues, in program order.
    [scratch] is what its uninitialised locals hold when it starts. *)
Definition bakeChunk (impl : LightmapBakerImpl) (rayDirection : Vector3)
    (lightmapWidth lightmapHeight numRayPackets chunkHeight : Z)
    (scratch : Packet) (parallelChunkIndex : Z) : outcome (list Store) :=
  let fromY := chunkFromY chunkHeight parallelChunkIndex in
  let toY := chunkToY lightmapHeight chunkHeight parallelChunkIndex in
  '(_, trace) ←
    foldM (λ state y,
             foldM (castPacket impl rayDirection lightmapWidth y) state
                   (seqZ 0 numRayPackets))
          (scratch, []) (seqZ fromY (toY - fromY));
  Done trace.

(** The direction of the first directional light, or the default vector. *)
Fixpoint findLightDirection (heap : NodeHeap) (lights : list NodePtr) : outcome Vector3 :=
  match lights with
  | [] => Done Vector3_ZERO
  | lightNode :: rest =>
      node ← deref heap lightNode;
      match GetLight node with
      | Some LIGHT_DIRECTIONAL => Done (GetWorldDirection node)
      | _ => findLightDirection heap rest
      end
  end.

(** LightmapBaker::BakeLightmap up to the point where the tasks are
    joined: the prepared output and, for every band, its stores. *)
Definition BakeLightmapTasks (heap : NodeHeap) (scratch : Z → Packet)
    (impl : LightmapBakerImpl) : outcome (LightmapBakedData * list (list Store)) :=
  lightmapDesc ← at_ (lightmaps_ impl) (currentLightmapIndex_ impl);
  let lightmapWidth := GetWidth (allocator_ lightmapDesc) in
  let lightmapHeight := GetHeight (allocator_ lightmapDesc) in
  (* Prepare output buffers *)
  let count := wrap_int (lightmapWidth * lightmapHeight) in
  if decide (count < 0) then Fault AllocationFailed
  else
    let data := mkBakedData (mkIntVector2 lightmapWidth lightmapHeight)
                  (replicate (Z.to_nat count) Color_WHITE) in
    lightDirection ← findLightDirection heap (lights_ impl);
    let rayDirection := Vector3_neg (Normalized lightDirection) in
    (* Process rows in multiple threads *)
    let numRayPackets := wrap_unsigned lightmapWidth / RayPacketSize in
    chunkHeight ← udiv (wrap_unsigned lightmapHeight) (numParallelChunks_ (settings_ impl));
    tasks ← mapM (λ parallelChunkIndex,
                    bakeChunk impl rayDirection lightmapWidth lightmapHeight
                      numRayPackets chunkHeight (scratch parallelChunkIndex)
                      parallelChunkIndex)
                 (seqZ 0 (numParallelChunks_ (settings_ impl)));
    Done (data, tasks).

(** LightmapBaker::BakeLightmap, with the bands run one after the other. *)
Definition BakeLightmap (heap : NodeHeap) (scratch : Z → Packet)
    (impl : LightmapBakerImpl) : outcome (bool * LightmapBakedData) :=
  '(data, tasks) ← BakeLightmapTasks heap scratch impl;
  lighting ← run_stores (backedLighting_ data) (concat tasks);
  Done (true, mkBakedData (data_lightmapSize_ data) lighting).

(** The executions of tasks that run in parallel: any merge of their
    traces that keeps the order of each. *)
Inductive interleaving {A} : list (list A) → list A → Prop :=
| interleaving_done tasks :
    Forall (λ t, t = []) tasks → interleaving tasks []
| interleaving_step tasks k a t trace :
    tasks !! k = Some (a :: t) →
    interleaving (<[k := t]> tasks) trace →
    interleaving tasks (a :: trace).

(** The execution of two tasks that takes a step of each in turn, as long
    as both have one. *)
Fixpoint alternate {A} (task0 task1 : list A) : list A :=
  match task0, task1 with
  | a :: task0, b :: task1 => a :: b :: alternate task0 task1
  | [], _ => task1
  | _, [] => task0
  end.

(** ** Result binder *)

Definition SetLightmap (enable : bool) (sm : StaticModel) : StaticModel :=
  mkStaticModel (GetModel sm) (GetWorldBoundingBox sm) enable
    (GetLightmapIndex sm) (GetLightmapScaleOffset sm).
Definition SetLightmapIndex (idx : Z) (sm : StaticModel) : StaticModel :=
  mkStaticModel (GetModel sm) (GetWorldBoundingBox sm) (GetLightmap sm)
    idx (GetLightmapScaleOffset sm).
Definition SetLightmapScaleOffset (scaleOffset : Vector4) (sm : StaticModel) : StaticModel :=
  mkStaticModel (GetModel sm) (GetWorldBoundingBox sm) (GetLightmap sm)
    (GetLightmapIndex sm) scaleOffset.

Definition with_staticModel (n : Node) (sm : StaticModel) : Node :=
  mkNode (Some sm) (GetLight n) (GetWorldPosition n) (GetWorldRotation n)
    (GetWorldScale n) (GetWorldDirection n).

(** The body of the loop of ApplyLightmapsToScene. *)
Definition applyLightmap (baseLightmapIndex : Z) (heap : NodeHeap)
    (receiver : LightReceiver) : outcome NodeHeap :=
  match staticModel_ receiver with
  | Some p =>
      node ← deref heap p;
      staticModel ← from_option Done (Fault NullPointer) (GetStaticModel node);
      let staticModel := SetLightmap true staticModel in
      let staticModel :=
        SetLightmapIndex
          (wrap_unsigned (baseLightmapIndex + lightmapIndex_ (region_ receiver)))
          staticModel in
      let staticModel :=
        SetLightmapScaleOffset (GetScaleOffset (region_ receiver)) staticModel in
      Done (<[p := with_staticModel node staticModel]> heap)
  | None => Done heap
  end.

(** LightmapBaker::ApplyLightmapsToScene. *)
Definition ApplyLightmapsToScene (baseLightmapIndex : Z) (impl : LightmapBakerImpl)
    (heap : NodeHeap) : outcome NodeHeap :=
  foldM (applyLightmap baseLightmapIndex) heap (lightReceivers_ impl).

End Baker.

(** ** What the ray caster computes for one texel *)

#[global] Instance fault_eq_dec : EqDecision fault.
Proof. solve_decision. Defined.
#[global] Instance outcome_eq_dec {A} `{EqDecision A} : EqDecision (outcome A).
Proof. solve_decision. Defined.

(** The diffuse term of a texel with the smoothed normal [normal]. *)
Definition diffuseOf (rayDirection : Vector3) (normal : Vector4) : float :=
  fmax f0 (DotProduct (Vector3_of_4 normal) rayDirection).

(** The occlusion ray of a texel: from its biased position towards the light. *)
Definition occlusionRay (impl : LightmapBakerImpl) (rayDirection : Vector3)
    (texel : Vector4) : RTCRay :=
  mkRTCRay (Vector3_add (Vector3_of_4 texel) (Vector3_mul rayDirection f0_001))
           rayDirection f0 (maxRayLength_ impl).

(** 1.0 when the occlusion query finds no hit, 0.0 when it finds one. *)
Definition shadowOf (scene : RTCScene) (r : RTCRay) : float :=
  if decide (scene r = RTC_INVALID_GEOMETRY_ID) then f1 else f0.

(** White multiplied by diffuse multiplied by shadow. *)
Definition litColor (impl : LightmapBakerImpl) (rayDirection : Vector3)
    (scene : RTCScene) (texel normal : Vector4) : Color :=
  Color_mul (Color_mul Color_WHITE (diffuseOf rayDirection normal))
            (shadowOf scene (occlusionRay impl rayDirection texel)).

(** The geometry id that the ray caster reads in the marker of a texel. *)
Definition geometryIdOf (texel : Vector4) : outcome Z := unsigned_of_float (w_ texel).

(** The marker of a texel converts to [unsigned]. *)
Definition convertible (texel : Vector4) : bool :=
  match geometryIdOf texel with
  | Done _ => true
  | Fault _ => false
  end.

(** The texel at [index] can be processed: its marker converts to
    [unsigned], and both buffers reach it. *)
Definition readable (impl : LightmapBakerImpl) (index : Z) : Prop :=
  0 ≤ index ∧
  ∃ texel normal,
    positionBuffer_ impl !! Z.to_nat index = Some texel ∧
    smoothNormalBuffer_ impl !! Z.to_nat index = Some normal ∧
    is_Done (geometryIdOf texel).

(** The stores that the texel at [index] receives: none when its geometry
    id is zero, one otherwise. *)
Definition texelStores (impl : LightmapBakerImpl) (rayDirection : Vector3)
    (scene : RTCScene) (index : Z) : list Store :=
  match positionBuffer_ impl !! Z.to_nat index,
        smoothNormalBuffer_ impl !! Z.to_nat index with
  | Some texel, Some normal =>
      if decide (geometryIdOf texel = Done 0) then []
      else [(index, litColor impl rayDirection scene texel normal)]
  | _, _ => []
  end.

(** What a lane holds once fillRay has passed over the texel at [index]. *)
Definition filled (impl : LightmapBakerImpl) (rayDirection : Vector3)
    (index : Z) (l : Lane) : Prop :=
  match positionBuffer_ impl !! Z.to_nat index,
        smoothNormalBuffer_ impl !! Z.to_nat index with
  | Some texel, Some normal =>
      if decide (geometryIdOf texel = Done 0) then rayValid l = 0
      else l = mkLane (-1) (diffuseOf rayDirection normal)
                 (occlusionRay impl rayDirection texel) RTC_INVALID_GEOMETRY_ID
  | _, _ => True
  end.

(** Index of lane [i] of packet [rayPacketIndex] in row [y], as castPacket
    computes it. *)
Definition laneIndex (lightmapWidth y rayPacketIndex i : Z) : Z :=
  wrap_unsigned
    (wrap_unsigned (wrap_unsigned (y * wrap_unsigned lightmapWidth)
                    + wrap_unsigned (rayPacketIndex * RayPacketSize)) + i).

Definition packetStores (impl : LightmapBakerImpl) (rayDirection : Vector3)
    (scene : RTCScene) (lightmapWidth y rayPacketIndex : Z) : list Store :=
  seqZ 0 RayPacketSize ≫=
    (λ i, texelStores impl rayDirection scene (laneIndex lightmapWidth y rayPacketIndex i)).

Definition rowStores (impl : LightmapBakerImpl) (rayDirection : Vector3)
    (scene : RTCScene) (lightmapWidth numRayPackets y : Z) : list Store :=
  seqZ 0 numRayPackets ≫= packetStores impl rayDirection scene lightmapWidth y.

(** The rows of a band. *)
Definition chunkRows (lightmapHeight chunkHeight parallelChunkIndex : Z) : list Z :=
  seqZ (chunkFromY chunkHeight parallelChunkIndex)
       (chunkToY lightmapHeight chunkHeight parallelChunkIndex
        - chunkFromY chunkHeight parallelChunkIndex).

Definition chunkStores (impl : LightmapBakerImpl) (rayDirection : Vector3)
    (scene : RTCScene) (lightmapWidth lightmapHeight numRayPackets chunkHeight : Z)
    (parallelChunkIndex : Z) : list Store :=
  chunkRows lightmapHeight chunkHeight parallelChunkIndex ≫=
    rowStores impl rayDirection scene lightmapWidth numRayPackets.

(** ** What the result binder leaves on a component *)

(** The pointer [p] leads to a node with a static model. *)
Definition hasStaticModel (heap : NodeHeap) (p : NodePtr) : Prop :=
  ∃ node staticModel,
    heap !! p = Some node ∧ GetStaticModel node = Some staticModel.

(** The static model behind [p] carries the lightmap binding of [receiver]. *)
Definition boundTo (baseLightmapIndex : Z) (receiver : LightReceiver)
    (heap : NodeHeap) (p : NodePtr) : Prop :=
  ∃ node staticModel,
    heap !! p = Some node ∧ GetStaticModel node = Some staticModel ∧
    GetLightmap staticModel = true ∧
    GetLightmapIndex staticModel
    = wrap_unsigned (baseLightmapIndex + lightmapIndex_ (region_ receiver)) ∧
    GetLightmapScaleOffset staticModel
    = mkVector4 (x2_ (Rect_Size (lightmapUVRect_ (region_ receiver))))
                (y2_ (Rect_Size (lightmapUVRect_ (region_ receiver))))
                (x2_ (Rect_Min (lightmapUVRect_ (region_ receiver))))
                (y2_ (Rect_Min (lightmapUVRect_ (region_ receiver)))).

(** ** Concrete scenes *)

Module Example.

Definition third : float := fdiv f1 (float_of_int 3).
Definition DOT_SCALE : Vector3 := mkVector3 third third third.

(** A normalisation for the light directions used below, which are of
    length one or zero: such vectors are returned as they are. *)
Definition Normalized (v : Vector3) : Vector3 := v.

Definition unitBox : BoundingBox := mkBoundingBox Vector3_ZERO (mkVector3 f1 f1 f1).
Definition identityRotation : Vector4 := mkVector4 f0 f0 f0 f1.
Definition noScaleOffset : Vector4 := mkVector4 f0 f0 f0 f0.

(** A receiver whose model asks for [size] lightmap texels at unit scale. *)
Definition quad (size : IntVector2) : Node :=
  mkNode (Some (mkStaticModel (Some (mkModel size 4)) unitBox false 0 noScaleOffset))
    None Vector3_ZERO identityRotation (mkVector3 f1 f1 f1) Vector3_FORWARD.

(** A node with neither a static model nor a light. *)
Definition bare : Node :=
  mkNode None None Vector3_ZERO identityRotation (mkVector3 f1 f1 f1) Vector3_FORWARD.

(** A directional light shining down the negative Z axis. *)
Definition sun : Node :=
  mkNode None (Some LIGHT_DIRECTIONAL) Vector3_ZERO identityRotation
    (mkVector3 f1 f1 f1) (mkVector3 f0 f0 fm1).

Definition cache : ResourceCache :=
  mkResourceCache (λ name, Some (mkRenderPath name)) (λ _, Some (mkMaterial [])).

(** Atlases of 16 by 16 texels. *)
Definition settings (padding chunks : Z) : LightmapBakingSettings :=
  mkSettings 16 padding 1 f1 chunks "RenderPaths/LightmapGBuffer.xml" "Materials/LightmapBaker.xml".

Definition garbage : LightmapRegion :=
  mkLightmapRegion 7 (mkIntRect 0 0 0 0) (mkRect (mkVector2 f0 f0) (mkVector2 f0 f0)).

Definition scratch : Z → Packet :=
  λ _ _, mkLane 5 f0 (mkRTCRay Vector3_ZERO Vector3_ZERO f0 f0) 9.

Definition texel (marker : float) : Vector4 := mkVector4 f0 f0 f0 marker.
Definition facing : Vector4 := mkVector4 f0 f0 f1 f0.

(** An acceleration structure in which every ray hits geometry 0, and one
    in which no ray hits anything. *)
Definition walled : RTCScene := λ _, 0.
Definition empty : RTCScene := λ _, RTC_INVALID_GEOMETRY_ID.

(** A back end that renders [position] as the position target and normals
    facing the light everywhere. *)
Definition graphics (position : list Vector4) : Graphics :=
  mkGraphics true
    (λ _ _, mkGBuffer position (replicate (length position) facing)
              (replicate (length position) facing)
              (replicate (length position) facing)).

(** A back end that cannot begin a frame. *)
Definition lostDevice : Graphics :=
  mkGraphics false (λ _ _, mkGBuffer [texel f1] [facing] [facing] [facing]).

(** Scene A: one receiver of 16 by 16 texels, one sun. Texel 0 carries the
    marker 0.5, texel 1 the marker 1, every other texel the marker 0. *)
Definition heapA : NodeHeap := {[ 0%nat := quad (mkIntVector2 16 16); 1%nat := sun ]}.
Definition positionA : list Vector4 :=
  texel f0_5 :: texel f1 :: replicate 254 (texel f0).

Definition initA (chunks : Z) : outcome (bool * LightmapBakerImpl) :=
  Initialize false DOT_SCALE garbage heapA cache (settings 0 chunks) [0%nat] [] [1%nat].

Definition renderedA (scene : RTCScene) : outcome LightmapBakerImpl :=
  '(_, impl) ← initA 1;
  '(_, impl) ← RenderLightmapGBuffer (graphics positionA) 0 (CookRaytracingScene scene impl);
  Done impl.

Definition bakedA (scene : RTCScene) : outcome (bool * LightmapBakedData) :=
  impl ← renderedA scene;
  BakeLightmap Normalized heapA scratch impl.

Definition implA (scene : RTCScene) : LightmapBakerImpl :=
  match renderedA scene with
  | Done impl => impl
  | Fault _ => LightmapBakerImpl_new garbage (settings 0 1) [] [] []
  end.

(** The baker of scene A after Initialize. *)
Definition initializedA : LightmapBakerImpl :=
  match initA 1 with
  | Done (_, impl) => impl
  | Fault _ => LightmapBakerImpl_new garbage (settings 0 1) [] [] []
  end.

(** The lightmap of scene A. *)
Definition atlasA : LightmapDesc :=
  default LightmapDesc_default (head (lightmaps_ (implA empty))).

(** The direction towards the sun, and the colour black. *)
Definition towardsSun : Vector3 := Vector3_neg (Normalized (mkVector3 f0 f0 fm1)).
Definition black : Color := mkColor f0 f0 f0 f0.

(** Scene B: one receiver of 32 by 5 texels, which gets a dedicated atlas;
    two bands; every texel is covered and every ray is blocked. *)
Definition heapB : NodeHeap := {[ 0%nat := quad (mkIntVector2 32 5); 1%nat := sun ]}.
Definition positionB : list Vector4 := replicate 160 (texel f1).

Definition renderedB : outcome LightmapBakerImpl :=
  '(_, impl) ← Initialize false DOT_SCALE garbage heapB cache (settings 0 2) [0%nat] [] [1%nat];
  '(_, impl) ← RenderLightmapGBuffer (graphics positionB) 0 (CookRaytracingScene walled impl);
  Done impl.

Definition implB : LightmapBakerImpl :=
  match renderedB with
  | Done impl => impl
  | Fault _ => LightmapBakerImpl_new garbage (settings 0 2) [] [] []
  end.

Definition bakedB : outcome (bool * LightmapBakedData) :=
  impl ← renderedB;
  BakeLightmap Normalized heapB scratch impl.

(** Scene C: the only receiver has no static model. *)
Definition heapC : NodeHeap := {[ 0%nat := bare ]}.

(** Scene D: a receiver with a static model and one without, in a baker
    whose receivers were constructed with zeroed regions. *)
Definition heapD : NodeHeap :=
  {[ 0%nat := quad (mkIntVector2 8 4); 1%nat := bare ]}.
Definition zeroed : LightmapRegion :=
  mkLightmapRegion 0 (mkIntRect 0 0 0 0) (mkRect (mkVector2 f0 f0) (mkVector2 f0 f0)).
Definition implD : LightmapBakerImpl :=
  match Initialize false DOT_SCALE zeroed heapD cache (settings 1 1)
          [0%nat; 1%nat] [] [] with
  | Done (_, impl) => impl
  | Fault _ => LightmapBakerImpl_new zeroed (settings 1 1) [] [] []
  end.

(** The lightmaps of scene D as AllocateLightmapRegions leaves them, and
    as InitializeLightmapBakingScenes does. *)
Definition atlasesD : list LightmapDesc :=
  [with_allocator LightmapDesc_default
     (mkAreaAllocator (mkIntVector2 16 16) [mkIntRect 0 0 10 6])].
Definition scenesD : list LightmapDesc :=
  match InitializeLightmapBakingScenes heapD (Some (mkMaterial [])) atlasesD
          (lightReceivers_ implD) with
  | Done lightmaps => lightmaps
  | Fault _ => []
  end.

(** Scene A baked with the receiver as the only light node: there is no
    directional light. *)
Definition implNight : LightmapBakerImpl :=
  match
    '(_, impl) ← Initialize false DOT_SCALE garbage heapA cache (settings 0 1)
                   [0%nat] [] [0%nat];
    '(_, impl) ← RenderLightmapGBuffer (graphics positionA) 0
                   (CookRaytracingScene empty impl);
    Done impl
  with
  | Done impl => impl
  | Fault _ => LightmapBakerImpl_new garbage (settings 0 1) [] [] []
  end.

(** The lightmap of scene B. *)
Definition atlasB : LightmapDesc :=
  default LightmapDesc_default (head (lightmaps_ implB)).

(** Scene E: a node without a light, the sun, and nothing at 7. *)
Definition heapE : NodeHeap := {[ 1%nat := bare; 2%nat := sun ]}.

(** Scene D after the lightmaps are applied with base index 3. *)
Definition boundD : NodeHeap :=
  match ApplyLightmapsToScene 3 implD heapD with
  | Done heap => heap
  | Fault _ => heapD
  end.

(** The tasks of the bake of scene B, and the stores of its two bands. *)
Definition tasksB : LightmapBakedData * list (list Store) :=
  match BakeLightmapTasks Normalized heapB scratch implB with
  | Done result => result
  | Fault _ => (mkBakedData (mkIntVector2 0 0) [], [])
  end.
Definition bandB (k : nat) : list Store := default [] (tasksB.2 !! k).

(** Scene F: the receiver of scene D named twice in the list of receivers. *)
Definition implF : LightmapBakerImpl :=
  match Initialize false DOT_SCALE zeroed heapD cache (settings 1 1)
          [0%nat; 0%nat] [] [] with
  | Done (_, impl) => impl
  | Fault _ => LightmapBakerImpl_new zeroed (settings 1 1) [] [] []
  end.
Definition boundF : NodeHeap :=
  match ApplyLightmapsToScene 3 implF heapD with
  | Done heap => heap
  | Fault _ => heapD
  end.

End Example.

(** ** Lightmaps that differ in their baking scenes only *)

(** What one pass of the second loop of InitializeLightmapBakingScenes
    keeps of the lightmaps: their number, their allocators, cameras and
    render targets, and the presence of their baking scenes. *)
Definition sameAtlases (before after : list LightmapDesc) : Prop :=
  Forall2 (λ d d',
             allocator_ d' = allocator_ d ∧
             bakingCamera_ d' = bakingCamera_ d ∧
             renderTexturePlaceholder_ d' = renderTexturePlaceholder_ d ∧
             renderSurfacePlaceholder_ d' = renderSurfacePlaceholder_ d ∧
             (is_Some (bakingScene_ d) → is_Some (bakingScene_ d')))
          before after.

(** ** Nodes that differ in their lightmap binding only *)

(** [after] is [before] up to the lightmap flag, index and scale-offset of
    its static model. *)
Definition sameButLightmap (before after : Node) : Prop :=
  GetLight after = GetLight before ∧
  GetWorldPosition after = GetWorldPosition before ∧
  GetWorldRotation after = GetWorldRotation before ∧
  GetWorldScale after = GetWorldScale before ∧
  GetWorldDirection after = GetWorldDirection before ∧
  match GetStaticModel before, GetStaticModel after with
  | Some sm, Some sm' =>
      GetModel sm' = GetModel sm ∧ GetWorldBoundingBox sm' = GetWorldBoundingBox sm
  | None, None => True
  | _, _ => False
  end.

(** ** The same baker with another number of bands *)

Definition with_numParallelChunks (chunks : Z) (impl : LightmapBakerImpl)
  : LightmapBakerImpl :=
  mkImpl
    (mkSettings (lightmapSize_ (settings_ impl)) (lightmapPadding_ (settings_ impl))
       (texelDensity_ (settings_ impl)) (minLightmapScale_ (settings_ impl)) chunks
       (bakingRenderPath_ (settings_ impl)) (bakingMaterial_ (settings_ impl)))
    (lightReceivers_ impl) (obstacles_ impl) (lights_ impl) (maxRayLength_ impl)
    (lightmaps_ impl) (impl_bakingRenderPath_ impl) (embreeScene_ impl)
    (impl_renderTexturePlaceholder_ impl) (impl_renderSurfacePlaceholder_ impl)
    (currentLightmapIndex_ impl) (positionBuffer_ impl) (smoothPositionBuffer_ impl)
    (faceNormalBuffer_ impl) (smoothNormalBuffer_ impl).

(** ** Floats that are a zero or not a number *)

Definition zero_or_nan (x : float) : Prop :=
  match x with
  | S754_zero _ | S754_nan => True
  | _ => False
  end.

(** * Properties *)

(** ** Outcomes and vectors *)

Lemma at_lookup {A} (v : list A) (i : Z) (a : A) :
  0 ≤ i → v !! Z.to_nat i = Some a → at_ v i = Done a.
Proof.
  intros Hi Hv. unfold at_. destruct (decide (0 ≤ i)) as [_|]; [|lia].
  by rewrite Hv.
Qed.

Lemma at_out_of_range {A} (v : list A) (i : Z) :
  Z.of_nat (length v) ≤ i → at_ v i = Fault OutOfRange.
Proof.
  intros Hi. unfold at_. destruct (decide (0 ≤ i)) as [_|]; [|done].
  rewrite (lookup_ge_None_2 v (Z.to_nat i)); [done|lia].
Qed.

Lemma at_in_range {A} (v : list A) (i : Z) :
  0 ≤ i < Z.of_nat (length v) → is_Done (at_ v i).
Proof.
  intros Hi. destruct (lookup_lt_is_Some_2 v (Z.to_nat i)) as [a Ha]; [lia|].
  exists a. apply at_lookup; [lia|done].
Qed.

Lemma wrap_unsigned_small (z : Z) : 0 ≤ z < 2 ^ 32 → wrap_unsigned z = z.
Proof. intros. unfold wrap_unsigned. by apply Z.mod_small. Qed.

Lemma wrap_unsigned_le (z : Z) : 0 ≤ z → wrap_unsigned z ≤ z.
Proof. intros. unfold wrap_unsigned. apply Z.mod_le; lia. Qed.

Lemma wrap_int_small (z : Z) : - 2 ^ 31 ≤ z < 2 ^ 31 → wrap_int z = z.
Proof. intros. unfold wrap_int. rewrite Z.mod_small; lia. Qed.

(** ** Region allocator *)

(** C2. A request of 16 by 16 texels with a padding of 1 in atlases of 16
    by 16 has a padded size of 18, which exceeds the atlas. The allocator
    compares the unpadded size, takes the branch of the shared atlas,
    creates one of 16 by 16 and fails to pack 18 by 18 into it: the
    [assert(success)] of that branch fails. Compiled with NDEBUG it returns
    the rectangle (1,1)-(17,17) of an atlas of 16 by 16, which is neither
    dedicated nor at the origin. *)
Theorem AllocateLightmapRegion_padded_oversize :
  let settings := Example.settings 1 1 in
  let size := mkIntVector2 16 16 in
  lightmapSize_ settings < ix_ size + 2 * lightmapPadding_ settings ∧
  AllocateLightmapRegion false settings [] size = Fault AssertionFailed ∧
  ∃ region,
    AllocateLightmapRegion true settings [] size
    = Done (region, [with_allocator LightmapDesc_default (AreaAllocator_Reset 16 16)]) ∧
    lightmapTexelRect_ region = mkIntRect 1 1 17 17.
Proof.
  cbv zeta. split; [done|]. split; [by vm_compute|].
  eexists. split; [by vm_compute|done].
Qed.

(** C3. A request of 32 by 16 texels in atlases of 16 by 16 is given a
    dedicated atlas of 32 by 16, and its UV rectangle is still divided by
    the configured atlas size: the maximum is (2, 1), and 2 is not within
    [0,1]. *)
Theorem AllocateLightmapRegion_dedicated_uv (NDEBUG : bool) :
  ∃ region lightmapDesc,
    AllocateLightmapRegion NDEBUG (Example.settings 0 1) [] (mkIntVector2 32 16)
    = Done (region, [lightmapDesc]) ∧
    GetWidth (allocator_ lightmapDesc) = 32 ∧
    GetHeight (allocator_ lightmapDesc) = 16 ∧
    lightmapTexelRect_ region = mkIntRect 0 0 32 16 ∧
    max_ (lightmapUVRect_ region) = mkVector2 (float_of_int 2) f1 ∧
    fle (float_of_int 2) f1 = false.
Proof.
  destruct NDEBUG; do 2 eexists; (split; [by vm_compute|done]).
Qed.

(** ** Initialisation *)

(** C6. Settings with zero parallel chunks are well formed and violate the
    invariant whenever the atlas size is not zero; Validate divides by the
    chunk count before any check, so that Initialize neither returns false
    nor returns at all. *)
Theorem Initialize_zero_chunks (NDEBUG : bool) (DOT_SCALE : Vector3)
    (garbage : LightmapRegion) (heap : NodeHeap) (cache : ResourceCache)
    (size padding density : Z) (minScale : float) (renderPath material : string)
    (lightReceivers obstacles lights : list NodePtr) :
  Initialize NDEBUG DOT_SCALE garbage heap cache
    (mkSettings size padding density minScale 0 renderPath material)
    lightReceivers obstacles lights
  = Fault DivisionByZero.
Proof. done. Qed.

(** Validate answers for every non-zero chunk count, and with [true]
    exactly when both divisibility conditions hold. *)
Lemma Validate_divisible (impl : LightmapBakerImpl) :
  numParallelChunks_ (settings_ impl) ≠ 0 →
  Validate impl
  = Done (bool_decide
            (lightmapSize_ (settings_ impl) mod numParallelChunks_ (settings_ impl) = 0 ∧
             lightmapSize_ (settings_ impl) mod RayPacketSize = 0)).
Proof.
  intros HN. unfold Validate, umod.
  destruct (decide (numParallelChunks_ (settings_ impl) = 0)) as [|_]; [done|].
  cbn.
  destruct (decide (_ mod numParallelChunks_ _ ≠ 0)) as [H1|H1].
  { rewrite bool_decide_eq_false_2; [done|]. intros [? _]. done. }
  apply dec_stable in H1.
  destruct (decide (RayPacketSize = 0)) as [|_]; [done|]. cbn.
  destruct (decide (_ mod RayPacketSize ≠ 0)) as [H2|H2].
  { rewrite bool_decide_eq_false_2; [done|]. intros [_ ?]. done. }
  apply dec_stable in H2. by rewrite bool_decide_eq_true_2.
Qed.

(** With a non-zero chunk count, settings that violate a divisibility
    condition make Initialize return false and leave the baker as it was
    constructed: no lightmap, no region and no baking scene. *)
Lemma Initialize_indivisible (NDEBUG : bool) (DOT_SCALE : Vector3)
    (garbage : LightmapRegion) (heap : NodeHeap) (cache : ResourceCache)
    (settings : LightmapBakingSettings) (lightReceivers obstacles lights : list NodePtr) :
  numParallelChunks_ settings ≠ 0 →
  lightmapSize_ settings mod numParallelChunks_ settings ≠ 0 ∨
  lightmapSize_ settings mod RayPacketSize ≠ 0 →
  ∃ impl,
    Initialize NDEBUG DOT_SCALE garbage heap cache settings lightReceivers obstacles lights
    = Done (false, impl) ∧
    lightmaps_ impl = [] ∧
    Forall (λ r, staticModel_ r = None ∧ region_ r = garbage) (lightReceivers_ impl).
Proof.
  intros HN Hdiv. eexists. unfold Initialize.
  rewrite Validate_divisible by done. cbn.
  rewrite bool_decide_eq_false_2 by (intros [??]; destruct Hdiv; done).
  cbn. split; [done|]. split; [done|].
  apply Forall_fmap, Forall_true. done.
Qed.

Lemma at_nil {A} (i : Z) : at_ (@nil A) i = Fault OutOfRange.
Proof. unfold at_. destruct (decide (0 ≤ i)); [by rewrite lookup_nil|done]. Qed.

(** C8. A baker whose only receiver has no static model: region
    allocation skips the receiver, which keeps a null [staticModel_] and the
    region it was constructed with, and creates no lightmap; the second loop
    of InitializeLightmapBakingScenes then reads
    [lightmaps[receiver.region_.lightmapIndex_]] before it tests
    [receiver.staticModel_], in an empty vector, whatever the index is. *)
Theorem Initialize_receiver_without_model (NDEBUG : bool) (DOT_SCALE : Vector3)
    (garbage : LightmapRegion) (bakingMaterial : option Material) :
  let settings := Example.settings 0 1 in
  let impl := LightmapBakerImpl_new garbage settings [0%nat] [] [] in
  lightReceivers_ impl = [mkLightReceiver 0%nat None garbage] ∧
  AllocateLightmapRegions NDEBUG DOT_SCALE Example.heapC settings
    (lightReceivers_ impl) (lightmaps_ impl)
  = Done (lightReceivers_ impl, []) ∧
  InitializeLightmapBakingScenes Example.heapC bakingMaterial [] (lightReceivers_ impl)
  = Fault OutOfRange ∧
  Initialize NDEBUG DOT_SCALE garbage Example.heapC Example.cache settings [0%nat] [] []
  = Fault OutOfRange.
Proof.
  cbv zeta. split; [done|]. split; [done|]. split.
  all:   destruct garbage as [[|index|index] texelRect uvRect]; by vm_compute.
Qed.

(** ** G-buffer render stage *)

(** C7. When the requested index is out of range or the back end cannot
    begin a frame, RenderLightmapGBuffer returns false and the baker is
    exactly as it was: the four texel buffers and the current lightmap
    index included. *)
Theorem RenderLightmapGBuffer_failure (graphics : Graphics) (index : Z)
    (impl : LightmapBakerImpl) :
  0 ≤ index →
  index >= GetNumLightmaps impl ∨ BeginFrame graphics = false →
  RenderLightmapGBuffer graphics index impl = Done (false, impl).
Proof.
  intros Hindex Hfail. unfold RenderLightmapGBuffer.
  destruct (decide (index >= GetNumLightmaps impl)) as [|Hin]; [done|].
  destruct Hfail as [|Hframe]; [done|].
  destruct (at_in_range (lightmaps_ impl) index) as [lightmapDesc ->].
  { unfold GetNumLightmaps in Hin.
    pose proof (wrap_unsigned_le (Z.of_nat (length (lightmaps_ impl)))). lia. }
  cbn. by rewrite Hframe.
Qed.

Lemma RenderLightmapGBuffer_failure_witness :
  RenderLightmapGBuffer Example.lostDevice 0 Example.implD = Done (false, Example.implD).
Proof.
  apply (RenderLightmapGBuffer_failure Example.lostDevice 0 Example.implD).
  - lia.
  - right. reflexivity.
Defined.

(** A render that returns true has stored an index below the number of
    lightmaps, and has left the lightmaps as they were. *)
Lemma RenderLightmapGBuffer_success (graphics : Graphics) (index : Z)
    (impl impl' : LightmapBakerImpl) :
  0 ≤ index →
  RenderLightmapGBuffer graphics index impl = Done (true, impl') →
  currentLightmapIndex_ impl' = index ∧
  lightmaps_ impl' = lightmaps_ impl ∧
  is_Done (at_ (lightmaps_ impl') (currentLightmapIndex_ impl')).
Proof.
  intros Hindex. unfold RenderLightmapGBuffer.
  destruct (decide (index >= GetNumLightmaps impl)) as [|Hin]; [done|].
  destruct (at_in_range (lightmaps_ impl) index) as [lightmapDesc Hat].
  { unfold GetNumLightmaps in Hin.
    pose proof (wrap_unsigned_le (Z.of_nat (length (lightmaps_ impl)))). lia. }
  rewrite Hat. cbn. destruct (BeginFrame graphics); [|done]. cbn.
  intros [= <-]. cbn. split; [done|]. split; [done|]. by eexists.
Qed.

(** ** Ray caster: the current lightmap *)

(** C5. BakeLightmap performs no check of its own: in a baker whose
    current lightmap index still is the initial [M_MAX_UNSIGNED], as after
    Initialize, it indexes the lightmaps past their end. *)
Theorem BakeLightmap_before_render (Normalized : Vector3 → Vector3)
    (heap : NodeHeap) (scratch : Z → Packet) (impl : LightmapBakerImpl) :
  currentLightmapIndex_ impl = M_MAX_UNSIGNED →
  Z.of_nat (length (lightmaps_ impl)) ≤ M_MAX_UNSIGNED →
  BakeLightmap Normalized heap scratch impl = Fault OutOfRange.
Proof.
  intros Hcurrent Hsize. unfold BakeLightmap, BakeLightmapTasks.
  rewrite Hcurrent, at_out_of_range; done.
Qed.

Lemma BakeLightmap_before_render_witness :
  ∃ impl,
    Example.initA 1 = Done (true, impl) ∧
    BakeLightmap Example.Normalized Example.heapA Example.scratch impl
    = Fault OutOfRange.
Proof.
  eexists. split; [vm_compute; reflexivity|].
  apply BakeLightmap_before_render; [reflexivity|].
  cbn. unfold M_MAX_UNSIGNED. lia.
Defined.

(** ** Result binder *)

Lemma applyLightmap_spec (baseLightmapIndex : Z) (heap : NodeHeap)
    (receiver : LightReceiver) :
  (∀ p, staticModel_ receiver = Some p → hasStaticModel heap p) →
  ∃ heap',
    applyLightmap baseLightmapIndex heap receiver = Done heap' ∧
    (∀ p, staticModel_ receiver = Some p → boundTo baseLightmapIndex receiver heap' p) ∧
    (∀ q, staticModel_ receiver ≠ Some q → heap' !! q = heap !! q) ∧
    (∀ q, hasStaticModel heap q → hasStaticModel heap' q).
Proof.
  intros Hlive. unfold applyLightmap.
  destruct (staticModel_ receiver) as [p|] eqn:Hp.
  - destruct (Hlive p eq_refl) as (node & staticModel & Hnode & Hmodel).
    unfold deref. rewrite Hnode. cbn. rewrite Hmodel. cbn.
    eexists. split; [done|]. split; [|split].
    + intros ? [= <-]. do 2 eexists. rewrite lookup_insert_eq. done.
    + intros q Hq. rewrite lookup_insert_ne; [done|]. congruence.
    + intros q (node' & staticModel' & Hnode' & Hmodel').
      destruct (decide (p = q)) as [<-|Hne].
      * do 2 eexists. rewrite lookup_insert_eq. done.
      * do 2 eexists. rewrite lookup_insert_ne; done.
  - eexists. split; [done|]. split; [done|]. done.
Qed.

(** C9. When the static model pointers of the receivers are live,
    ApplyLightmapsToScene returns, and afterwards: the static model of every
    receiver that has one carries the flag [true], the index
    [baseLightmapIndex + region.lightmapIndex_] (in [unsigned] arithmetic)
    and the scale and offset (UV size x, UV size y, UV min x, UV min y) of
    the region of that receiver, the last such receiver deciding when
    several share one component; every node that is the static model of no
    receiver, among them every receiver without a renderable component, is
    as it was before the call. *)
Theorem ApplyLightmapsToScene_binds (baseLightmapIndex : Z)
    (impl : LightmapBakerImpl) (heap : NodeHeap) :
  Forall (λ receiver, ∀ p, staticModel_ receiver = Some p → hasStaticModel heap p)
         (lightReceivers_ impl) →
  ∃ heap',
    ApplyLightmapsToScene baseLightmapIndex impl heap = Done heap' ∧
    (∀ i receiver p,
       lightReceivers_ impl !! i = Some receiver →
       staticModel_ receiver = Some p →
       (∀ j later, (i < j)%nat → lightReceivers_ impl !! j = Some later →
                   staticModel_ later ≠ Some p) →
       boundTo baseLightmapIndex receiver heap' p) ∧
    (∀ q, Forall (λ receiver, staticModel_ receiver ≠ Some q) (lightReceivers_ impl) →
          heap' !! q = heap !! q).
Proof.
  unfold ApplyLightmapsToScene. generalize (lightReceivers_ impl) as receivers.
  intros receivers Hlive.
  cut (∃ heap',
    foldM (applyLightmap baseLightmapIndex) heap receivers = Done heap' ∧
    (∀ i receiver p,
       receivers !! i = Some receiver →
       staticModel_ receiver = Some p →
       (∀ j later, (i < j)%nat → receivers !! j = Some later →
                   staticModel_ later ≠ Some p) →
       boundTo baseLightmapIndex receiver heap' p) ∧
    (∀ q, Forall (λ receiver, staticModel_ receiver ≠ Some q) receivers →
          heap' !! q = heap !! q) ∧
    (∀ q, hasStaticModel heap q → hasStaticModel heap' q)).
  { intros (heap' & ? & ? & ? & _). eauto. }
  revert heap Hlive.
  induction receivers as [|receiver receivers IH]; intros heap Hlive.
  - exists heap. cbn. split; [done|]. split; [|done].
    intros i ? ? Hi. by rewrite lookup_nil in Hi.
  - apply Forall_cons in Hlive as [Hhead Htail].
    destruct (applyLightmap_spec baseLightmapIndex heap receiver Hhead)
      as (heap1 & Hstep & Hbound & Hframe & Hkeep).
    destruct (IH heap1) as (heap' & Hrest & Hbound' & Hframe' & Hkeep').
    { eapply Forall_impl; [exact Htail|]. cbn. eauto. }
    exists heap'. cbn. rewrite Hstep. cbn. split; [done|]. split; [|split].
    + intros [|i] r p Hi Hp Hlast.
      * cbn in Hi. injection Hi as <-.
        destruct (Hbound p Hp) as (node & staticModel & Hnode & Hrec).
        exists node, staticModel. split; [|done].
        rewrite Hframe'; [done|].
        apply Forall_lookup. intros j later Hj.
        apply (Hlast (S j)); [lia|done].
      * cbn in Hi. apply (Hbound' i r p Hi Hp).
        intros j later Hlt Hj. apply (Hlast (S j)); [lia|done].
    + intros q Hq. apply Forall_cons in Hq as [Hq1 Hq2].
      rewrite Hframe' by done. by apply Hframe.
    + eauto.
Qed.

Lemma ApplyLightmapsToScene_binds_witness :
  ∃ heap' receiver,
    ApplyLightmapsToScene 3 Example.implD Example.heapD = Done heap' ∧
    lightReceivers_ Example.implD !! 0%nat = Some receiver ∧
    boundTo 3 receiver heap' 0%nat ∧
    heap' !! 1%nat = Example.heapD !! 1%nat.
Proof.
  destruct (ApplyLightmapsToScene_binds 3 Example.implD Example.heapD)
    as (heap' & Happlied & Hbound & Hframe).
  - let receivers := eval vm_compute in (lightReceivers_ Example.implD) in
    change (lightReceivers_ Example.implD) with receivers.
    apply Forall_cons_2; [|apply Forall_cons_2; [|apply Forall_nil_2]].
    + intros p [= <-]. do 2 eexists. split; reflexivity.
    + intros p [=].
  - exists heap'. eexists. split; [exact Happlied|].
    split; [vm_compute; reflexivity|]. split.
    + apply (Hbound 0%nat); [vm_compute; reflexivity|reflexivity|].
      intros [|[|j]] later Hlater Hlookup; [lia| |].
      * vm_compute in Hlookup. injection Hlookup as <-. discriminate.
      * vm_compute in Hlookup. discriminate.
    + apply Hframe.
      let receivers := eval vm_compute in (lightReceivers_ Example.implD) in
      change (lightReceivers_ Example.implD) with receivers.
      apply Forall_cons_2; [|apply Forall_cons_2; [|apply Forall_nil_2]]; discriminate.
Defined.

(** C9, as stated, fails where two receivers share a renderable component.
    In scene F the node 0 is named twice: Initialize returns true and gives
    each of the two receivers a region of its own, and after
    ApplyLightmapsToScene the component carries the binding of the second
    receiver, not the scale and offset of the region of the first. *)
Lemma ApplyLightmapsToScene_shared_component :
  Initialize false Example.DOT_SCALE Example.zeroed Example.heapD Example.cache
    (Example.settings 1 1) [0%nat; 0%nat] [] [] = Done (true, Example.implF) ∧
  ApplyLightmapsToScene 3 Example.implF Example.heapD = Done Example.boundF ∧
  ∃ first second,
    lightReceivers_ Example.implF = [first; second] ∧
    staticModel_ first = Some 0%nat ∧ staticModel_ second = Some 0%nat ∧
    boundTo 3 second Example.boundF 0%nat ∧
    ¬ boundTo 3 first Example.boundF 0%nat.
Proof.
  split; [by vm_compute|]. split; [by vm_compute|].
  eexists _, _. split; [vm_compute; reflexivity|].
  split; [reflexivity|]. split; [reflexivity|]. split.
  - eexists _, _. split; [vm_compute; reflexivity|]. by vm_compute.
  - intros (node & staticModel & Hnode & Hmodel & _ & _ & Hbinding).
    vm_compute in Hnode. injection Hnode as <-.
    vm_compute in Hmodel. injection Hmodel as <-.
    vm_compute in Hbinding. discriminate.
Qed.

(** ** Ray caster: one packet *)

Lemma foldM_cons {A S} (body : S → A → outcome S) (s : S) (a : A) (l : list A) :
  foldM body s (a :: l) = body s a ≫= (λ s', foldM body s' l).
Proof. done. Qed.

Lemma bind_Done {A B} (a : A) (k : A → outcome B) : Done a ≫= k = k a.
Proof. done. Qed.

Lemma foldM_trace {A} (body : Packet * list Store → A → outcome (Packet * list Store))
    (out : A → list Store) (l : list A) :
  (∀ a lanes trace, a ∈ l →
     ∃ lanes', body (lanes, trace) a = Done (lanes', trace ++ out a)) →
  ∀ lanes trace,
    ∃ lanes', foldM body (lanes, trace) l = Done (lanes', trace ++ (l ≫= out)).
Proof.
  induction l as [|a l IH]; intros Hbody lanes trace.
  - exists lanes. cbn. by rewrite app_nil_r.
  - destruct (Hbody a lanes trace) as [lanes1 Hstep]; [left|].
    destruct (IH (λ a' lanes' trace' Ha', Hbody a' lanes' trace' (list_elem_of_further _ _ _ Ha'))
                 lanes1 (trace ++ out a)) as [lanes' Hrest].
    exists lanes'. rewrite foldM_cons, Hstep, bind_Done, Hrest.
    by rewrite bind_cons, <- app_assoc.
Qed.

Lemma mapM_Done {A B} (f : A → outcome B) (g : A → B) (l : list A) :
  (∀ a, a ∈ l → f a = Done (g a)) → mapM f l = Done (g <$> l).
Proof.
  induction l as [|a l IH]; intros Hf; [done|].
  cbn. rewrite (Hf a) by left. cbn. rewrite IH; [done|].
  intros. apply Hf. by right.
Qed.

Lemma bind_ext_elem_of {A B} (f g : A → list B) (l : list A) :
  (∀ a, a ∈ l → f a = g a) → l ≫= f = l ≫= g.
Proof.
  intros Hfg. apply Forall_bind_ext, Forall_forall. done.
Qed.

Lemma length_bind_nil {A B} (f : A → list B) (l : list A) :
  length (l ≫= f) = 0%nat → l ≫= f = [].
Proof. by destruct (l ≫= f). Qed.

Section Packet.

Variable impl : LightmapBakerImpl.
Variable rayDirection : Vector3.
Variable scene : RTCScene.

Lemma fillRay_readable (baseIndex : Z) (lanes : Packet) (numValidRays i : Z) :
  readable impl (wrap_unsigned (baseIndex + i)) →
  ∃ l,
    fillRay impl rayDirection baseIndex (lanes, numValidRays) i
    = Done (set_lane lanes i l,
            numValidRays
            + Z.of_nat (length (texelStores impl rayDirection scene
                                  (wrap_unsigned (baseIndex + i))))) ∧
    filled impl rayDirection (wrap_unsigned (baseIndex + i)) l.
Proof.
  intros (Hindex & texel & normal & Htexel & Hnormal & [g Hg]).
  unfold fillRay, texelStores, filled. rewrite Htexel, Hnormal.
  rewrite (at_lookup _ _ _ Hindex Htexel). cbn.
  unfold geometryIdOf in *. rewrite Hg. cbn.
  destruct (decide (g = 0)) as [->|Hne].
  - eexists. split.
    + rewrite decide_True by done. cbn. do 2 f_equal. lia.
    + by rewrite decide_True.
  - rewrite (at_lookup _ _ _ Hindex Hnormal). cbn.
    eexists. rewrite !decide_False by congruence. split; [cbn; done|]. reflexivity.
Qed.

Lemma fillRays_spec (baseIndex : Z) (lane_indices : list Z) :
  NoDup lane_indices →
  (∀ i, i ∈ lane_indices → readable impl (wrap_unsigned (baseIndex + i))) →
  ∀ (lanes : Packet) (numValidRays : Z),
  ∃ lanes',
    foldM (fillRay impl rayDirection baseIndex) (lanes, numValidRays) lane_indices
    = Done (lanes',
            numValidRays
            + Z.of_nat (length (lane_indices ≫=
                                  (λ i, texelStores impl rayDirection scene
                                          (wrap_unsigned (baseIndex + i)))))) ∧
    (∀ i, i ∈ lane_indices → filled impl rayDirection (wrap_unsigned (baseIndex + i)) (lanes' i)) ∧
    (∀ j, j ∉ lane_indices → lanes' j = lanes j).
Proof.
  induction 1 as [|i lane_indices Hfresh Hnodup IH]; intros Hread lanes numValidRays.
  - exists lanes. cbn. split; [do 2 f_equal; lia|]. split; [|done].
    intros i Hi. by apply elem_of_nil in Hi.
  - destruct (fillRay_readable baseIndex lanes numValidRays i) as (l & Hstep & Hl).
    { apply Hread. left. }
    destruct (IH (λ j Hj, Hread j (list_elem_of_further _ _ _ Hj))
                 (set_lane lanes i l)
                 (numValidRays
                  + Z.of_nat (length (texelStores impl rayDirection scene
                                        (wrap_unsigned (baseIndex + i))))))
      as (lanes' & Hrest & Hfilled & Hframe).
    exists lanes'. split; [|split].
    + rewrite foldM_cons, Hstep, bind_Done, Hrest. do 2 f_equal.
      rewrite bind_cons, length_app. lia.
    + intros j [->|Hj]%elem_of_cons; [|by apply Hfilled].
      rewrite Hframe by done. unfold set_lane. by rewrite decide_True.
    + intros j Hj. apply not_elem_of_cons in Hj as [Hne Hj].
      rewrite Hframe by done. unfold set_lane. by rewrite decide_False.
Qed.

Lemma storeRay_filled (lanes : Packet) (baseIndex i : Z) :
  readable impl (wrap_unsigned (baseIndex + i)) →
  filled impl rayDirection (wrap_unsigned (baseIndex + i)) (lanes i) →
  storeRay (rtcIntersect16 scene lanes) baseIndex i
  = texelStores impl rayDirection scene (wrap_unsigned (baseIndex + i)).
Proof.
  intros (_ & texel & normal & Htexel & Hnormal & _).
  unfold filled, storeRay, texelStores, rtcIntersect16. rewrite Htexel, Hnormal.
  destruct (decide (geometryIdOf texel = Done 0)) as [Hzero|Hnonzero].
  - intros Hv. destruct (decide (rayValid (lanes i) = 0)) as [_|]; [|done].
    by rewrite decide_True.
  - intros ->. cbn. destruct (decide (-1 = 0)) as [|_]; [done|]. cbn.
    destruct (decide (-1 = 0)) as [|_]; done.
Qed.

Lemma castPacket_spec (lightmapWidth y rayPacketIndex : Z)
    (lanes : Packet) (trace : list Store) :
  embreeScene_ impl = Some scene →
  (∀ i, i ∈ seqZ 0 RayPacketSize →
        readable impl (laneIndex lightmapWidth y rayPacketIndex i)) →
  ∃ lanes',
    castPacket impl rayDirection lightmapWidth y (lanes, trace) rayPacketIndex
    = Done (lanes',
            trace ++ packetStores impl rayDirection scene lightmapWidth y rayPacketIndex).
Proof.
  intros Hscene Hread. unfold castPacket, packetStores.
  set (baseIndex :=
         wrap_unsigned (wrap_unsigned (y * wrap_unsigned lightmapWidth)
                        + wrap_unsigned (rayPacketIndex * RayPacketSize))).
  destruct (fillRays_spec baseIndex (seqZ 0 RayPacketSize) (NoDup_seqZ _ _) Hread lanes 0)
    as (lanes' & -> & Hfilled & _).
  cbn [mbind outcome_bind].
  change (λ i, texelStores impl rayDirection scene (laneIndex lightmapWidth y rayPacketIndex i))
    with (λ i, texelStores impl rayDirection scene (wrap_unsigned (baseIndex + i))).
  destruct (decide (0 + Z.of_nat (length (seqZ 0 RayPacketSize ≫=
              (λ i, texelStores impl rayDirection scene (wrap_unsigned (baseIndex + i)))))
            = 0)) as [Hnone|Hsome].
  - exists lanes'. rewrite length_bind_nil by lia. by rewrite app_nil_r.
  - rewrite Hscene. cbn [from_option mbind outcome_bind].
    eexists. do 3 f_equal.
    apply bind_ext_elem_of. intros i Hi.
    apply storeRay_filled; [by apply Hread|by apply Hfilled].
Qed.

End Packet.

(** ** Ray caster: bands *)

Section Bands.

Variable impl : LightmapBakerImpl.
Variable rayDirection : Vector3.
Variable scene : RTCScene.
Variables lightmapWidth lightmapHeight chunks : Z.

Hypothesis width_int : 0 ≤ lightmapWidth < 2 ^ 31.
Hypothesis height_int : 0 ≤ lightmapHeight < 2 ^ 31.
Hypothesis area_int : lightmapWidth * lightmapHeight < 2 ^ 31.
Hypothesis chunks_unsigned : 0 < chunks < 2 ^ 32.
Hypothesis scene_committed : embreeScene_ impl = Some scene.
Hypothesis buffers_readable :
  ∀ index, 0 ≤ index < lightmapWidth * lightmapHeight → readable impl index.

Let chunkHeight := lightmapHeight / chunks.

Lemma chunkHeight_bounds : 0 ≤ chunkHeight ∧ chunks * chunkHeight ≤ lightmapHeight.
Proof using height_int chunks_unsigned.
  unfold chunkHeight. split; [apply Z.div_pos; lia|apply Z.mul_div_le; lia].
Qed.

Lemma chunk_bounds (k : Z) :
  0 ≤ k < chunks →
  chunkFromY chunkHeight k = k * chunkHeight ∧
  chunkToY lightmapHeight chunkHeight k = (k + 1) * chunkHeight.
Proof using height_int chunks_unsigned.
  intros Hk. pose proof chunkHeight_bounds as [Hpos Hle].
  unfold chunkFromY, chunkToY.
  rewrite !wrap_unsigned_small by nia. split; [done|]. nia.
Qed.

Lemma elem_of_chunkRows (k y : Z) :
  0 ≤ k < chunks →
  y ∈ chunkRows lightmapHeight chunkHeight k
  ↔ k * chunkHeight ≤ y < (k + 1) * chunkHeight.
Proof using height_int chunks_unsigned.
  intros Hk. unfold chunkRows. destruct (chunk_bounds k Hk) as [-> ->].
  rewrite elem_of_seqZ. lia.
Qed.

Lemma chunkRows_height (k y : Z) :
  0 ≤ k < chunks → y ∈ chunkRows lightmapHeight chunkHeight k →
  0 ≤ y < lightmapHeight.
Proof using height_int chunks_unsigned.
  intros Hk Hy%elem_of_chunkRows; [|done].
  pose proof chunkHeight_bounds. nia.
Qed.

Let numRayPackets := lightmapWidth / RayPacketSize.

Lemma numRayPackets_bounds :
  0 ≤ numRayPackets ∧ RayPacketSize * numRayPackets ≤ lightmapWidth.
Proof.
  unfold numRayPackets, RayPacketSize.
  split; [apply Z.div_pos; lia|apply Z.mul_div_le; lia].
Qed.

Lemma laneIndex_exact (y p i : Z) :
  0 ≤ y < lightmapHeight → 0 ≤ p < numRayPackets → 0 ≤ i < RayPacketSize →
  laneIndex lightmapWidth y p i = y * lightmapWidth + (RayPacketSize * p + i) ∧
  0 ≤ RayPacketSize * p + i < lightmapWidth.
Proof.
  intros Hy Hp Hi. pose proof numRayPackets_bounds as [_ Hle].
  unfold RayPacketSize in *. unfold laneIndex, RayPacketSize.
  assert (0 ≤ 16 * p + i < lightmapWidth) by lia.
  assert (y * lightmapWidth + lightmapWidth ≤ lightmapWidth * lightmapHeight) by nia.
  assert (0 ≤ y * lightmapWidth) by nia.
  rewrite (wrap_unsigned_small lightmapWidth) by lia.
  rewrite (wrap_unsigned_small (y * lightmapWidth)) by lia.
  rewrite (wrap_unsigned_small (p * 16)) by lia.
  rewrite (wrap_unsigned_small (y * lightmapWidth + p * 16)) by lia.
  rewrite wrap_unsigned_small by lia. lia.
Qed.

Lemma laneIndex_readable (y p i : Z) :
  0 ≤ y < lightmapHeight → p ∈ seqZ 0 numRayPackets → i ∈ seqZ 0 RayPacketSize →
  readable impl (laneIndex lightmapWidth y p i).
Proof.
  intros Hy Hp%elem_of_seqZ Hi%elem_of_seqZ.
  destruct (laneIndex_exact y p i) as [-> ?]; [lia..|].
  apply buffers_readable. nia.
Qed.

Lemma row_spec (y : Z) (lanes : Packet) (trace : list Store) :
  0 ≤ y < lightmapHeight →
  ∃ lanes',
    foldM (castPacket impl rayDirection lightmapWidth y) (lanes, trace)
          (seqZ 0 numRayPackets)
    = Done (lanes',
            trace ++ rowStores impl rayDirection scene lightmapWidth numRayPackets y).
Proof.
  intros Hy. unfold rowStores. apply foldM_trace.
  intros p lanes0 trace0 Hp. apply castPacket_spec; [done|].
  intros i Hi. by apply laneIndex_readable.
Qed.

Lemma bakeChunk_spec (scratch : Packet) (k : Z) :
  0 ≤ k < chunks →
  bakeChunk impl rayDirection lightmapWidth lightmapHeight numRayPackets chunkHeight
    scratch k
  = Done (chunkStores impl rayDirection scene lightmapWidth lightmapHeight
            numRayPackets chunkHeight k).
Proof.
  intros Hk. unfold bakeChunk, chunkStores.
  destruct (foldM_trace
              (λ state y, foldM (castPacket impl rayDirection lightmapWidth y) state
                                (seqZ 0 numRayPackets))
              (rowStores impl rayDirection scene lightmapWidth numRayPackets)
              (chunkRows lightmapHeight chunkHeight k)) with (lanes := scratch) (trace := @nil Store)
    as [lanes' Hrun].
  { intros y lanes trace Hy. apply row_spec. by eapply chunkRows_height. }
  unfold chunkRows in Hrun. rewrite Hrun. done.
Qed.

Lemma texelStores_elem (st : Store) (index : Z) :
  st ∈ texelStores impl rayDirection scene index →
  st.1 = index ∧
  ∃ texel normal,
    positionBuffer_ impl !! Z.to_nat index = Some texel ∧
    smoothNormalBuffer_ impl !! Z.to_nat index = Some normal ∧
    geometryIdOf texel ≠ Done 0 ∧
    st.2 = litColor impl rayDirection scene texel normal.
Proof.
  unfold texelStores.
  destruct (positionBuffer_ impl !! Z.to_nat index) as [texel|]; [|by intros ?%elem_of_nil].
  destruct (smoothNormalBuffer_ impl !! Z.to_nat index) as [normal|];
    [|by intros ?%elem_of_nil].
  destruct (decide (geometryIdOf texel = Done 0)); [by intros ?%elem_of_nil|].
  intros ->%list_elem_of_singleton. eauto 10.
Qed.

Lemma NoDup_texelStores (index : Z) : NoDup (texelStores impl rayDirection scene index).
Proof.
  unfold texelStores.
  repeat (case_match; try apply NoDup_nil_2). apply NoDup_singleton.
Qed.

Lemma elem_of_packetStores (st : Store) (y p : Z) :
  0 ≤ y < lightmapHeight → 0 ≤ p < numRayPackets →
  st ∈ packetStores impl rayDirection scene lightmapWidth y p
  ↔ ∃ i, 0 ≤ i < RayPacketSize ∧
         st ∈ texelStores impl rayDirection scene
                (y * lightmapWidth + (RayPacketSize * p + i)).
Proof.
  intros Hy Hp. unfold packetStores. rewrite list_elem_of_bind.
  split.
  - intros (i & Hst & Hi%elem_of_seqZ). exists i. split; [lia|].
    destruct (laneIndex_exact y p i) as [<- _]; [lia..|done].
  - intros (i & Hi & Hst). exists i. rewrite elem_of_seqZ. split; [|lia].
    destruct (laneIndex_exact y p i) as [-> _]; [lia..|done].
Qed.

Lemma elem_of_rowStores (st : Store) (y : Z) :
  0 ≤ y < lightmapHeight →
  st ∈ rowStores impl rayDirection scene lightmapWidth numRayPackets y
  ↔ ∃ x, 0 ≤ x < RayPacketSize * numRayPackets ∧
         st ∈ texelStores impl rayDirection scene (y * lightmapWidth + x).
Proof.
  intros Hy. unfold rowStores. rewrite list_elem_of_bind. split.
  - intros (p & Hst & Hp%elem_of_seqZ).
    apply elem_of_packetStores in Hst as (i & Hi & Hst); [|lia..].
    exists (RayPacketSize * p + i). split; [unfold RayPacketSize in *; lia|done].
  - intros (x & Hx & Hst). unfold RayPacketSize in *.
    exists (x / 16). rewrite elem_of_seqZ.
    assert (0 ≤ x / 16 < numRayPackets).
    { split; [apply Z.div_pos; lia|apply Z.div_lt_upper_bound; lia]. }
    split; [|lia]. apply elem_of_packetStores; [lia..|].
    exists (x mod 16). unfold RayPacketSize.
    split; [apply Z.mod_pos_bound; lia|].
    by rewrite <- Z.div_mod by lia.
Qed.

Lemma elem_of_chunkStores (st : Store) (k : Z) :
  0 ≤ k < chunks →
  st ∈ chunkStores impl rayDirection scene lightmapWidth lightmapHeight
         numRayPackets chunkHeight k
  ↔ ∃ y x, k * chunkHeight ≤ y < (k + 1) * chunkHeight ∧
           0 ≤ x < RayPacketSize * numRayPackets ∧
           st ∈ texelStores impl rayDirection scene (y * lightmapWidth + x).
Proof.
  intros Hk. unfold chunkStores. rewrite list_elem_of_bind. split.
  - intros (y & Hst & Hy). pose proof (chunkRows_height k y Hk Hy).
    apply elem_of_chunkRows in Hy; [|done].
    apply elem_of_rowStores in Hst as (x & Hx & Hst); [|done]. eauto.
  - intros (y & x & Hy & Hx & Hst). exists y.
    rewrite elem_of_chunkRows by done. split; [|done].
    apply elem_of_rowStores; [|eauto].
    pose proof chunkHeight_bounds. nia.
Qed.

(** A texel index determines its row and its column. *)
Lemma texel_index_inj (y1 x1 y2 x2 : Z) :
  0 ≤ x1 < lightmapWidth → 0 ≤ x2 < lightmapWidth →
  y1 * lightmapWidth + x1 = y2 * lightmapWidth + x2 → y1 = y2 ∧ x1 = x2.
Proof. intros. assert (y1 = y2) by nia. subst. lia. Qed.

Lemma chunkStores_index (st : Store) (k : Z) :
  0 ≤ k < chunks →
  st ∈ chunkStores impl rayDirection scene lightmapWidth lightmapHeight
         numRayPackets chunkHeight k →
  ∃ y x, k * chunkHeight ≤ y < (k + 1) * chunkHeight ∧
         0 ≤ x < lightmapWidth ∧ st.1 = y * lightmapWidth + x ∧
         st ∈ texelStores impl rayDirection scene (y * lightmapWidth + x).
Proof.
  intros Hk (y & x & Hy & Hx & Hst)%elem_of_chunkStores; [|done].
  pose proof numRayPackets_bounds. exists y, x.
  destruct (texelStores_elem st _ Hst) as [-> _]. split_and!; try done; lia.
Qed.

(** Stores of distinct bands go to distinct texels. *)
Lemma chunkStores_disjoint (k1 k2 : Z) (s1 s2 : Store) :
  0 ≤ k1 < chunks → 0 ≤ k2 < chunks →
  s1 ∈ chunkStores impl rayDirection scene lightmapWidth lightmapHeight
         numRayPackets chunkHeight k1 →
  s2 ∈ chunkStores impl rayDirection scene lightmapWidth lightmapHeight
         numRayPackets chunkHeight k2 →
  s1.1 = s2.1 → k1 = k2.
Proof.
  intros Hk1 Hk2 (y1 & x1 & Hy1 & Hx1 & -> & _)%chunkStores_index
                 (y2 & x2 & Hy2 & Hx2 & -> & _)%chunkStores_index; [|done..].
  intros [-> _]%texel_index_inj; [|done..]. nia.
Qed.

(** No texel is stored to twice. *)
Lemma NoDup_chunkStores_fst :
  NoDup ((seqZ 0 chunks ≫=
            chunkStores impl rayDirection scene lightmapWidth lightmapHeight
              numRayPackets chunkHeight).*1).
Proof.
  pose proof numRayPackets_bounds as [_ Hpackets].
  apply NoDup_fmap_fst.
  { intros j c1 c2 (k1 & H1 & Hk1%elem_of_seqZ)%list_elem_of_bind
                   (k2 & H2 & Hk2%elem_of_seqZ)%list_elem_of_bind.
    apply chunkStores_index in H1 as (y1 & x1 & _ & _ & Hj1 & H1); [|lia].
    apply chunkStores_index in H2 as (y2 & x2 & _ & _ & Hj2 & H2); [|lia].
    cbn in Hj1, Hj2. rewrite <- Hj1 in H1. rewrite <- Hj2 in H2.
    apply texelStores_elem in H1 as (_ & texel1 & normal1 & Ht1 & Hn1 & _ & Hc1).
    apply texelStores_elem in H2 as (_ & texel2 & normal2 & Ht2 & Hn2 & _ & Hc2).
    cbn in Hc1, Hc2. congruence. }
  apply NoDup_bind; [| |apply NoDup_seqZ].
  { intros k1 k2 st Hk1%elem_of_seqZ Hk2%elem_of_seqZ H1 H2.
    eapply chunkStores_disjoint; [| |exact H1|exact H2|done]; lia. }
  intros k Hk%elem_of_seqZ. unfold chunkStores.
  apply NoDup_bind; [| |apply NoDup_seqZ].
  { intros y1 y2 st Hy1 Hy2 H1 H2.
    pose proof (chunkRows_height k y1 ltac:(lia) Hy1).
    pose proof (chunkRows_height k y2 ltac:(lia) Hy2).
    apply elem_of_rowStores in H1 as (x1 & Hx1 & [Hs1 _]%texelStores_elem); [|done].
    apply elem_of_rowStores in H2 as (x2 & Hx2 & [Hs2 _]%texelStores_elem); [|done].
    apply (texel_index_inj y1 x1 y2 x2); [lia..|congruence]. }
  intros y Hy. pose proof (chunkRows_height k y ltac:(lia) Hy) as Hrow.
  unfold rowStores. apply NoDup_bind; [| |apply NoDup_seqZ].
  { intros p1 p2 st Hp1%elem_of_seqZ Hp2%elem_of_seqZ H1 H2.
    apply elem_of_packetStores in H1 as (i1 & Hi1 & [Hs1 _]%texelStores_elem); [|lia..].
    apply elem_of_packetStores in H2 as (i2 & Hi2 & [Hs2 _]%texelStores_elem); [|lia..].
    unfold RayPacketSize in *. lia. }
  intros p Hp%elem_of_seqZ. unfold packetStores.
  apply NoDup_bind; [| |apply NoDup_seqZ].
  { intros i1 i2 st Hi1%elem_of_seqZ Hi2%elem_of_seqZ
           [Hs1 _]%texelStores_elem [Hs2 _]%texelStores_elem.
    destruct (laneIndex_exact y p i1) as [E1 _]; [lia..|].
    destruct (laneIndex_exact y p i2) as [E2 _]; [lia..|].
    lia. }
  intros i _. apply NoDup_texelStores.
Qed.

Lemma chunkStores_in_range (st : Store) :
  st ∈ seqZ 0 chunks ≫=
         chunkStores impl rayDirection scene lightmapWidth lightmapHeight
           numRayPackets chunkHeight →
  0 ≤ st.1 < lightmapWidth * lightmapHeight.
Proof.
  intros (k & Hst & Hk%elem_of_seqZ)%list_elem_of_bind.
  apply chunkStores_index in Hst as (y & x & Hy & Hx & -> & _); [|lia].
  pose proof chunkHeight_bounds.
  assert (0 ≤ y < lightmapHeight) by nia.
  assert (y * lightmapWidth + lightmapWidth ≤ lightmapWidth * lightmapHeight) by nia.
  nia.
Qed.

End Bands.

(** ** Ray caster: joining the bands *)

Lemma store_at_in_range {A} (v : list A) (i : Z) (a : A) :
  0 ≤ i < Z.of_nat (length v) → store_at v i a = Done (<[Z.to_nat i := a]> v).
Proof. intros. unfold store_at. by rewrite decide_True. Qed.

Lemma run_stores_cons (lighting : list Color) (st : Store) (trace : list Store) :
  run_stores lighting (st :: trace)
  = store_at lighting st.1 st.2 ≫= (λ lighting', run_stores lighting' trace).
Proof. done. Qed.

(** A trace that stores to each texel at most once, within the buffer, runs
    to the end; every texel it mentions holds the colour stored, every
    other texel the colour it had. *)
Lemma run_stores_spec (trace : list Store) (lighting : list Color) :
  NoDup (trace.*1) →
  (∀ st, st ∈ trace → 0 ≤ st.1 < Z.of_nat (length lighting)) →
  ∃ lighting',
    run_stores lighting trace = Done lighting' ∧
    length lighting' = length lighting ∧
    (∀ j c, (j, c) ∈ trace → lighting' !! Z.to_nat j = Some c) ∧
    (∀ j, 0 ≤ j → j ∉ trace.*1 → lighting' !! Z.to_nat j = lighting !! Z.to_nat j).
Proof.
  revert lighting. induction trace as [|[j c] trace IH]; intros lighting Hnodup Hrange.
  - exists lighting. split; [done|]. split; [done|]. split; [|done].
    intros ? ? ?%elem_of_nil. done.
  - rewrite fmap_cons in Hnodup. apply NoDup_cons in Hnodup as [Hfresh Hnodup].
    assert (0 ≤ j < Z.of_nat (length lighting)) as Hj by (apply (Hrange (j, c)); left).
    destruct (IH (<[Z.to_nat j := c]> lighting) Hnodup)
      as (lighting' & Hrun & Hlength & Hstored & Hframe).
    { intros st Hst. rewrite length_insert. apply Hrange. by right. }
    exists lighting'. rewrite run_stores_cons. cbn [fst snd].
    rewrite store_at_in_range, bind_Done by done.
    split; [done|]. split; [by rewrite Hlength, length_insert|]. split.
    + intros j' c' [[= -> ->]|Hin]%elem_of_cons; [|by apply Hstored].
      rewrite Hframe by (done || lia).
      apply list_lookup_insert_eq. lia.
    + intros j' Hpos Hnotin. rewrite fmap_cons in Hnotin.
      apply not_elem_of_cons in Hnotin as [Hne Hnotin]. cbn in Hne.
      rewrite Hframe by done. apply list_lookup_insert_ne. lia.
Qed.

(** The order of such stores does not matter. *)
Lemma run_stores_Permutation (trace1 trace2 : list Store) (lighting : list Color) :
  NoDup (trace1.*1) →
  (∀ st, st ∈ trace1 → 0 ≤ st.1 < Z.of_nat (length lighting)) →
  trace1 ≡ₚ trace2 →
  run_stores lighting trace1 = run_stores lighting trace2.
Proof.
  intros Hnodup Hrange Hperm.
  destruct (run_stores_spec trace1 lighting Hnodup Hrange)
    as (l1 & -> & Hlen1 & Hstored1 & Hframe1).
  destruct (run_stores_spec trace2 lighting)
    as (l2 & -> & Hlen2 & Hstored2 & Hframe2).
  { by rewrite <- Hperm. }
  { intros st Hst. apply Hrange. by rewrite Hperm. }
  f_equal. apply list_eq. intros n.
  destruct (decide (Z.of_nat n ∈ trace1.*1)) as [Hin|Hout].
  - apply list_elem_of_fmap in Hin as ([j c] & Hj & Hin). cbn in Hj. subst j.
    rewrite <- (Nat2Z.id n), (Hstored1 _ _ Hin).
    symmetry. apply Hstored2. by rewrite <- Hperm.
  - rewrite <- (Nat2Z.id n), Hframe1, Hframe2; [done|lia| |lia|done].
    by rewrite <- Hperm.
Qed.

(** Every execution of the tasks carries out the stores of all of them. *)
Lemma interleaving_Permutation {A} (tasks : list (list A)) (trace : list A) :
  interleaving tasks trace → trace ≡ₚ concat tasks.
Proof.
  induction 1 as [tasks Hdone|tasks k a t trace Hk _ IH].
  - induction Hdone as [|t tasks -> _ IH]; [done|]. cbn. done.
  - rewrite IH.
    rewrite <- (take_drop_middle tasks k (a :: t)) at 2 by done.
    rewrite insert_take_drop by (by eapply lookup_lt_Some).
    rewrite !concat_app. cbn. by rewrite Permutation_middle.
Qed.

Lemma concat_fmap_bind {A B} (f : A → list B) (l : list A) :
  concat (f <$> l) = l ≫= f.
Proof. induction l as [|a l IH]; [done|]. cbn. by rewrite IH. Qed.

(** BakeLightmap up to the join, for a baker whose current lightmap exists
    and whose buffers cover it: the output is prepared white, and band [k]
    issues [chunkStores k], whatever its locals held. *)
Lemma BakeLightmapTasks_spec (Normalized : Vector3 → Vector3) (heap : NodeHeap)
    (scratch : Z → Packet) (impl : LightmapBakerImpl) (lightmapDesc : LightmapDesc)
    (scene : RTCScene) (lightDirection : Vector3) (lightmapWidth lightmapHeight : Z) :
  at_ (lightmaps_ impl) (currentLightmapIndex_ impl) = Done lightmapDesc →
  GetWidth (allocator_ lightmapDesc) = lightmapWidth →
  GetHeight (allocator_ lightmapDesc) = lightmapHeight →
  0 ≤ lightmapWidth < 2 ^ 31 → 0 ≤ lightmapHeight < 2 ^ 31 →
  lightmapWidth * lightmapHeight < 2 ^ 31 →
  0 < numParallelChunks_ (settings_ impl) < 2 ^ 32 →
  embreeScene_ impl = Some scene →
  findLightDirection heap (lights_ impl) = Done lightDirection →
  (∀ index, 0 ≤ index < lightmapWidth * lightmapHeight → readable impl index) →
  BakeLightmapTasks Normalized heap scratch impl
  = Done (mkBakedData (mkIntVector2 lightmapWidth lightmapHeight)
            (replicate (Z.to_nat (lightmapWidth * lightmapHeight)) Color_WHITE),
          chunkStores impl (Vector3_neg (Normalized lightDirection)) scene
            lightmapWidth lightmapHeight (lightmapWidth / RayPacketSize)
            (lightmapHeight / numParallelChunks_ (settings_ impl))
          <$> seqZ 0 (numParallelChunks_ (settings_ impl))).
Proof.
  intros Hdesc <- <- HW HH HWH HN Hscene Hlight Hread.
  unfold BakeLightmapTasks. rewrite Hdesc, bind_Done.
  rewrite wrap_int_small by nia.
  rewrite decide_False by nia.
  rewrite Hlight, bind_Done. unfold udiv.
  rewrite decide_False by lia. rewrite bind_Done.
  rewrite !wrap_unsigned_small by lia.
  erewrite mapM_Done; [done|].
  intros k Hk%elem_of_seqZ. cbn beta.
  apply bakeChunk_spec; (done || lia).
Qed.

Lemma buffers_readable (impl : LightmapBakerImpl) (texels : Z) :
  Z.of_nat (length (positionBuffer_ impl)) = texels →
  Z.of_nat (length (smoothNormalBuffer_ impl)) = texels →
  Forall (λ texel, is_Done (geometryIdOf texel)) (positionBuffer_ impl) →
  ∀ index, 0 ≤ index < texels → readable impl index.
Proof.
  intros Hposition Hnormal Hmarkers index Hindex.
  destruct (lookup_lt_is_Some_2 (positionBuffer_ impl) (Z.to_nat index))
    as [texel Htexel]; [lia|].
  destruct (lookup_lt_is_Some_2 (smoothNormalBuffer_ impl) (Z.to_nat index))
    as [normal Hnormal']; [lia|].
  split; [lia|]. exists texel, normal. split_and!; [done..|].
  exact (Forall_lookup_1 _ _ _ _ Hmarkers Htexel).
Qed.

(** C1, as amended. The baker has a current lightmap of [lightmapWidth] by
    [lightmapHeight] texels, the width a multiple of the packet width; the
    position and smoothed normal buffers have one entry per texel and every
    marker converts to [unsigned]; the scene is committed, and there is at
    least one band. Then BakeLightmap returns true with one colour per texel,
    and for the texel in column [x] of row [y]: if its marker truncates to
    zero it is white; if its marker truncates to a non-zero id and the row
    is below [chunks * (lightmapHeight / chunks)], it is white multiplied by
    diffuse multiplied by shadow. *)
Theorem BakeLightmap_texels (Normalized : Vector3 → Vector3) (heap : NodeHeap)
    (scratch : Z → Packet) (impl : LightmapBakerImpl) (lightmapDesc : LightmapDesc)
    (scene : RTCScene) (lightDirection : Vector3) (lightmapWidth lightmapHeight : Z) :
  at_ (lightmaps_ impl) (currentLightmapIndex_ impl) = Done lightmapDesc →
  GetWidth (allocator_ lightmapDesc) = lightmapWidth →
  GetHeight (allocator_ lightmapDesc) = lightmapHeight →
  0 ≤ lightmapWidth < 2 ^ 31 → 0 ≤ lightmapHeight < 2 ^ 31 →
  lightmapWidth * lightmapHeight < 2 ^ 31 →
  lightmapWidth mod RayPacketSize = 0 →
  0 < numParallelChunks_ (settings_ impl) < 2 ^ 32 →
  embreeScene_ impl = Some scene →
  findLightDirection heap (lights_ impl) = Done lightDirection →
  Z.of_nat (length (positionBuffer_ impl)) = lightmapWidth * lightmapHeight →
  Z.of_nat (length (smoothNormalBuffer_ impl)) = lightmapWidth * lightmapHeight →
  Forall (λ texel, is_Done (geometryIdOf texel)) (positionBuffer_ impl) →
  ∃ lighting,
    BakeLightmap Normalized heap scratch impl
    = Done (true, mkBakedData (mkIntVector2 lightmapWidth lightmapHeight) lighting) ∧
    Z.of_nat (length lighting) = lightmapWidth * lightmapHeight ∧
    ∀ x y texel normal,
      0 ≤ x < lightmapWidth → 0 ≤ y < lightmapHeight →
      positionBuffer_ impl !! Z.to_nat (y * lightmapWidth + x) = Some texel →
      smoothNormalBuffer_ impl !! Z.to_nat (y * lightmapWidth + x) = Some normal →
      (geometryIdOf texel = Done 0 →
       lighting !! Z.to_nat (y * lightmapWidth + x) = Some Color_WHITE) ∧
      (geometryIdOf texel ≠ Done 0 →
       y < numParallelChunks_ (settings_ impl)
           * (lightmapHeight / numParallelChunks_ (settings_ impl)) →
       lighting !! Z.to_nat (y * lightmapWidth + x)
       = Some (litColor impl (Vector3_neg (Normalized lightDirection)) scene texel normal)).
Proof.
  intros Hdesc HWdef HHdef HW HH HWH Hpackets HN Hscene Hlight Hposition Hnormal Hmarkers.
  pose proof (buffers_readable impl _ Hposition Hnormal Hmarkers) as Hread.
  set (chunks := numParallelChunks_ (settings_ impl)) in *.
  set (rayDirection := Vector3_neg (Normalized lightDirection)).
  unfold BakeLightmap.
  rewrite (BakeLightmapTasks_spec Normalized heap scratch impl lightmapDesc scene
             lightDirection lightmapWidth lightmapHeight) by done.
  rewrite bind_Done. cbn [backedLighting_ data_lightmapSize_].
  rewrite concat_fmap_bind. fold chunks rayDirection.
  destruct (run_stores_spec
              (seqZ 0 chunks ≫=
                 chunkStores impl rayDirection scene lightmapWidth lightmapHeight
                   (lightmapWidth / RayPacketSize) (lightmapHeight / chunks))
              (replicate (Z.to_nat (lightmapWidth * lightmapHeight)) Color_WHITE))
    as (lighting & -> & Hlength & Hstored & Hframe).
  { by apply NoDup_chunkStores_fst. }
  { intros st Hst. rewrite length_replicate, Z2Nat.id by nia.
    by eapply chunkStores_in_range. }
  exists lighting. rewrite bind_Done. split; [done|].
  rewrite length_replicate in Hlength. split; [nia|].
  intros x y texel normal Hx Hy Htexel Hnormal'.
  assert (0 ≤ y * lightmapWidth + x < lightmapWidth * lightmapHeight) as Hindex by nia.
  split.
  - intros Hzero. rewrite Hframe; [apply lookup_replicate_2; lia|lia|].
    intros ([j c] & Hj & Hin)%list_elem_of_fmap. cbn in Hj. subst j.
    apply list_elem_of_bind in Hin as (k & Hin & Hk%elem_of_seqZ).
    apply chunkStores_index in Hin as (y' & x' & _ & _ & Hj & Hin); [|done || lia..].
    cbn in Hj. rewrite <- Hj in Hin.
    apply texelStores_elem in Hin as (_ & texel' & _ & Htexel' & _ & Hne & _).
    congruence.
  - intros Hnonzero Hrow. apply Hstored.
    assert (0 < lightmapHeight / chunks) as Hch by nia.
    apply list_elem_of_bind. exists (y / (lightmapHeight / chunks)).
    assert (0 ≤ y / (lightmapHeight / chunks) < chunks).
    { split; [apply Z.div_pos; lia|apply Z.div_lt_upper_bound; lia]. }
    rewrite elem_of_seqZ. split; [|lia].
    apply elem_of_chunkStores; [done || lia..|].
    exists y, x. split_and!.
    + pose proof (Z.mul_div_le y (lightmapHeight / chunks) Hch). lia.
    + pose proof (Z.mod_pos_bound y (lightmapHeight / chunks) Hch).
      pose proof (Z.div_mod y (lightmapHeight / chunks)). lia.
    + lia.
    + unfold RayPacketSize in *.
      pose proof (Z.div_mod lightmapWidth 16). lia.
    + unfold texelStores. rewrite Htexel, Hnormal', decide_False by done.
      apply list_elem_of_singleton. done.
Qed.

Lemma Forall_convertible (buffer : list Vector4) :
  forallb convertible buffer = true →
  Forall (λ texel, is_Done (geometryIdOf texel)) buffer.
Proof.
  intros Hall. apply Forall_forall. intros texel Hin%list_elem_of_In.
  rewrite forallb_forall in Hall. specialize (Hall texel Hin).
  unfold convertible in Hall. destruct (geometryIdOf texel) as [g|]; [by exists g|done].
Qed.

Lemma BakeLightmap_texels_witness :
  ∃ lighting,
    BakeLightmap Example.Normalized Example.heapA Example.scratch
      (Example.implA Example.walled)
    = Done (true, mkBakedData (mkIntVector2 16 16) lighting) ∧
    lighting !! 0%nat = Some Color_WHITE ∧
    lighting !! 1%nat = Some Example.black ∧
    lighting !! 2%nat = Some Color_WHITE.
Proof.
  edestruct (BakeLightmap_texels Example.Normalized Example.heapA Example.scratch
               (Example.implA Example.walled) Example.atlasA Example.walled
               (mkVector3 f0 f0 fm1) 16 16)
    as (lighting & Hbake & _ & Htexels).
  - vm_compute. reflexivity.
  - reflexivity.
  - reflexivity.
  - lia.
  - lia.
  - lia.
  - reflexivity.
  - vm_compute. split; reflexivity.
  - reflexivity.
  - vm_compute. reflexivity.
  - vm_compute. reflexivity.
  - vm_compute. reflexivity.
  - apply Forall_convertible. vm_compute. reflexivity.
  - exists lighting. split; [exact Hbake|]. split; [|split].
    + apply (Htexels 0 0 (Example.texel f0_5) Example.facing);
        [lia|lia|reflexivity|reflexivity|reflexivity].
    + apply (Htexels 1 0 (Example.texel f1) Example.facing);
        [lia|lia|reflexivity|reflexivity|vm_compute; discriminate|vm_compute; reflexivity].
    + apply (Htexels 2 0 (Example.texel f0) Example.facing);
        [lia|lia|reflexivity|reflexivity|reflexivity].
Defined.

(** C1, as stated, fails where a marker is not zero and truncates to zero.
    In scene A, texel 0 has the marker 0.5 and faces the light behind a
    wall: white multiplied by diffuse multiplied by shadow is black, and
    BakeLightmap leaves the texel white. *)
Lemma BakeLightmap_fractional_marker :
  Example.renderedA Example.walled = Done (Example.implA Example.walled) ∧
  positionBuffer_ (Example.implA Example.walled) !! 0%nat = Some (Example.texel f0_5) ∧
  smoothNormalBuffer_ (Example.implA Example.walled) !! 0%nat = Some Example.facing ∧
  feq (w_ (Example.texel f0_5)) f0 = false ∧
  litColor (Example.implA Example.walled) Example.towardsSun Example.walled
    (Example.texel f0_5) Example.facing = Example.black ∧
  Example.black ≠ Color_WHITE ∧
  ∃ data,
    BakeLightmap Example.Normalized Example.heapA Example.scratch
      (Example.implA Example.walled) = Done (true, data) ∧
    backedLighting_ data !! 0%nat = Some Color_WHITE.
Proof.
  split; [by vm_compute|]. split; [by vm_compute|]. split; [by vm_compute|].
  split; [by vm_compute|]. split; [by vm_compute|]. split; [by vm_compute|].
  eexists. split; [vm_compute; reflexivity|]. reflexivity.
Qed.

(** C10. Under the conditions of a successful bake, the tasks of
    BakeLightmap and their stores are the same whatever the uninitialised
    locals of the bands hold; stores of different bands go to different
    texels; and every execution that interleaves the stores of the bands
    leaves the buffer that the band-by-band execution leaves. *)
Theorem BakeLightmap_schedule_independent (Normalized : Vector3 → Vector3)
    (heap : NodeHeap) (scratch : Z → Packet) (impl : LightmapBakerImpl)
    (lightmapDesc : LightmapDesc) (scene : RTCScene) (lightDirection : Vector3)
    (lightmapWidth lightmapHeight : Z) :
  at_ (lightmaps_ impl) (currentLightmapIndex_ impl) = Done lightmapDesc →
  GetWidth (allocator_ lightmapDesc) = lightmapWidth →
  GetHeight (allocator_ lightmapDesc) = lightmapHeight →
  0 ≤ lightmapWidth < 2 ^ 31 → 0 ≤ lightmapHeight < 2 ^ 31 →
  lightmapWidth * lightmapHeight < 2 ^ 31 →
  0 < numParallelChunks_ (settings_ impl) < 2 ^ 32 →
  embreeScene_ impl = Some scene →
  findLightDirection heap (lights_ impl) = Done lightDirection →
  Z.of_nat (length (positionBuffer_ impl)) = lightmapWidth * lightmapHeight →
  Z.of_nat (length (smoothNormalBuffer_ impl)) = lightmapWidth * lightmapHeight →
  Forall (λ texel, is_Done (geometryIdOf texel)) (positionBuffer_ impl) →
  ∃ data tasks lighting,
    (∀ scratch', BakeLightmapTasks Normalized heap scratch' impl = Done (data, tasks)) ∧
    (∀ k1 k2 task1 task2 s1 s2,
       tasks !! k1 = Some task1 → tasks !! k2 = Some task2 →
       s1 ∈ task1 → s2 ∈ task2 → s1.1 = s2.1 → k1 = k2) ∧
    BakeLightmap Normalized heap scratch impl
    = Done (true, mkBakedData (data_lightmapSize_ data) lighting) ∧
    (∀ trace, interleaving tasks trace →
              run_stores (backedLighting_ data) trace = Done lighting).
Proof.
  intros Hdesc HWdef HHdef HW HH HWH HN Hscene Hlight Hposition Hnormal Hmarkers.
  pose proof (buffers_readable impl _ Hposition Hnormal Hmarkers) as Hread.
  set (chunks := numParallelChunks_ (settings_ impl)) in *.
  set (rayDirection := Vector3_neg (Normalized lightDirection)).
  set (stores := chunkStores impl rayDirection scene lightmapWidth lightmapHeight
                   (lightmapWidth / RayPacketSize) (lightmapHeight / chunks)).
  set (white := replicate (Z.to_nat (lightmapWidth * lightmapHeight)) Color_WHITE).
  assert (NoDup ((seqZ 0 chunks ≫= stores).*1)) as Hnodup
    by (by apply NoDup_chunkStores_fst).
  assert (∀ st, st ∈ seqZ 0 chunks ≫= stores → 0 ≤ st.1 < Z.of_nat (length white))
    as Hrange.
  { intros st Hst. unfold white. rewrite length_replicate, Z2Nat.id by nia.
    by eapply chunkStores_in_range. }
  destruct (run_stores_spec (seqZ 0 chunks ≫= stores) white Hnodup Hrange)
    as (lighting & Hrun & _).
  exists (mkBakedData (mkIntVector2 lightmapWidth lightmapHeight) white),
         (stores <$> seqZ 0 chunks), lighting.
  assert (∀ scratch',
            BakeLightmapTasks Normalized heap scratch' impl
            = Done (mkBakedData (mkIntVector2 lightmapWidth lightmapHeight) white,
                    stores <$> seqZ 0 chunks)) as Htasks.
  { intros scratch'.
    by apply (BakeLightmapTasks_spec Normalized heap scratch' impl lightmapDesc scene
                lightDirection lightmapWidth lightmapHeight). }
  split; [done|]. split; [|split].
  - intros k1 k2 task1 task2 s1 s2 Hk1 Hk2 Hs1 Hs2 Hsame.
    apply list_lookup_fmap_Some in Hk1 as (z1 & -> & [-> Hz1]%lookup_seqZ).
    apply list_lookup_fmap_Some in Hk2 as (z2 & -> & [-> Hz2]%lookup_seqZ).
    assert (0 + Z.of_nat k1 = 0 + Z.of_nat k2); [|lia].
    eapply (chunkStores_disjoint impl rayDirection scene lightmapWidth lightmapHeight
              chunks); [done..|lia|lia|exact Hs1|exact Hs2|done].
  - unfold BakeLightmap. rewrite Htasks, bind_Done. cbn [backedLighting_ data_lightmapSize_].
    by rewrite concat_fmap_bind, Hrun, bind_Done.
  - intros trace Hrace%interleaving_Permutation. cbn [backedLighting_].
    rewrite concat_fmap_bind in Hrace. rewrite <- Hrun.
    symmetry. by apply run_stores_Permutation.
Qed.

Lemma interleaving_left {A} (task : list A) : interleaving [task; []] task.
Proof.
  induction task as [|a task IH].
  - apply interleaving_done. by repeat apply Forall_cons_2.
  - by apply (interleaving_step _ 0%nat a task).
Qed.

Lemma interleaving_right {A} (task : list A) : interleaving [[]; task] task.
Proof.
  induction task as [|a task IH].
  - apply interleaving_done. by repeat apply Forall_cons_2.
  - by apply (interleaving_step _ 1%nat a task).
Qed.

Lemma interleaving_alternate {A} (task0 task1 : list A) :
  interleaving [task0; task1] (alternate task0 task1).
Proof.
  revert task1. induction task0 as [|a task0 IH]; intros task1.
  - destruct task1; apply interleaving_right.
  - destruct task1 as [|b task1]; [apply interleaving_left|]. cbn.
    apply (interleaving_step _ 0%nat a task0); [done|].
    apply (interleaving_step _ 1%nat b task1); [done|]. apply IH.
Qed.

Lemma Done_pair_inj {A B} (a a' : A) (b b' : B) :
  Done (a, b) = Done (a', b') → a = a' ∧ b = b'.
Proof. by intros [= -> ->]. Qed.

Lemma BakeLightmap_schedule_independent_witness :
  BakeLightmapTasks Example.Normalized Example.heapB Example.scratch Example.implB
  = Done (Example.tasksB.1, [Example.bandB 0; Example.bandB 1]) ∧
  length (Example.bandB 0) = 64%nat ∧ length (Example.bandB 1) = 64%nat ∧
  ∃ lighting,
    BakeLightmap Example.Normalized Example.heapB Example.scratch Example.implB
    = Done (true, mkBakedData (data_lightmapSize_ Example.tasksB.1) lighting) ∧
    run_stores (backedLighting_ Example.tasksB.1)
      (alternate (Example.bandB 0) (Example.bandB 1)) = Done lighting ∧
    ∀ trace, interleaving [Example.bandB 0; Example.bandB 1] trace →
             run_stores (backedLighting_ Example.tasksB.1) trace = Done lighting.
Proof.
  assert (BakeLightmapTasks Example.Normalized Example.heapB Example.scratch Example.implB
          = Done (Example.tasksB.1, [Example.bandB 0; Example.bandB 1])) as Hbands
    by (vm_compute; reflexivity).
  split; [exact Hbands|]. split; [vm_compute; reflexivity|].
  split; [vm_compute; reflexivity|].
  destruct (BakeLightmap_schedule_independent Example.Normalized Example.heapB
              Example.scratch Example.implB Example.atlasB Example.walled
              (mkVector3 f0 f0 fm1) 32 5)
    as (data & tasks & lighting & Htasks & _ & Hbake & Hany).
  - vm_compute. reflexivity.
  - reflexivity.
  - reflexivity.
  - lia.
  - lia.
  - lia.
  - vm_compute. split; reflexivity.
  - reflexivity.
  - vm_compute. reflexivity.
  - vm_compute. reflexivity.
  - vm_compute. reflexivity.
  - apply Forall_convertible. vm_compute. reflexivity.
  - specialize (Htasks Example.scratch). rewrite Hbands in Htasks.
    apply Done_pair_inj in Htasks as [<- <-].
    exists lighting. split; [exact Hbake|]. split; [|exact Hany].
    apply Hany, interleaving_alternate.
Defined.

(** The rows that the bands of BakeLightmap process are those below
    [chunks * (lightmapHeight / chunks)]. *)
Lemma chunkRows_cover (lightmapHeight chunks y : Z) :
  0 ≤ lightmapHeight < 2 ^ 31 → 0 < chunks < 2 ^ 32 →
  (∃ k, 0 ≤ k < chunks ∧ y ∈ chunkRows lightmapHeight (lightmapHeight / chunks) k)
  ↔ 0 ≤ y < chunks * (lightmapHeight / chunks).
Proof.
  intros HH HN.
  pose proof (chunkHeight_bounds lightmapHeight chunks HH HN) as [Hpos Hle].
  split.
  - intros (k & Hk & Hy). apply elem_of_chunkRows in Hy; [|done..]. nia.
  - intros Hy. assert (0 < lightmapHeight / chunks) as Hch by nia.
    exists (y / (lightmapHeight / chunks)). split.
    + split; [apply Z.div_pos; lia|apply Z.div_lt_upper_bound; lia].
    + apply elem_of_chunkRows; [done..| |].
      * split; [apply Z.div_pos; lia|apply Z.div_lt_upper_bound; lia].
      * pose proof (Z.mul_div_le y _ Hch).
        pose proof (Z.mod_pos_bound y _ Hch).
        pose proof (Z.div_mod y (lightmapHeight / chunks)). lia.
Qed.

(** C4. Scene B has a dedicated atlas of 32 by 5 texels and two bands.
    The band height is 2; band 0 processes the rows 0 and 1, band 1 the rows
    2 and 3, and no band processes row 4. Every texel is covered and every
    ray is blocked: the texels of the rows 0 to 3 are baked black, those of
    row 4 are left white. *)
Theorem BakeLightmap_remainder_rows :
  Example.renderedB = Done Example.implB ∧
  (∃ lightmapDesc,
     at_ (lightmaps_ Example.implB) (currentLightmapIndex_ Example.implB)
     = Done lightmapDesc ∧
     GetWidth (allocator_ lightmapDesc) = 32 ∧
     GetHeight (allocator_ lightmapDesc) = 5) ∧
  numParallelChunks_ (settings_ Example.implB) = 2 ∧
  chunkRows 5 (5 / 2) 0 = [0; 1] ∧
  chunkRows 5 (5 / 2) 1 = [2; 3] ∧
  positionBuffer_ Example.implB = replicate 160 (Example.texel f1) ∧
  litColor Example.implB Example.towardsSun Example.walled
    (Example.texel f1) Example.facing = Example.black ∧
  ∃ data,
    Example.bakedB = Done (true, data) ∧
    backedLighting_ data = replicate 128 Example.black ++ replicate 32 Color_WHITE.
Proof.
  split; [by vm_compute|]. split.
  { eexists. split; [vm_compute; reflexivity|]. split; reflexivity. }
  split; [by vm_compute|]. split; [by vm_compute|]. split; [by vm_compute|].
  split; [by vm_compute|]. split; [by vm_compute|].
  eexists. split; vm_compute; reflexivity.
Qed.

(** * Further properties of the baker *)

(** ** Settings validation *)

(** With a non-zero chunk count, Initialize returns false exactly when the
    atlas size is not divisible by the chunk count or by the packet width,
    and a baker that was refused is the baker as constructed: it holds no
    lightmap, and every receiver is without static model and without an
    allocated region. *)
Theorem Initialize_false_iff (NDEBUG : bool) (DOT_SCALE : Vector3)
    (garbage : LightmapRegion) (heap : NodeHeap) (cache : ResourceCache)
    (settings : LightmapBakingSettings) (lightReceivers obstacles lights : list NodePtr) :
  numParallelChunks_ settings ≠ 0 →
  ((∃ impl,
      Initialize NDEBUG DOT_SCALE garbage heap cache settings lightReceivers obstacles lights
      = Done (false, impl))
   ↔ (lightmapSize_ settings mod numParallelChunks_ settings ≠ 0 ∨
      lightmapSize_ settings mod RayPacketSize ≠ 0)) ∧
  ∀ impl,
    Initialize NDEBUG DOT_SCALE garbage heap cache settings lightReceivers obstacles lights
    = Done (false, impl) →
    impl = LightmapBakerImpl_new garbage settings lightReceivers obstacles lights ∧
    lightmaps_ impl = [] ∧
    length (lightReceivers_ impl) = length lightReceivers ∧
    Forall (λ r, staticModel_ r = None ∧ region_ r = garbage) (lightReceivers_ impl).
Proof.
  intros HN.
  assert (∀ impl,
            Initialize NDEBUG DOT_SCALE garbage heap cache settings lightReceivers
              obstacles lights = Done (false, impl) →
            (lightmapSize_ settings mod numParallelChunks_ settings ≠ 0 ∨
             lightmapSize_ settings mod RayPacketSize ≠ 0) ∧
            impl = LightmapBakerImpl_new garbage settings lightReceivers obstacles lights)
    as Hrefused.
  { intros impl Hinit. unfold Initialize in Hinit.
    rewrite Validate_divisible in Hinit by done. cbn in Hinit.
    destruct (decide (lightmapSize_ settings mod numParallelChunks_ settings = 0 ∧
                      lightmapSize_ settings mod RayPacketSize = 0)) as [Hdiv|Hdiv].
    - rewrite bool_decide_eq_true_2 in Hinit by done. cbn in Hinit.
      destruct (AllocateLightmapRegions _ _ _ _ _ _) as [[receivers lightmaps]|];
        cbn in Hinit; [|done].
      destruct (CalculateReceiversBoundingBox _ _); cbn in Hinit; [|done].
      destruct (InitializeLightmapBakingScenes _ _ _ _); cbn in Hinit; done.
    - rewrite bool_decide_eq_false_2 in Hinit by done. cbn in Hinit.
      injection Hinit as <-. split; [|done]. by apply not_and_l in Hdiv. }
  split; [split|].
  - intros [impl Hinit]. by apply Hrefused in Hinit as [? _].
  - intros Hdiv.
    destruct (Initialize_indivisible NDEBUG DOT_SCALE garbage heap cache settings
                lightReceivers obstacles lights HN Hdiv) as (impl & Hinit & _).
    by exists impl.
  - intros impl [_ ->]%Hrefused. split; [done|]. split; [done|].
    cbn. rewrite length_fmap. split; [done|].
    apply Forall_fmap, Forall_true. done.
Qed.

Lemma Initialize_false_iff_witness :
  ((∃ impl,
      Initialize false Example.DOT_SCALE Example.garbage Example.heapA Example.cache
        (Example.settings 0 3) [0%nat] [] [1%nat] = Done (false, impl))
   ↔ (16 mod 3 ≠ 0 ∨ 16 mod RayPacketSize ≠ 0)) ∧
  ∀ impl,
    Initialize false Example.DOT_SCALE Example.garbage Example.heapA Example.cache
      (Example.settings 0 3) [0%nat] [] [1%nat] = Done (false, impl) →
    impl = LightmapBakerImpl_new Example.garbage (Example.settings 0 3) [0%nat] [] [1%nat] ∧
    lightmaps_ impl = [] ∧
    length (lightReceivers_ impl) = 1%nat ∧
    Forall (λ r, staticModel_ r = None ∧ region_ r = Example.garbage) (lightReceivers_ impl).
Proof.
  apply (Initialize_false_iff false Example.DOT_SCALE Example.garbage Example.heapA
           Example.cache (Example.settings 0 3) [0%nat] [] [1%nat]).
  cbn. lia.
Defined.

(** ** G-buffer render stage *)

(** A render that returns true was given an index below the number of
    lightmaps and a back end that began its frame; it has made that index
    current, has replaced the four texel buffers by the readbacks of the
    lightmap rendered, and has changed nothing else. *)
Theorem RenderLightmapGBuffer_captures (graphics : Graphics) (index : Z)
    (impl impl' : LightmapBakerImpl) :
  0 ≤ index →
  RenderLightmapGBuffer graphics index impl = Done (true, impl') →
  index < GetNumLightmaps impl ∧ BeginFrame graphics = true ∧
  ∃ lightmapDesc,
    lightmaps_ impl !! Z.to_nat index = Some lightmapDesc ∧
    let view := RenderView graphics lightmapDesc (impl_bakingRenderPath_ impl) in
    currentLightmapIndex_ impl' = index ∧
    positionBuffer_ impl' = gb_position view ∧
    smoothPositionBuffer_ impl' = gb_smoothposition view ∧
    faceNormalBuffer_ impl' = gb_facenormal view ∧
    smoothNormalBuffer_ impl' = gb_smoothnormal view ∧
    lightmaps_ impl' = lightmaps_ impl ∧
    lightReceivers_ impl' = lightReceivers_ impl ∧
    settings_ impl' = settings_ impl ∧
    lights_ impl' = lights_ impl ∧
    embreeScene_ impl' = embreeScene_ impl ∧
    maxRayLength_ impl' = maxRayLength_ impl.
Proof.
  intros Hindex. unfold RenderLightmapGBuffer.
  destruct (decide (index >= GetNumLightmaps impl)) as [|Hin]; [done|].
  unfold at_. rewrite decide_True by done.
  destruct (lightmaps_ impl !! Z.to_nat index) as [lightmapDesc|] eqn:Hdesc; [|done].
  cbn. destruct (BeginFrame graphics); [|done]. cbn.
  intros [= <-]. split; [lia|]. split; [done|].
  exists lightmapDesc. done.
Qed.

Lemma RenderLightmapGBuffer_captures_witness :
  currentLightmapIndex_ (Example.implA Example.walled) = 0 ∧
  positionBuffer_ (Example.implA Example.walled) = Example.positionA.
Proof.
  destruct (RenderLightmapGBuffer_captures (Example.graphics Example.positionA) 0
              (CookRaytracingScene Example.walled Example.initializedA)
              (Example.implA Example.walled))
    as (_ & _ & lightmapDesc & _ & Hcurrent & Hposition & _).
  - lia.
  - vm_compute. reflexivity.
  - split; [exact Hcurrent|exact Hposition].
Defined.

(** A successful render makes the lookup at the head of BakeLightmap
    succeed, and so does any later render that fails. *)
Theorem RenderLightmapGBuffer_keeps_current (graphics : Graphics) (index : Z)
    (result : bool) (impl impl' : LightmapBakerImpl) :
  0 ≤ index →
  is_Done (at_ (lightmaps_ impl) (currentLightmapIndex_ impl)) →
  RenderLightmapGBuffer graphics index impl = Done (result, impl') →
  is_Done (at_ (lightmaps_ impl') (currentLightmapIndex_ impl')).
Proof.
  intros Hindex Hcurrent Hrender. destruct result.
  - by destruct (RenderLightmapGBuffer_success graphics index impl impl') as (_ & _ & ?).
  - unfold RenderLightmapGBuffer in Hrender.
    destruct (decide (index >= GetNumLightmaps impl)); [by injection Hrender as <-|].
    destruct (at_ (lightmaps_ impl) index); cbn in Hrender; [|done].
    destruct (BeginFrame graphics); cbn in Hrender; [done|]. by injection Hrender as <-.
Qed.

Lemma RenderLightmapGBuffer_keeps_current_witness :
  is_Done (at_ (lightmaps_ (Example.implA Example.walled))
               (currentLightmapIndex_ (Example.implA Example.walled))).
Proof.
  apply (RenderLightmapGBuffer_keeps_current Example.lostDevice 5 false
           (Example.implA Example.walled) (Example.implA Example.walled)).
  - lia.
  - eexists. vm_compute. reflexivity.
  - vm_compute. reflexivity.
Defined.

(** ** Ray caster: which rows are processed *)

Lemma chunkRows_band_unique (lightmapHeight chunks y k k' : Z) :
  0 ≤ lightmapHeight < 2 ^ 31 → 0 < chunks < 2 ^ 32 →
  0 ≤ k < chunks → 0 ≤ k' < chunks →
  y ∈ chunkRows lightmapHeight (lightmapHeight / chunks) k →
  y ∈ chunkRows lightmapHeight (lightmapHeight / chunks) k' → k' = k.
Proof.
  intros HH HN Hk Hk' Hin Hin'.
  apply elem_of_chunkRows in Hin; [|done..].
  apply elem_of_chunkRows in Hin'; [|done..]. nia.
Qed.

(** The bands of BakeLightmap process the rows below
    [chunks * (lightmapHeight / chunks)], each in exactly one band, and no
    other row. *)
Theorem chunkRows_exactly_one (lightmapHeight chunks y : Z) :
  0 ≤ lightmapHeight < 2 ^ 31 → 0 < chunks < 2 ^ 32 →
  (0 ≤ y < chunks * (lightmapHeight / chunks) →
   ∃ k, 0 ≤ k < chunks ∧
        y ∈ chunkRows lightmapHeight (lightmapHeight / chunks) k ∧
        ∀ k', 0 ≤ k' < chunks →
              y ∈ chunkRows lightmapHeight (lightmapHeight / chunks) k' → k' = k) ∧
  (¬ 0 ≤ y < chunks * (lightmapHeight / chunks) →
   ∀ k, 0 ≤ k < chunks → y ∉ chunkRows lightmapHeight (lightmapHeight / chunks) k).
Proof.
  intros HH HN. split.
  - intros Hy.
    destruct (proj2 (chunkRows_cover lightmapHeight chunks y HH HN) Hy) as (k & Hk & Hin).
    exists k. split; [done|]. split; [done|].
    intros k' Hk' Hin'. by eapply chunkRows_band_unique.
  - intros Hy k Hk Hin. apply Hy.
    apply (chunkRows_cover lightmapHeight chunks y HH HN). eauto.
Qed.

Lemma chunkRows_exactly_one_witness :
  (∃ k, 0 ≤ k < 2 ∧ 3 ∈ chunkRows 5 (5 / 2) k ∧
        ∀ k', 0 ≤ k' < 2 → 3 ∈ chunkRows 5 (5 / 2) k' → k' = k) ∧
  (∀ k, 0 ≤ k < 2 → 4 ∉ chunkRows 5 (5 / 2) k).
Proof.
  destruct (chunkRows_exactly_one 5 2 3) as [Hin _]; [lia|lia|].
  destruct (chunkRows_exactly_one 5 2 4) as [_ Hout]; [lia|lia|].
  split; [apply Hin|apply Hout]; change (5 / 2) with 2; lia.
Defined.

(** When the chunk count divides the atlas height, as Validate ensures for
    atlases of the configured size, every row of the atlas is processed by
    exactly one band. *)
Theorem chunkRows_partition (lightmapHeight chunks y : Z) :
  0 ≤ lightmapHeight < 2 ^ 31 → 0 < chunks < 2 ^ 32 →
  lightmapHeight mod chunks = 0 →
  0 ≤ y < lightmapHeight →
  ∃ k, 0 ≤ k < chunks ∧
       y ∈ chunkRows lightmapHeight (lightmapHeight / chunks) k ∧
       ∀ k', 0 ≤ k' < chunks →
             y ∈ chunkRows lightmapHeight (lightmapHeight / chunks) k' → k' = k.
Proof.
  intros HH HN Hdiv Hy.
  destruct (proj2 (chunkRows_cover lightmapHeight chunks y HH HN)) as (k & Hk & Hin).
  { pose proof (Z.div_mod lightmapHeight chunks). lia. }
  exists k. split; [done|]. split; [done|].
  intros k' Hk' Hin'. by eapply chunkRows_band_unique.
Qed.

Lemma chunkRows_partition_witness :
  ∃ k, 0 ≤ k < 4 ∧ 9 ∈ chunkRows 16 (16 / 4) k ∧
       ∀ k', 0 ≤ k' < 4 → 9 ∈ chunkRows 16 (16 / 4) k' → k' = k.
Proof.
  apply (chunkRows_partition 16 4 9); [lia|lia|reflexivity|lia].
Defined.

(** ** Rect packer *)

Lemma AreaAllocator_Allocate_size (a a' : AreaAllocator) (width height : Z)
    (position : IntVector2) :
  AreaAllocator_Allocate a width height = Some (position, a') → size_ a' = size_ a.
Proof.
  unfold AreaAllocator_Allocate.
  destruct (find _ _) as [[x y]|]; [|done]. by intros [= _ <-].
Qed.

Lemma AreaAllocator_Allocate_fresh (canvasWidth canvasHeight width height : Z) :
  0 ≤ width ≤ canvasWidth → 0 ≤ height ≤ canvasHeight →
  AreaAllocator_Allocate (AreaAllocator_Reset canvasWidth canvasHeight) width height
  = Some (IntVector2_ZERO,
          mkAreaAllocator (mkIntVector2 canvasWidth canvasHeight)
                          [mkIntRect 0 0 width height]).
Proof.
  intros Hw Hh. unfold AreaAllocator_Allocate, positions, GetWidth, GetHeight. cbn.
  rewrite !Z.max_r by lia.
  rewrite (seqZ_cons 0 (canvasHeight - height + 1)) by lia. cbn.
  rewrite (seqZ_cons 0 (canvasWidth - width + 1)) by lia. cbn. done.
Qed.

Lemma AreaAllocator_Allocate_too_large (a : AreaAllocator) (width height : Z) :
  GetWidth a < width ∨ GetHeight a < height →
  AreaAllocator_Allocate a width height = None.
Proof.
  intros Hlarge. unfold AreaAllocator_Allocate.
  replace (positions a (Z.max 0 width) (Z.max 0 height)) with (@nil (Z * Z)); [done|].
  unfold positions. symmetry.
  destruct (decide (GetHeight a < height)).
  - by rewrite (seqZ_nil 0 (GetHeight a - Z.max 0 height + 1)) by lia.
  - rewrite (seqZ_nil 0 (GetWidth a - Z.max 0 width + 1)) by lia.
    by induction (seqZ 0 (GetHeight a - Z.max 0 height + 1)).
Qed.

(** ** Region allocator: the three branches *)

Lemma tryExistingMaps_reject (settings : LightmapBakingSettings) (padding : Z)
    (paddedSize size : IntVector2) (lightmaps : list LightmapDesc) (start : Z) :
  Forall (λ d, AreaAllocator_Allocate (allocator_ d) (ix_ paddedSize) (iy_ paddedSize) = None)
         lightmaps →
  0 ≤ start → start + Z.of_nat (length lightmaps) < 2 ^ 32 →
  tryExistingMaps settings padding paddedSize size lightmaps start
  = inr (start + Z.of_nat (length lightmaps)).
Proof.
  intros Hreject. revert start.
  induction Hreject as [|d lightmaps Hd _ IH]; intros start Hstart Hbound.
  - cbn. f_equal. lia.
  - cbn [tryExistingMaps]. unfold Allocate. rewrite Hd.
    rewrite wrap_unsigned_small by (cbn [length] in Hbound; lia).
    rewrite IH by (cbn [length] in Hbound; lia).
    f_equal. cbn [length]. lia.
Qed.

(** The loop over the existing lightmaps, entered at any index. *)
Lemma tryExistingMaps_from (settings : LightmapBakingSettings) (padding : Z)
    (paddedSize size : IntVector2) (lightmaps lightmaps' : list LightmapDesc)
    (region : LightmapRegion) (start : Z) :
  0 ≤ start → start + Z.of_nat (length lightmaps) < 2 ^ 32 →
  tryExistingMaps settings padding paddedSize size lightmaps start
  = inl (region, lightmaps') →
  ∃ (k : nat) lightmapDesc paddedPosition a',
    lightmaps !! k = Some lightmapDesc ∧
    (∀ j d, (j < k)%nat → lightmaps !! j = Some d →
            AreaAllocator_Allocate (allocator_ d) (ix_ paddedSize) (iy_ paddedSize) = None) ∧
    AreaAllocator_Allocate (allocator_ lightmapDesc) (ix_ paddedSize) (iy_ paddedSize)
    = Some (paddedPosition, a') ∧
    lightmaps' = <[k := with_allocator lightmapDesc a']> lightmaps ∧
    region = LightmapRegion_new (start + Z.of_nat k)
               (IntVector2_add paddedPosition (IntVector2_splat padding)) size
               (lightmapSize_ settings).
Proof.
  revert lightmaps' start.
  induction lightmaps as [|d lightmaps IH]; intros lightmaps' start Hstart Hbound; [done|].
  cbn [tryExistingMaps]. unfold Allocate.
  destruct (AreaAllocator_Allocate (allocator_ d) (ix_ paddedSize) (iy_ paddedSize))
    as [[paddedPosition a']|] eqn:Hd.
  - intros [= <- <-]. exists 0%nat, d, paddedPosition, a'.
    split; [done|]. split; [lia|]. split; [done|]. split; [done|].
    by replace (start + Z.of_nat 0) with start by lia.
  - cbn [length] in Hbound. rewrite wrap_unsigned_small by lia.
    destruct (tryExistingMaps settings padding paddedSize size lightmaps (start + 1))
      as [[region0 rest']|] eqn:Hrest; [|done].
    intros [= <- <-].
    destruct (IH rest' (start + 1)) as (k & desc & position & a' & Hk & Hbefore & Hacc & -> & ->);
      [lia|lia|done|].
    exists (S k), desc, position, a'. split; [done|]. split.
    { intros [|j] d' Hj Hd'; cbn in Hd'; [by injection Hd' as <-|].
      apply (Hbefore j); [lia|done]. }
    split; [done|]. split; [done|].
    by replace (start + Z.of_nat (S k)) with (start + 1 + Z.of_nat k) by lia.
Qed.

(** Try existing maps is first fit: when it finds a place, the lightmap
    used is the first, in creation order, whose allocator accepts the padded
    size; every lightmap before it has refused, and no other lightmap is
    changed. *)
Theorem tryExistingMaps_first_fit (settings : LightmapBakingSettings) (padding : Z)
    (paddedSize size : IntVector2) (lightmaps lightmaps' : list LightmapDesc)
    (region : LightmapRegion) :
  Z.of_nat (length lightmaps) < 2 ^ 32 →
  tryExistingMaps settings padding paddedSize size lightmaps 0 = inl (region, lightmaps') →
  ∃ (k : nat) lightmapDesc paddedPosition a',
    lightmaps !! k = Some lightmapDesc ∧
    (∀ j d, (j < k)%nat → lightmaps !! j = Some d →
            AreaAllocator_Allocate (allocator_ d) (ix_ paddedSize) (iy_ paddedSize) = None) ∧
    AreaAllocator_Allocate (allocator_ lightmapDesc) (ix_ paddedSize) (iy_ paddedSize)
    = Some (paddedPosition, a') ∧
    lightmaps' = <[k := with_allocator lightmapDesc a']> lightmaps ∧
    region = LightmapRegion_new (Z.of_nat k)
               (IntVector2_add paddedPosition (IntVector2_splat padding)) size
               (lightmapSize_ settings).
Proof.
  intros Hbound Hfound.
  apply (tryExistingMaps_from _ _ _ _ _ _ _ 0) in Hfound; [|lia..]. done.
Qed.

Lemma tryExistingMaps_first_fit_witness :
  ∃ (k : nat) lightmapDesc paddedPosition a',
    [with_allocator LightmapDesc_default (AreaAllocator_Reset 4 4);
     with_allocator LightmapDesc_default (AreaAllocator_Reset 16 16)] !! k
    = Some lightmapDesc ∧
    AreaAllocator_Allocate (allocator_ lightmapDesc) 10 10 = Some (paddedPosition, a') ∧
    k = 1%nat.
Proof.
  destruct (tryExistingMaps_first_fit (Example.settings 1 1) 1 (mkIntVector2 10 10)
              (mkIntVector2 8 8)
              [with_allocator LightmapDesc_default (AreaAllocator_Reset 4 4);
               with_allocator LightmapDesc_default (AreaAllocator_Reset 16 16)]
              [with_allocator LightmapDesc_default (AreaAllocator_Reset 4 4);
               with_allocator LightmapDesc_default
                 (mkAreaAllocator (mkIntVector2 16 16) [mkIntRect 0 0 10 10])]
              (LightmapRegion_new 1 (mkIntVector2 1 1) (mkIntVector2 8 8) 16))
    as (k & desc & position & a' & Hk & Hbefore & Haccept & _ & _).
  - cbn. lia.
  - vm_compute. reflexivity.
  - exists k, desc, position, a'. split; [exact Hk|]. split; [exact Haccept|].
    destruct k as [|[|k]].
    + cbn in Hk. injection Hk as <-. vm_compute in Haccept. discriminate.
    + reflexivity.
    + cbn in Hk. discriminate.
Defined.

Lemma wrap_int_splat (k : Z) :
  - 2 ^ 31 ≤ k < 2 ^ 31 → IntVector2_splat k = mkIntVector2 k k.
Proof. intros. unfold IntVector2_splat. by rewrite Z.mul_1_r, wrap_int_small. Qed.

(** A request that no existing lightmap accepts and that exceeds the atlas
    size, unpadded, in some dimension gets a lightmap of its own: as wide as
    the request rounded up to the packet width, as high as the request, with
    the whole canvas reserved; the region has the index of the new lightmap
    and the rectangle from the origin to the requested size, without
    padding. *)
Theorem AllocateLightmapRegion_dedicated (NDEBUG : bool)
    (settings : LightmapBakingSettings) (lightmaps : list LightmapDesc)
    (size : IntVector2) :
  let padding := lightmapPadding_ settings in
  let sizeX := RayPacketSize * ((ix_ size + RayPacketSize - 1) / RayPacketSize) in
  0 ≤ lightmapSize_ settings < 2 ^ 31 → 0 ≤ padding < 2 ^ 29 →
  0 ≤ ix_ size < 2 ^ 30 → 0 ≤ iy_ size < 2 ^ 30 →
  Z.of_nat (length lightmaps) < 2 ^ 32 →
  Forall (λ d, AreaAllocator_Allocate (allocator_ d)
                 (ix_ size + 2 * padding) (iy_ size + 2 * padding) = None) lightmaps →
  lightmapSize_ settings < ix_ size ∨ lightmapSize_ settings < iy_ size →
  AllocateLightmapRegion NDEBUG settings lightmaps size
  = Done (LightmapRegion_new (Z.of_nat (length lightmaps)) IntVector2_ZERO size
            (lightmapSize_ settings),
          lightmaps ++
          [with_allocator LightmapDesc_default
             (mkAreaAllocator (mkIntVector2 sizeX (iy_ size))
                [mkIntRect 0 0 sizeX (iy_ size)])]) ∧
  lightmapTexelRect_
    (LightmapRegion_new (Z.of_nat (length lightmaps)) IntVector2_ZERO size
       (lightmapSize_ settings))
  = mkIntRect 0 0 (ix_ size) (iy_ size) ∧
  ix_ size ≤ sizeX < ix_ size + RayPacketSize.
Proof.
  intros padding sizeX HL Hpad Hx Hy Hlen Hreject Hlarge.
  assert (ix_ size ≤ sizeX < ix_ size + RayPacketSize) as HsizeX.
  { unfold sizeX, RayPacketSize.
    pose proof (Z.div_mod (ix_ size + 16 - 1) 16).
    pose proof (Z.mod_pos_bound (ix_ size + 16 - 1) 16). lia. }
  split; [|split; [|done]].
  - unfold AllocateLightmapRegion. fold padding.
    rewrite (wrap_int_small padding) by lia.
    rewrite (wrap_int_small (2 * padding)) by lia.
    rewrite wrap_int_splat by lia.
    unfold IntVector2_add. cbn [ix_ iy_].
    rewrite (wrap_int_small (ix_ size + 2 * padding)),
      (wrap_int_small (iy_ size + 2 * padding)) by lia.
    rewrite tryExistingMaps_reject by (done || lia).
    rewrite (wrap_int_small (lightmapSize_ settings)) by lia.
    replace ((ix_ size >? lightmapSize_ settings) || (iy_ size >? lightmapSize_ settings))
      with true by (symmetry; apply orb_true_iff; lia).
    rewrite (wrap_unsigned_small (ix_ size)) by lia.
    unfold RayPacketSize in *.
    rewrite (wrap_unsigned_small (ix_ size + 16)) by lia.
    rewrite (wrap_unsigned_small (ix_ size + 16 - 1)) by lia.
    replace ((ix_ size + 16 - 1) / 16 * 16) with sizeX by (unfold sizeX; lia).
    rewrite (wrap_unsigned_small sizeX) by lia.
    rewrite (wrap_int_small sizeX) by lia.
    unfold Allocate. rewrite AreaAllocator_Allocate_fresh by lia.
    unfold assert. rewrite bool_decide_eq_true_2 by done.
    rewrite !orb_true_r. cbn. done.
  - unfold LightmapRegion_new, IntVector2_add. cbn.
    rewrite !wrap_int_small by lia. done.
Qed.

Lemma AllocateLightmapRegion_dedicated_witness :
  AllocateLightmapRegion false (Example.settings 1 1) [] (mkIntVector2 33 5)
  = Done (LightmapRegion_new 0 IntVector2_ZERO (mkIntVector2 33 5) 16,
          [with_allocator LightmapDesc_default
             (mkAreaAllocator (mkIntVector2 48 5) [mkIntRect 0 0 48 5])]).
Proof.
  apply (AllocateLightmapRegion_dedicated false (Example.settings 1 1) []
           (mkIntVector2 33 5)); cbn; try lia.
  - constructor.
Defined.

(** A request that no existing lightmap accepts and whose padded size fits
    the atlas size opens a lightmap of the configured size; the padded
    request is reserved at its origin, and the region is the request moved
    in by the padding. *)
Theorem AllocateLightmapRegion_shared (NDEBUG : bool)
    (settings : LightmapBakingSettings) (lightmaps : list LightmapDesc)
    (size : IntVector2) :
  let padding := lightmapPadding_ settings in
  let lightmapSize := lightmapSize_ settings in
  0 ≤ padding → 0 ≤ ix_ size → 0 ≤ iy_ size →
  ix_ size + 2 * padding ≤ lightmapSize → iy_ size + 2 * padding ≤ lightmapSize →
  lightmapSize < 2 ^ 31 →
  Z.of_nat (length lightmaps) < 2 ^ 32 →
  Forall (λ d, AreaAllocator_Allocate (allocator_ d)
                 (ix_ size + 2 * padding) (iy_ size + 2 * padding) = None) lightmaps →
  ∃ region,
    AllocateLightmapRegion NDEBUG settings lightmaps size
    = Done (region,
            lightmaps ++
            [with_allocator LightmapDesc_default
               (mkAreaAllocator (mkIntVector2 lightmapSize lightmapSize)
                  [mkIntRect 0 0 (ix_ size + 2 * padding) (iy_ size + 2 * padding)])]) ∧
    lightmapIndex_ region = Z.of_nat (length lightmaps) ∧
    lightmapTexelRect_ region
    = mkIntRect padding padding (padding + ix_ size) (padding + iy_ size).
Proof.
  intros padding lightmapSize Hpad Hx Hy Hfitx Hfity HL Hlen Hreject.
  eexists. unfold AllocateLightmapRegion. fold padding lightmapSize.
  rewrite (wrap_int_small padding) by lia.
  rewrite (wrap_int_small (2 * padding)) by lia.
  rewrite !wrap_int_splat by lia.
  unfold IntVector2_add. cbn [ix_ iy_].
  rewrite (wrap_int_small (ix_ size + 2 * padding)),
    (wrap_int_small (iy_ size + 2 * padding)) by lia.
  rewrite tryExistingMaps_reject by (done || lia).
  rewrite (wrap_int_small lightmapSize) by lia.
  replace ((ix_ size >? lightmapSize) || (iy_ size >? lightmapSize))
    with false by (symmetry; apply orb_false_iff; lia).
  unfold Allocate. rewrite AreaAllocator_Allocate_fresh by lia.
  unfold assert. rewrite bool_decide_eq_true_2 by done.
  rewrite !orb_true_r. cbn.
  split; [reflexivity|]. split; [cbn; lia|].
  unfold LightmapRegion_new, IntVector2_add. cbn.
  rewrite !wrap_int_small by lia. done.
Qed.

Lemma AllocateLightmapRegion_shared_witness :
  ∃ region,
    AllocateLightmapRegion false (Example.settings 1 1) [] (mkIntVector2 8 4)
    = Done (region,
            [with_allocator LightmapDesc_default
               (mkAreaAllocator (mkIntVector2 16 16) [mkIntRect 0 0 10 6])]) ∧
    lightmapIndex_ region = 0 ∧
    lightmapTexelRect_ region = mkIntRect 1 1 9 5.
Proof.
  apply (AllocateLightmapRegion_shared false (Example.settings 1 1) []
           (mkIntVector2 8 4)); cbn; try lia.
  - constructor.
Defined.

(** A request that fits the atlas size unpadded and exceeds it padded is
    sent to a new lightmap of the configured size, which cannot hold it:
    the assertion on the allocation fails. *)
Theorem AllocateLightmapRegion_padding_overflow (settings : LightmapBakingSettings)
    (lightmaps : list LightmapDesc) (size : IntVector2) :
  let padding := lightmapPadding_ settings in
  let lightmapSize := lightmapSize_ settings in
  0 ≤ padding < 2 ^ 29 → 0 ≤ ix_ size ≤ lightmapSize → 0 ≤ iy_ size ≤ lightmapSize →
  lightmapSize < 2 ^ 30 →
  lightmapSize < ix_ size + 2 * padding ∨ lightmapSize < iy_ size + 2 * padding →
  Z.of_nat (length lightmaps) < 2 ^ 32 →
  Forall (λ d, AreaAllocator_Allocate (allocator_ d)
                 (ix_ size + 2 * padding) (iy_ size + 2 * padding) = None) lightmaps →
  AllocateLightmapRegion false settings lightmaps size = Fault AssertionFailed.
Proof.
  intros padding lightmapSize Hpad Hx Hy HL Hover Hlen Hreject.
  unfold AllocateLightmapRegion. fold padding lightmapSize.
  rewrite (wrap_int_small padding) by lia.
  rewrite (wrap_int_small (2 * padding)) by lia.
  rewrite !wrap_int_splat by lia.
  unfold IntVector2_add. cbn [ix_ iy_].
  rewrite (wrap_int_small (ix_ size + 2 * padding)),
    (wrap_int_small (iy_ size + 2 * padding)) by lia.
  rewrite tryExistingMaps_reject by (done || lia).
  rewrite (wrap_int_small lightmapSize) by lia.
  replace ((ix_ size >? lightmapSize) || (iy_ size >? lightmapSize))
    with false by (symmetry; apply orb_false_iff; lia).
  unfold Allocate. rewrite AreaAllocator_Allocate_too_large by (cbn; lia).
  done.
Qed.

Lemma AllocateLightmapRegion_padding_overflow_witness :
  AllocateLightmapRegion false (Example.settings 2 1) [] (mkIntVector2 13 4)
  = Fault AssertionFailed.
Proof.
  apply (AllocateLightmapRegion_padding_overflow (Example.settings 2 1) []
           (mkIntVector2 13 4)); cbn; try lia.
  - constructor.
Defined.

(** ** Region allocator: invariants *)

Lemma tryExistingMaps_inr (settings : LightmapBakingSettings) (padding : Z)
    (paddedSize size : IntVector2) (lightmaps : list LightmapDesc) (start index : Z) :
  0 ≤ start → start + Z.of_nat (length lightmaps) < 2 ^ 32 →
  tryExistingMaps settings padding paddedSize size lightmaps start = inr index →
  index = start + Z.of_nat (length lightmaps).
Proof.
  revert start. induction lightmaps as [|d lightmaps IH]; intros start Hstart Hbound.
  - cbn. intros [= <-]. lia.
  - cbn [tryExistingMaps length] in *.
    destruct (Allocate _ _ _ _) as [[[] ?] ?]; [done|].
    rewrite wrap_unsigned_small by lia.
    destruct (tryExistingMaps _ _ _ _ _ _) as [[]|index'] eqn:Hrest; [done|].
    intros [= <-]. apply IH in Hrest; lia.
Qed.

Lemma Allocate_canvas (a a' : AreaAllocator) (width height : Z)
    (position position' : IntVector2) (success : bool) :
  Allocate a width height position = (success, position', a') → size_ a' = size_ a.
Proof.
  unfold Allocate.
  destruct (AreaAllocator_Allocate a width height) as [[p a0]|] eqn:Hallocate.
  - intros [= _ _ <-]. by eapply AreaAllocator_Allocate_size.
  - by intros [= _ _ <-].
Qed.

Lemma wrap_unsigned_packets (z : Z) :
  z mod RayPacketSize = 0 → wrap_unsigned z mod RayPacketSize = 0.
Proof.
  unfold wrap_unsigned, RayPacketSize. intros Hz.
  apply Z.mod_divide in Hz; [|lia]. apply Z.mod_divide; [lia|].
  rewrite Z.mod_eq by lia. apply Z.divide_sub_r; [done|].
  apply Z.divide_mul_l. by exists (2 ^ 28).
Qed.

Lemma wrap_int_packets (z : Z) :
  z mod RayPacketSize = 0 → wrap_int z mod RayPacketSize = 0.
Proof.
  unfold wrap_int, RayPacketSize. intros Hz.
  apply Z.mod_divide in Hz; [|lia]. apply Z.mod_divide; [lia|].
  assert ((16 | 2 ^ 31)) by (by exists (2 ^ 27)).
  apply Z.divide_sub_r; [|done].
  rewrite Z.mod_eq by lia. apply Z.divide_sub_r; [by apply Z.divide_add_r|].
  apply Z.divide_mul_l. by exists (2 ^ 28).
Qed.

(** The two ways in which AllocateLightmapRegion returns: with a place in
    an existing lightmap, or with a new lightmap at the end. *)
Lemma AllocateLightmapRegion_cases (NDEBUG : bool) (settings : LightmapBakingSettings)
    (lightmaps lightmaps' : list LightmapDesc) (size : IntVector2)
    (region : LightmapRegion) :
  Z.of_nat (length lightmaps) < 2 ^ 32 →
  AllocateLightmapRegion NDEBUG settings lightmaps size = Done (region, lightmaps') →
  (∃ (k : nat) lightmapDesc a',
     lightmaps !! k = Some lightmapDesc ∧
     size_ a' = size_ (allocator_ lightmapDesc) ∧
     lightmaps' = <[k := with_allocator lightmapDesc a']> lightmaps ∧
     lightmapIndex_ region = Z.of_nat k) ∨
  (∃ a,
     lightmaps' = lightmaps ++ [with_allocator LightmapDesc_default a] ∧
     lightmapIndex_ region = Z.of_nat (length lightmaps) ∧
     (GetWidth a = wrap_int (lightmapSize_ settings) ∨
      ∃ z, GetWidth a = wrap_int (wrap_unsigned (z * RayPacketSize)))).
Proof.
  intros Hlen. unfold AllocateLightmapRegion.
  destruct (tryExistingMaps _ _ _ _ _ _) as [[region0 lightmaps0]|index] eqn:Htry.
  - intros [= <- <-]. left.
    apply tryExistingMaps_from in Htry
      as (k & desc & position & a' & Hk & _ & Haccept & -> & ->); [|lia..].
    exists k, desc, a'. split; [done|]. split; [|done].
    by eapply AreaAllocator_Allocate_size.
  - apply tryExistingMaps_inr in Htry; [|lia..]. subst index.
    right. destruct (_ || _).
    + destruct (Allocate _ _ _ _) as [[success position] a'] eqn:Hallocate.
      apply Allocate_canvas in Hallocate.
      destruct (assert NDEBUG success); [|done]. cbn in H.
      destruct (assert NDEBUG _); [|done]. cbn in H. injection H as <- <-.
      exists a'. split; [done|]. split; [cbn; lia|]. right.
      unfold GetWidth. rewrite Hallocate. cbn. eauto.
    + destruct (Allocate _ _ _ _) as [[success position] a'] eqn:Hallocate.
      apply Allocate_canvas in Hallocate.
      destruct (assert NDEBUG success); [|done]. cbn in H.
      destruct (assert NDEBUG _); [|done]. cbn in H. injection H as <- <-.
      exists a'. split; [done|]. split; [cbn; lia|]. left.
      unfold GetWidth. by rewrite Hallocate.
Qed.

(** AllocateLightmapRegion adds at most one lightmap, and the region names
    one of the lightmaps it leaves. *)
Lemma AllocateLightmapRegion_grows (NDEBUG : bool) (settings : LightmapBakingSettings)
    (lightmaps lightmaps' : list LightmapDesc) (size : IntVector2)
    (region : LightmapRegion) :
  Z.of_nat (length lightmaps) < 2 ^ 32 →
  AllocateLightmapRegion NDEBUG settings lightmaps size = Done (region, lightmaps') →
  0 ≤ lightmapIndex_ region < Z.of_nat (length lightmaps') ∧
  (length lightmaps ≤ length lightmaps' ≤ S (length lightmaps))%nat.
Proof.
  intros Hlen Hdone.
  destruct (AllocateLightmapRegion_cases NDEBUG settings lightmaps lightmaps' size region
              Hlen Hdone)
    as [(k & desc & a' & Hk & Hcanvas & -> & ->)|(a & -> & -> & _)].
  - rewrite length_insert. apply lookup_lt_Some in Hk as Hlt. lia.
  - rewrite length_app. cbn. lia.
Qed.

(** The region that AllocateLightmapRegion returns names a lightmap that
    exists afterwards; the call adds at most one lightmap, at the end, and
    leaves the canvas of every earlier lightmap as it was. *)
Theorem AllocateLightmapRegion_index (NDEBUG : bool) (settings : LightmapBakingSettings)
    (lightmaps lightmaps' : list LightmapDesc) (size : IntVector2)
    (region : LightmapRegion) :
  Z.of_nat (length lightmaps) < 2 ^ 32 →
  AllocateLightmapRegion NDEBUG settings lightmaps size = Done (region, lightmaps') →
  0 ≤ lightmapIndex_ region < Z.of_nat (length lightmaps') ∧
  (length lightmaps ≤ length lightmaps' ≤ S (length lightmaps))%nat ∧
  ∀ j d, lightmaps !! j = Some d →
         ∃ d', lightmaps' !! j = Some d' ∧ size_ (allocator_ d') = size_ (allocator_ d).
Proof.
  intros Hlen Hdone.
  destruct (AllocateLightmapRegion_cases NDEBUG settings lightmaps lightmaps' size region
              Hlen Hdone)
    as [(k & desc & a' & Hk & Hcanvas & -> & ->)|(a & -> & -> & _)].
  - rewrite length_insert. apply lookup_lt_Some in Hk as Hlt.
    split; [lia|]. split; [lia|].
    intros j d Hj. destruct (decide (k = j)) as [<-|Hne].
    + rewrite list_lookup_insert_eq by done. eexists. split; [done|].
      cbn. congruence.
    + rewrite list_lookup_insert_ne by done. eauto.
  - rewrite length_app. cbn. split; [lia|]. split; [lia|].
    intros j d Hj. exists d. split; [|done].
    by apply lookup_app_l_Some.
Qed.

Lemma AllocateLightmapRegion_index_witness :
  0 ≤ lightmapIndex_ (LightmapRegion_new 0 (mkIntVector2 1 1) (mkIntVector2 8 4) 16) < 1.
Proof.
  apply (AllocateLightmapRegion_index false (Example.settings 1 1) []
           [with_allocator LightmapDesc_default
              (mkAreaAllocator (mkIntVector2 16 16) [mkIntRect 0 0 10 6])]
           (mkIntVector2 8 4)
           (LightmapRegion_new 0 (mkIntVector2 1 1) (mkIntVector2 8 4) 16)).
  - cbn. lia.
  - vm_compute. reflexivity.
Defined.

(** When the configured atlas size is a multiple of the packet width, so is
    the width of every lightmap after AllocateLightmapRegion, if it was so
    before. *)
Theorem AllocateLightmapRegion_packet_width (NDEBUG : bool)
    (settings : LightmapBakingSettings) (lightmaps lightmaps' : list LightmapDesc)
    (size : IntVector2) (region : LightmapRegion) :
  Z.of_nat (length lightmaps) < 2 ^ 32 →
  lightmapSize_ settings mod RayPacketSize = 0 →
  Forall (λ d, GetWidth (allocator_ d) mod RayPacketSize = 0) lightmaps →
  AllocateLightmapRegion NDEBUG settings lightmaps size = Done (region, lightmaps') →
  Forall (λ d, GetWidth (allocator_ d) mod RayPacketSize = 0) lightmaps'.
Proof.
  intros Hlen Hsize Hall Hdone.
  destruct (AllocateLightmapRegion_cases NDEBUG settings lightmaps lightmaps' size region
              Hlen Hdone)
    as [(k & desc & a' & Hk & Hcanvas & -> & _)|(a & -> & _ & Hwidth)].
  - apply Forall_insert; [done|]. cbn. unfold GetWidth. rewrite Hcanvas.
    by eapply (Forall_lookup_1 _ _ _ _ Hall).
  - apply Forall_app. split; [done|]. apply Forall_singleton. cbn.
    destruct Hwidth as [->|[z ->]].
    + by apply wrap_int_packets.
    + apply wrap_int_packets, wrap_unsigned_packets, Z.mod_mul. done.
Qed.

Lemma AllocateLightmapRegion_packet_width_witness :
  Forall (λ d, GetWidth (allocator_ d) mod RayPacketSize = 0)
    [with_allocator LightmapDesc_default
       (mkAreaAllocator (mkIntVector2 48 5) [mkIntRect 0 0 48 5])].
Proof.
  apply (AllocateLightmapRegion_packet_width false (Example.settings 1 1) []
           [with_allocator LightmapDesc_default
              (mkAreaAllocator (mkIntVector2 48 5) [mkIntRect 0 0 48 5])]
           (mkIntVector2 33 5)
           (LightmapRegion_new 0 IntVector2_ZERO (mkIntVector2 33 5) 16)).
  - cbn. lia.
  - reflexivity.
  - constructor.
  - vm_compute. reflexivity.
Defined.

Lemma bind_Done_inv {A B} (m : outcome A) (k : A → outcome B) (b : B) :
  m ≫= k = Done b → ∃ a, m = Done a ∧ k a = Done b.
Proof. destruct m as [a|]; [|done]. intros. by exists a. Qed.

Lemma foldM_invariant {A S} (P : S → Prop) (body : S → A → outcome S)
    (l : list A) (s s' : S) :
  (∀ s a s', a ∈ l → P s → body s a = Done s' → P s') →
  P s → foldM body s l = Done s' → P s'.
Proof.
  revert s. induction l as [|a l IH]; intros s Hbody Hs.
  - cbn. by intros [= <-].
  - rewrite foldM_cons. intros (s1 & Hstep & Hrest)%bind_Done_inv.
    apply (IH s1); [|by eapply Hbody; [left|..]|done].
    intros ? ? ? ?. apply Hbody. by right.
Qed.

(** AllocateLightmapRegions, receiver by receiver. *)
Lemma AllocateLightmapRegions_spec (NDEBUG : bool) (DOT_SCALE : Vector3)
    (heap : NodeHeap) (settings : LightmapBakingSettings)
    (lightReceivers lightReceivers' : list LightReceiver)
    (lightmaps lightmaps' : list LightmapDesc) :
  Z.of_nat (length lightmaps) + Z.of_nat (length lightReceivers) < 2 ^ 32 →
  AllocateLightmapRegions NDEBUG DOT_SCALE heap settings lightReceivers lightmaps
  = Done (lightReceivers', lightmaps') →
  (length lightmaps ≤ length lightmaps' ≤ length lightmaps + length lightReceivers)%nat ∧
  Forall2 (λ before after,
             node_ after = node_ before ∧
             ∃ node, heap !! node_ before = Some node ∧
               match GetStaticModel node with
               | Some _ =>
                   staticModel_ after = Some (node_ before) ∧
                   0 ≤ lightmapIndex_ (region_ after) < Z.of_nat (length lightmaps')
               | None => after = before
               end)
          lightReceivers lightReceivers'.
Proof.
  revert lightReceivers' lightmaps lightmaps'.
  induction lightReceivers as [|receiver rest IH];
    intros lightReceivers' lightmaps lightmaps' Hbound.
  - cbn. intros [= <- <-]. split; [lia|constructor].
  - cbn [AllocateLightmapRegions length] in *.
    intros (node & Hnode & Hrun)%bind_Done_inv.
    unfold deref in Hnode.
    destruct (heap !! node_ receiver) as [node0|] eqn:Hheap; [|done].
    injection Hnode as ->.
    destruct (GetStaticModel node) as [staticModel|] eqn:Hmodel.
    + apply bind_Done_inv in Hrun as (model & _ & Hrun).
      apply bind_Done_inv in Hrun as (size & _ & Hrun).
      apply bind_Done_inv in Hrun as ([region lightmaps1] & Hregion & Hrun).
      apply bind_Done_inv in Hrun as ([rest' lightmaps2] & Hrest & Hrun).
      injection Hrun as <- <-.
      apply AllocateLightmapRegion_grows in Hregion as (Hindex & Hgrow); [|lia].
      apply IH in Hrest as [Hgrow' Hrest]; [|lia].
      split; [lia|]. constructor; [|done].
      split; [done|]. exists node. rewrite Hmodel. split; [done|].
      split; [done|]. cbn [region_]. lia.
    + apply bind_Done_inv in Hrun as ([rest' lightmaps2] & Hrest & Hrun).
      injection Hrun as <- <-.
      apply IH in Hrest as [Hgrow' Hrest]; [|lia].
      split; [lia|]. constructor; [|done].
      split; [done|]. exists node. by rewrite Hmodel.
Qed.

(** AllocateLightmapRegions keeps the receivers in their order and on their
    nodes. A receiver whose node has a static model gets that model and a
    region in a lightmap that exists when the function returns; a receiver
    whose node has none is left exactly as it was. Lightmaps are only
    added, at most one per receiver. *)
Theorem AllocateLightmapRegions_receivers (NDEBUG : bool) (DOT_SCALE : Vector3)
    (heap : NodeHeap) (settings : LightmapBakingSettings)
    (lightReceivers lightReceivers' : list LightReceiver)
    (lightmaps lightmaps' : list LightmapDesc) :
  Z.of_nat (length lightmaps) + Z.of_nat (length lightReceivers) < 2 ^ 32 →
  AllocateLightmapRegions NDEBUG DOT_SCALE heap settings lightReceivers lightmaps
  = Done (lightReceivers', lightmaps') →
  (length lightmaps ≤ length lightmaps' ≤ length lightmaps + length lightReceivers)%nat ∧
  Forall2 (λ before after,
             node_ after = node_ before ∧
             ∃ node, heap !! node_ before = Some node ∧
               match GetStaticModel node with
               | Some _ =>
                   staticModel_ after = Some (node_ before) ∧
                   0 ≤ lightmapIndex_ (region_ after) < Z.of_nat (length lightmaps')
               | None => after = before
               end)
          lightReceivers lightReceivers'.
Proof.
  intros Hbound Hdone.
  exact (AllocateLightmapRegions_spec NDEBUG DOT_SCALE heap settings lightReceivers
           lightReceivers' lightmaps lightmaps' Hbound Hdone).
Qed.

Lemma AllocateLightmapRegions_receivers_witness :
  Forall2 (λ before after, node_ after = node_ before)
    (lightReceivers_
       (LightmapBakerImpl_new Example.zeroed (Example.settings 1 1) [0%nat; 1%nat] [] []))
    (lightReceivers_ Example.implD).
Proof.
  destruct (AllocateLightmapRegions_receivers false Example.DOT_SCALE Example.heapD
              (Example.settings 1 1)
              (lightReceivers_
                 (LightmapBakerImpl_new Example.zeroed (Example.settings 1 1)
                    [0%nat; 1%nat] [] []))
              (lightReceivers_ Example.implD)
              [] [with_allocator LightmapDesc_default
                    (mkAreaAllocator (mkIntVector2 16 16) [mkIntRect 0 0 10 6])])
    as [_ Hall].
  - cbn. lia.
  - vm_compute. reflexivity.
  - eapply Forall2_impl; [exact Hall|]. cbn. intros ? ? [? _]. assumption.
Defined.

Lemma AllocateLightmapRegions_packet_width (NDEBUG : bool) (DOT_SCALE : Vector3)
    (heap : NodeHeap) (settings : LightmapBakingSettings)
    (lightReceivers lightReceivers' : list LightReceiver)
    (lightmaps lightmaps' : list LightmapDesc) :
  Z.of_nat (length lightmaps) + Z.of_nat (length lightReceivers) < 2 ^ 32 →
  lightmapSize_ settings mod RayPacketSize = 0 →
  Forall (λ d, GetWidth (allocator_ d) mod RayPacketSize = 0) lightmaps →
  AllocateLightmapRegions NDEBUG DOT_SCALE heap settings lightReceivers lightmaps
  = Done (lightReceivers', lightmaps') →
  Forall (λ d, GetWidth (allocator_ d) mod RayPacketSize = 0) lightmaps'.
Proof.
  intros Hbound Hsize. revert lightReceivers' lightmaps lightmaps' Hbound.
  induction lightReceivers as [|receiver rest IH];
    intros lightReceivers' lightmaps lightmaps' Hbound Hall.
  - cbn. by intros [= <- <-].
  - cbn [AllocateLightmapRegions length] in *.
    intros (node & _ & Hrun)%bind_Done_inv.
    destruct (GetStaticModel node) as [staticModel|].
    + apply bind_Done_inv in Hrun as (model & _ & Hrun).
      apply bind_Done_inv in Hrun as (size & _ & Hrun).
      apply bind_Done_inv in Hrun as ([region lightmaps1] & Hregion & Hrun).
      apply bind_Done_inv in Hrun as ([rest' lightmaps2] & Hrest & Hrun).
      injection Hrun as <- <-.
      pose proof Hregion as (_ & Hgrow)%AllocateLightmapRegion_grows; [|lia].
      apply AllocateLightmapRegion_cases in Hregion as Hcases; [|lia].
      apply (IH rest' lightmaps1); [lia| |done].
      destruct Hcases as [(k & desc & a' & Hk & Hcanvas & -> & _)|(a & -> & _ & Hwidth)].
      * apply Forall_insert; [done|]. cbn. unfold GetWidth. rewrite Hcanvas.
        by eapply (Forall_lookup_1 _ _ _ _ Hall).
      * apply Forall_app. split; [done|]. apply Forall_singleton. cbn.
        destruct Hwidth as [->|[z ->]].
        -- by apply wrap_int_packets.
        -- apply wrap_int_packets, wrap_unsigned_packets, Z.mod_mul. done.
    + apply bind_Done_inv in Hrun as ([rest' lightmaps2] & Hrest & Hrun).
      injection Hrun as <- <-. apply (IH rest' lightmaps); [lia|done..].
Qed.

(** ** Baking scenes *)

Lemma sameAtlases_refl (lightmaps : list LightmapDesc) : sameAtlases lightmaps lightmaps.
Proof. apply Forall2_same_length_lookup. split; [done|]. intros ? ? ? ? ?. by simplify_eq. Qed.

Lemma sameAtlases_trans (l1 l2 l3 : list LightmapDesc) :
  sameAtlases l1 l2 → sameAtlases l2 l3 → sameAtlases l1 l3.
Proof.
  apply Forall2_trans. intros d1 d2 d3 (?&?&?&?&?) (?&?&?&?&?).
  split_and!; try congruence. eauto.
Qed.

Lemma prepareBakingScene_same (heap : NodeHeap) (bakingMaterial : option Material)
    (lightmaps lightmaps' : list LightmapDesc) (receiver : LightReceiver) :
  prepareBakingScene heap bakingMaterial lightmaps receiver = Done lightmaps' →
  sameAtlases lightmaps lightmaps'.
Proof.
  unfold prepareBakingScene. intros (desc & Hdesc & Hrun)%bind_Done_inv.
  destruct (staticModel_ receiver); [|injection Hrun as <-; apply sameAtlases_refl].
  apply bind_Done_inv in Hrun as (material & _ & Hrun).
  apply bind_Done_inv in Hrun as (scene & _ & Hrun).
  apply bind_Done_inv in Hrun as (source & _ & Hrun).
  apply bind_Done_inv in Hrun as (staticModel & _ & Hrun).
  unfold store_at in Hrun. destruct (decide _) as [Hrange|]; [|done].
  injection Hrun as <-.
  unfold at_ in Hdesc. rewrite decide_True in Hdesc by lia.
  destruct (lightmaps !! Z.to_nat _) eqn:Hlookup; [|done]. injection Hdesc as ->.
  apply Forall2_same_length_lookup. split; [by rewrite length_insert|].
  intros i d d' Hd Hd'.
  destruct (decide (Z.to_nat (lightmapIndex_ (region_ receiver)) = i)) as [<-|Hne].
  - rewrite list_lookup_insert_eq in Hd' by (by eapply lookup_lt_Some).
    simplify_eq. cbn. split_and!; try done; by eexists.
  - rewrite list_lookup_insert_ne in Hd' by done. by simplify_eq.
Qed.

(** InitializeLightmapBakingScenes, lightmap by lightmap. *)
Lemma InitializeLightmapBakingScenes_lookup (heap : NodeHeap)
    (bakingMaterial : option Material) (lightmaps lightmaps' : list LightmapDesc)
    (lightReceivers : list LightReceiver) :
  InitializeLightmapBakingScenes heap bakingMaterial lightmaps lightReceivers
  = Done lightmaps' →
  length lightmaps' = length lightmaps ∧
  ∀ i d', lightmaps' !! i = Some d' →
    ∃ d, lightmaps !! i = Some d ∧
         allocator_ d' = allocator_ d ∧
         renderTexturePlaceholder_ d' = renderTexturePlaceholder_ d ∧
         renderSurfacePlaceholder_ d' = renderSurfacePlaceholder_ d ∧
         is_Some (bakingScene_ d') ∧ is_Some (bakingCamera_ d').
Proof.
  unfold InitializeLightmapBakingScenes.
  intros (boundingBox & _ & Hrun)%bind_Done_inv.
  set (prepared := (λ lightmapDesc, mkLightmapDesc _ _ _ _ _) <$> lightmaps) in Hrun.
  assert (sameAtlases prepared lightmaps') as Hsame.
  { revert Hrun. apply foldM_invariant; [|apply sameAtlases_refl].
    intros ls receiver ls' _ Hls Hstep.
    eapply sameAtlases_trans; [exact Hls|]. by eapply prepareBakingScene_same. }
  apply Forall2_same_length_lookup in Hsame as [Hlength Hsame].
  unfold prepared in Hlength. rewrite length_fmap in Hlength.
  split; [done|]. intros i d' Hd'.
  destruct (lookup_lt_is_Some_2 lightmaps i) as [d Hd].
  { rewrite Hlength. by eapply lookup_lt_Some. }
  exists d. split; [done|].
  destruct (Hsame i (mkLightmapDesc (allocator_ d) (Some (mkScene []))
                       (Some (InitializeCameraBoundingBox boundingBox))
                       (renderTexturePlaceholder_ d) (renderSurfacePlaceholder_ d)) d')
    as (Ha & Hc & Ht & Hs & Hscene); [|done|].
  { unfold prepared. by rewrite list_lookup_fmap, Hd. }
  cbn in *. split_and!; try done.
  apply Hscene. by eexists.
Qed.

(** When InitializeLightmapBakingScenes returns, there are as many lightmaps
    as before, each with the allocator and the render targets it had, and
    each with a baking scene and a camera. *)
Theorem InitializeLightmapBakingScenes_atlases (heap : NodeHeap)
    (bakingMaterial : option Material) (lightmaps lightmaps' : list LightmapDesc)
    (lightReceivers : list LightReceiver) :
  InitializeLightmapBakingScenes heap bakingMaterial lightmaps lightReceivers
  = Done lightmaps' →
  Forall2 (λ d d',
             allocator_ d' = allocator_ d ∧
             renderTexturePlaceholder_ d' = renderTexturePlaceholder_ d ∧
             renderSurfacePlaceholder_ d' = renderSurfacePlaceholder_ d ∧
             is_Some (bakingScene_ d') ∧ is_Some (bakingCamera_ d'))
          lightmaps lightmaps'.
Proof.
  intros [Hlength Hall]%InitializeLightmapBakingScenes_lookup.
  apply Forall2_same_length_lookup. split; [done|].
  intros i d d' Hd Hd'. destruct (Hall i d' Hd') as (d0 & Hd0 & Hsame).
  by simplify_eq.
Qed.

Lemma InitializeLightmapBakingScenes_atlases_witness :
  Forall2 (λ d d',
             allocator_ d' = allocator_ d ∧
             renderTexturePlaceholder_ d' = renderTexturePlaceholder_ d ∧
             renderSurfacePlaceholder_ d' = renderSurfacePlaceholder_ d ∧
             is_Some (bakingScene_ d') ∧ is_Some (bakingCamera_ d'))
    Example.atlasesD Example.scenesD.
Proof.
  apply (InitializeLightmapBakingScenes_atlases Example.heapD (Some (mkMaterial []))
           Example.atlasesD Example.scenesD (lightReceivers_ Example.implD)).
  vm_compute. reflexivity.
Defined.

Lemma foldM_Done {A S} (P : S → Prop) (body : S → A → outcome S) (l : list A) (s : S) :
  (∀ s a, a ∈ l → P s → ∃ s', body s a = Done s' ∧ P s') →
  P s → ∃ s', foldM body s l = Done s' ∧ P s'.
Proof.
  revert s. induction l as [|a l IH]; intros s Hbody Hs.
  - by exists s.
  - destruct (Hbody s a) as (s1 & Hstep & Hs1); [left|done|].
    destruct (IH s1) as (s' & Hrest & Hs'); [|done|].
    { intros ? ? ?. apply Hbody. by right. }
    exists s'. by rewrite foldM_cons, Hstep, bind_Done.
Qed.

Lemma CalculateReceiversBoundingBox_Done (heap : NodeHeap)
    (lightReceivers : list LightReceiver) :
  Forall (λ receiver, ∀ p, staticModel_ receiver = Some p → hasStaticModel heap p)
         lightReceivers →
  is_Done (CalculateReceiversBoundingBox heap lightReceivers).
Proof.
  intros Hlive. unfold CalculateReceiversBoundingBox.
  destruct (foldM_Done (λ _, True)
              (λ boundingBox lightReceiver,
                 match staticModel_ lightReceiver with
                 | Some p =>
                     staticModel ← derefStaticModel heap p;
                     Done (BoundingBox_Merge boundingBox (GetWorldBoundingBox staticModel))
                 | None => Done boundingBox
                 end)
              lightReceivers BoundingBox_default) as (box & Hbox & _); [|done|by exists box].
  intros box receiver Hin _.
  destruct (staticModel_ receiver) as [p|] eqn:Hp; [|by eexists].
  destruct (proj1 (Forall_forall _ _) Hlive receiver Hin p Hp) as (node & staticModel & Hnode & Hmodel).
  unfold derefStaticModel, deref. rewrite Hnode. cbn. rewrite Hmodel. cbn. by eexists.
Qed.

(** InitializeLightmapBakingScenes returns when the region of every
    receiver names an existing lightmap, the static models and nodes of the
    receivers that have a static model are live, and the baking material was
    found. *)
Theorem InitializeLightmapBakingScenes_succeeds (heap : NodeHeap)
    (bakingMaterial : Material) (lightmaps : list LightmapDesc)
    (lightReceivers : list LightReceiver) :
  Forall (λ receiver,
            0 ≤ lightmapIndex_ (region_ receiver) < Z.of_nat (length lightmaps))
         lightReceivers →
  Forall (λ receiver, ∀ p, staticModel_ receiver = Some p →
            hasStaticModel heap p ∧ is_Some (heap !! node_ receiver))
         lightReceivers →
  is_Done (InitializeLightmapBakingScenes heap (Some bakingMaterial) lightmaps
             lightReceivers).
Proof.
  intros Hindex Hlive. unfold InitializeLightmapBakingScenes.
  destruct (CalculateReceiversBoundingBox_Done heap lightReceivers) as [boundingBox ->].
  { eapply Forall_impl; [exact Hlive|]. cbn. intros r Hr p Hp. by apply Hr. }
  rewrite bind_Done.
  set (prepared := (λ lightmapDesc, mkLightmapDesc _ _ _ _ _) <$> lightmaps).
  destruct (foldM_Done
              (λ ls, length ls = length lightmaps ∧
                     Forall (λ d, is_Some (bakingScene_ d)) ls)
              (prepareBakingScene heap (Some bakingMaterial)) lightReceivers prepared)
    as (lightmaps' & Hrun & _); [| |by exists lightmaps'].
  - intros ls receiver Hin [Hlength Hscenes].
    pose proof (proj1 (Forall_forall _ _) Hindex receiver Hin) as Hrange.
    cbn beta in Hrange.
    destruct (lookup_lt_is_Some_2 ls (Z.to_nat (lightmapIndex_ (region_ receiver))))
      as [desc Hdesc]; [lia|].
    unfold prepareBakingScene. rewrite (at_lookup _ _ _ (proj1 Hrange) Hdesc), bind_Done.
    destruct (staticModel_ receiver) as [p|] eqn:Hp; [|by eexists].
    destruct (proj1 (Forall_forall _ _) Hlive receiver Hin p Hp)
      as [(node & staticModel & Hnode & Hmodel) [source Hsource]].
    destruct (Forall_lookup_1 _ _ _ _ Hscenes Hdesc) as [scene Hscene].
    cbn. rewrite Hscene. cbn. unfold deref. rewrite Hsource. cbn.
    unfold derefStaticModel, deref. rewrite Hnode. cbn. rewrite Hmodel. cbn.
    rewrite store_at_in_range by lia.
    eexists. split; [done|]. rewrite length_insert. split; [done|].
    apply Forall_insert; [done|]. by eexists.
  - unfold prepared. rewrite length_fmap. split; [done|].
    apply Forall_fmap, Forall_true. intros d. by eexists.
Qed.

Lemma InitializeLightmapBakingScenes_succeeds_witness :
  is_Done (InitializeLightmapBakingScenes Example.heapD (Some (mkMaterial []))
             Example.atlasesD (lightReceivers_ Example.implD)).
Proof.
  apply (InitializeLightmapBakingScenes_succeeds Example.heapD (mkMaterial [])
           Example.atlasesD (lightReceivers_ Example.implD)).
  - let receivers := eval vm_compute in (lightReceivers_ Example.implD) in
    change (lightReceivers_ Example.implD) with receivers.
    apply Forall_cons_2; [cbn; lia|apply Forall_cons_2; [cbn; lia|apply Forall_nil_2]].
  - let receivers := eval vm_compute in (lightReceivers_ Example.implD) in
    change (lightReceivers_ Example.implD) with receivers.
    apply Forall_cons_2; [|apply Forall_cons_2; [|apply Forall_nil_2]].
    + intros p [= <-]. split; [|eexists; reflexivity].
      do 2 eexists. split; reflexivity.
    + intros p [=].
Defined.

(** ** Initialize as a whole *)

Lemma Validate_true (impl : LightmapBakerImpl) :
  Validate impl = Done true →
  numParallelChunks_ (settings_ impl) ≠ 0 ∧
  lightmapSize_ (settings_ impl) mod numParallelChunks_ (settings_ impl) = 0 ∧
  lightmapSize_ (settings_ impl) mod RayPacketSize = 0.
Proof.
  intros Hvalid.
  assert (numParallelChunks_ (settings_ impl) ≠ 0) as HN.
  { intros HN. unfold Validate, umod in Hvalid. by rewrite HN in Hvalid. }
  rewrite Validate_divisible in Hvalid by done.
  injection Hvalid as Hvalid. apply bool_decide_eq_true_1 in Hvalid. tauto.
Qed.

(** The stages of an Initialize that returns true. *)
Lemma Initialize_stages (NDEBUG : bool) (DOT_SCALE : Vector3)
    (garbage : LightmapRegion) (heap : NodeHeap) (cache : ResourceCache)
    (settings : LightmapBakingSettings) (lightReceivers obstacles lights : list NodePtr)
    (impl : LightmapBakerImpl) :
  Initialize NDEBUG DOT_SCALE garbage heap cache settings lightReceivers obstacles lights
  = Done (true, impl) →
  Validate (LightmapBakerImpl_new garbage settings lightReceivers obstacles lights)
  = Done true ∧
  ∃ receivers allocated scenes,
    AllocateLightmapRegions NDEBUG DOT_SCALE heap settings
      ((λ n, mkLightReceiver n None garbage) <$> lightReceivers) []
    = Done (receivers, allocated) ∧
    InitializeLightmapBakingScenes heap
      (GetMaterialResource cache (bakingMaterial_ settings)) allocated receivers
    = Done scenes ∧
    lightReceivers_ impl = receivers ∧
    lightmaps_ impl
    = createRenderSurface (wrap_int (lightmapSize_ settings))
        (CreateRenderTextureForLightmap (wrap_int (lightmapSize_ settings))
           (wrap_int (lightmapSize_ settings))) <$> scenes ∧
    settings_ impl = settings ∧
    currentLightmapIndex_ impl = M_MAX_UNSIGNED ∧
    embreeScene_ impl = None.
Proof.
  unfold Initialize. intros (valid & Hvalid & Hrun)%bind_Done_inv.
  destruct valid; [|done]. split; [done|]. cbn [negb] in Hrun.
  apply bind_Done_inv in Hrun as ([receivers allocated] & Hregions & Hrun).
  apply bind_Done_inv in Hrun as (boundingBox & _ & Hrun).
  apply bind_Done_inv in Hrun as (scenes & Hscenes & Hrun).
  injection Hrun as <-. exists receivers, allocated, scenes. done.
Qed.



(** After an Initialize that returns true, the width of every lightmap is a
    multiple of the ray packet width, so that the packets of BakeLightmap
    cover every column. *)
Theorem Initialize_packet_width (NDEBUG : bool) (DOT_SCALE : Vector3)
    (garbage : LightmapRegion) (heap : NodeHeap) (cache : ResourceCache)
    (settings : LightmapBakingSettings) (lightReceivers obstacles lights : list NodePtr)
    (impl : LightmapBakerImpl) :
  Z.of_nat (length lightReceivers) < 2 ^ 32 →
  Initialize NDEBUG DOT_SCALE garbage heap cache settings lightReceivers obstacles lights
  = Done (true, impl) →
  Forall (λ d, GetWidth (allocator_ d) mod RayPacketSize = 0) (lightmaps_ impl).
Proof.
  intros Hbound
    (Hvalid & receivers & allocated & scenes & Hregions & Hscenes & _ & -> & _)%Initialize_stages.
  apply Validate_true in Hvalid as (_ & _ & Hsize). cbn in Hsize.
  apply AllocateLightmapRegions_packet_width in Hregions;
    [|by rewrite length_fmap|done|constructor].
  apply InitializeLightmapBakingScenes_lookup in Hscenes as [_ Hscenes].
  apply Forall_fmap, Forall_forall. intros d Hd.
  apply list_elem_of_lookup in Hd as [i Hd].
  destruct (Hscenes _ _ Hd) as (d0 & Hd0 & Hallocator & _).
  pose proof (Forall_lookup_1 _ _ _ _ Hregions Hd0) as Hwidth. cbn in Hwidth.
  cbn. unfold createRenderSurface. destruct (_ || _); cbn; by rewrite Hallocator.
Qed.

Lemma Initialize_packet_width_witness :
  Forall (λ d, GetWidth (allocator_ d) mod RayPacketSize = 0)
         (lightmaps_ Example.initializedA).
Proof.
  apply (Initialize_packet_width false Example.DOT_SCALE Example.garbage Example.heapA
           Example.cache (Example.settings 0 1) [0%nat] [] [1%nat] Example.initializedA).
  - cbn. lia.
  - vm_compute. reflexivity.
Defined.

(** After an Initialize that returns true, the receivers are the nodes
    given, in their order; the receiver of a node with a static model has
    that model and a region in one of the lightmaps of the baker, the
    receiver of a node without one has no static model; and there are no
    more lightmaps than receivers. *)
Theorem Initialize_regions (NDEBUG : bool) (DOT_SCALE : Vector3)
    (garbage : LightmapRegion) (heap : NodeHeap) (cache : ResourceCache)
    (settings : LightmapBakingSettings) (lightReceivers obstacles lights : list NodePtr)
    (impl : LightmapBakerImpl) :
  Z.of_nat (length lightReceivers) < 2 ^ 32 →
  Initialize NDEBUG DOT_SCALE garbage heap cache settings lightReceivers obstacles lights
  = Done (true, impl) →
  (length (lightmaps_ impl) ≤ length lightReceivers)%nat ∧
  Forall2 (λ n receiver,
             node_ receiver = n ∧
             ∃ node, heap !! n = Some node ∧
               match GetStaticModel node with
               | Some _ =>
                   staticModel_ receiver = Some n ∧
                   0 ≤ lightmapIndex_ (region_ receiver)
                     < Z.of_nat (length (lightmaps_ impl))
               | None => staticModel_ receiver = None
               end)
          lightReceivers (lightReceivers_ impl).
Proof.
  intros Hbound
    (_ & receivers & allocated & scenes & Hregions & Hscenes & -> & -> & _)%Initialize_stages.
  apply AllocateLightmapRegions_spec in Hregions as [Hgrow Hall];
    [|by rewrite length_fmap].
  apply InitializeLightmapBakingScenes_lookup in Hscenes as [Hscenes _].
  rewrite length_fmap in Hgrow. rewrite length_fmap, Hscenes. cbn in Hgrow.
  split; [lia|].
  apply Forall2_fmap_l in Hall. eapply Forall2_impl; [exact Hall|].
  cbn. intros n receiver (Hnode & node & Hheap & Hmodel).
  split; [done|]. exists node. split; [done|].
  destruct (GetStaticModel node); [done|]. by subst receiver.
Qed.

Lemma Initialize_regions_witness :
  (length (lightmaps_ Example.implD) ≤ 2)%nat ∧
  Forall2 (λ n receiver, node_ receiver = n) [0%nat; 1%nat]
          (lightReceivers_ Example.implD).
Proof.
  destruct (Initialize_regions false Example.DOT_SCALE Example.zeroed Example.heapD
              Example.cache (Example.settings 1 1) [0%nat; 1%nat] [] [] Example.implD)
    as [Hlength Hall].
  - cbn. lia.
  - vm_compute. reflexivity.
  - split; [exact Hlength|].
    eapply Forall2_impl; [exact Hall|]. cbn. intros ? ? [? _]. assumption.
Defined.

(** ** Result binder: what it leaves alone *)

Lemma sameButLightmap_refl (node : Node) : sameButLightmap node node.
Proof. unfold sameButLightmap. split_and!; try done. by destruct (GetStaticModel node). Qed.

Lemma applyLightmap_frame (baseLightmapIndex : Z) (heap heap' : NodeHeap)
    (receiver : LightReceiver) :
  applyLightmap baseLightmapIndex heap receiver = Done heap' →
  ∀ p, match heap !! p, heap' !! p with
       | Some node, Some node' => sameButLightmap node node'
       | None, None => True
       | _, _ => False
       end.
Proof.
  unfold applyLightmap. intros Hrun p.
  destruct (staticModel_ receiver) as [q|].
  - apply bind_Done_inv in Hrun as (node & Hnode & Hrun).
    apply bind_Done_inv in Hrun as (staticModel & Hmodel & Hrun).
    injection Hrun as <-. unfold deref in Hnode.
    destruct (heap !! q) as [node0|] eqn:Hq; [|done]. injection Hnode as ->.
    destruct (GetStaticModel node) as [sm|] eqn:Hsm; [|done]. injection Hmodel as ->.
    destruct (decide (q = p)) as [<-|Hne].
    + rewrite Hq, lookup_insert_eq. unfold sameButLightmap. cbn. by rewrite Hsm.
    + rewrite lookup_insert_ne by done.
      destruct (heap !! p); [apply sameButLightmap_refl|done].
  - injection Hrun as <-. destruct (heap !! p); [apply sameButLightmap_refl|done].
Qed.

(** ApplyLightmapsToScene neither adds nor removes a node, and changes no
    node beyond the lightmap flag, index and scale-offset of its static
    model: lights, transforms, models and bounding boxes are as before. *)
Theorem ApplyLightmapsToScene_frame (baseLightmapIndex : Z)
    (impl : LightmapBakerImpl) (heap heap' : NodeHeap) :
  ApplyLightmapsToScene baseLightmapIndex impl heap = Done heap' →
  ∀ p, match heap !! p, heap' !! p with
       | Some node, Some node' => sameButLightmap node node'
       | None, None => True
       | _, _ => False
       end.
Proof.
  unfold ApplyLightmapsToScene. intros Hrun p. revert Hrun.
  apply (foldM_invariant
           (λ h, match heap !! p, h !! p with
                 | Some node, Some node' => sameButLightmap node node'
                 | None, None => True
                 | _, _ => False
                 end)).
  - intros h receiver h' _ Hh Hstep.
    pose proof (applyLightmap_frame baseLightmapIndex h h' receiver Hstep p) as Hp.
    destruct (heap !! p) as [node|], (h !! p) as [node1|], (h' !! p) as [node2|];
      try done.
    unfold sameButLightmap in *.
    destruct Hh as (?&?&?&?&?&Hm1), Hp as (?&?&?&?&?&Hm2).
    split_and!; try congruence.
    destruct (GetStaticModel node), (GetStaticModel node1), (GetStaticModel node2);
      try done.
    destruct Hm1, Hm2. split; congruence.
  - destruct (heap !! p); [apply sameButLightmap_refl|done].
Qed.

Lemma ApplyLightmapsToScene_frame_witness :
  match Example.heapD !! 0%nat, Example.boundD !! 0%nat with
  | Some node, Some node' => sameButLightmap node node'
  | None, None => True
  | _, _ => False
  end.
Proof.
  refine (ApplyLightmapsToScene_frame 3 Example.implD Example.heapD Example.boundD _ 0%nat).
  vm_compute. reflexivity.
Defined.

(** ** Ray caster: the light *)

Lemma findLightDirection_none (heap : NodeHeap) (lights : list NodePtr) :
  Forall (λ p, ∃ n, heap !! p = Some n ∧ GetLight n ≠ Some LIGHT_DIRECTIONAL) lights →
  findLightDirection heap lights = Done Vector3_ZERO.
Proof.
  induction 1 as [|p lights (n & Hp & Hn) _ IH]; [done|].
  cbn. unfold deref. rewrite Hp. cbn. rewrite IH. by destruct (GetLight n) as [[]|].
Qed.

(** The light direction is the world direction of the first light node
    that carries a directional light; the nodes before it must be live, the
    nodes after it are not looked at. When no light node carries a
    directional light, it is the zero vector. *)
Theorem findLightDirection_first (heap : NodeHeap) (lights : list NodePtr) :
  Forall (λ p, ∃ n, heap !! p = Some n ∧ GetLight n ≠ Some LIGHT_DIRECTIONAL) lights →
  findLightDirection heap lights = Done Vector3_ZERO ∧
  ∀ lightNode node after,
    heap !! lightNode = Some node →
    GetLight node = Some LIGHT_DIRECTIONAL →
    findLightDirection heap (lights ++ lightNode :: after) = Done (GetWorldDirection node).
Proof.
  intros Hlights. split; [by apply findLightDirection_none|].
  intros lightNode node after Hnode Hlight.
  induction Hlights as [|p lights (n & Hp & Hn) _ IH].
  - cbn. unfold deref. rewrite Hnode. cbn. by rewrite Hlight.
  - cbn. unfold deref. rewrite Hp. cbn. rewrite IH.
    by destruct (GetLight n) as [[]|].
Qed.

Lemma findLightDirection_first_witness :
  findLightDirection Example.heapC [0%nat] = Done Vector3_ZERO ∧
  findLightDirection Example.heapE [1%nat] = Done Vector3_ZERO ∧
  findLightDirection Example.heapE ([1%nat] ++ 2%nat :: [7%nat])
  = Done (GetWorldDirection Example.sun).
Proof.
  split.
  - apply (findLightDirection_first Example.heapC [0%nat]).
    apply Forall_singleton. exists Example.bare. split; [reflexivity|discriminate].
  - destruct (findLightDirection_first Example.heapE [1%nat]) as [Hnone Hfirst].
    + apply Forall_singleton. exists Example.bare. split; [reflexivity|discriminate].
    + split; [exact Hnone|].
      apply (Hfirst 2%nat Example.sun [7%nat]); reflexivity.
Defined.

(** ** Ray caster: lighting without a directional light *)

Lemma fmul_negative_zero (x : float) : zero_or_nan (fmul x (fneg f0)).
Proof. by destruct x as [[]|[]| |[] m e]. Qed.

Lemma fadd_zero_or_nan (x y : float) :
  zero_or_nan x → zero_or_nan y → zero_or_nan (fadd x y).
Proof. by destruct x as [[]|[]| |[] m e], y as [[]|[]| |[] m' e']. Qed.

Lemma fmax_zero_or_nan (x : float) : zero_or_nan x → fmax f0 x = f0.
Proof. by destruct x as [[]|[]| |[] m e]. Qed.

Lemma diffuseOf_zero_direction (normal : Vector4) :
  diffuseOf (Vector3_neg Vector3_ZERO) normal = f0.
Proof.
  unfold diffuseOf, DotProduct. cbn [Vector3_neg Vector3_ZERO x_ y_ z_ Vector3_of_4].
  apply fmax_zero_or_nan.
  repeat apply fadd_zero_or_nan; apply fmul_negative_zero.
Qed.

Lemma litColor_zero_direction (impl : LightmapBakerImpl) (scene : RTCScene)
    (texel normal : Vector4) :
  litColor impl (Vector3_neg Vector3_ZERO) scene texel normal = mkColor f0 f0 f0 f0.
Proof.
  unfold litColor. rewrite diffuseOf_zero_direction.
  unfold shadowOf. by destruct (decide _).
Qed.

(** BakeLightmap under the conditions of a successful bake, in terms of
    the stores of its bands. *)
Lemma BakeLightmap_stores (Normalized : Vector3 → Vector3) (heap : NodeHeap)
    (scratch : Z → Packet) (impl : LightmapBakerImpl) (lightmapDesc : LightmapDesc)
    (scene : RTCScene) (lightDirection : Vector3) (lightmapWidth lightmapHeight : Z) :
  at_ (lightmaps_ impl) (currentLightmapIndex_ impl) = Done lightmapDesc →
  GetWidth (allocator_ lightmapDesc) = lightmapWidth →
  GetHeight (allocator_ lightmapDesc) = lightmapHeight →
  0 ≤ lightmapWidth < 2 ^ 31 → 0 ≤ lightmapHeight < 2 ^ 31 →
  lightmapWidth * lightmapHeight < 2 ^ 31 →
  0 < numParallelChunks_ (settings_ impl) < 2 ^ 32 →
  embreeScene_ impl = Some scene →
  findLightDirection heap (lights_ impl) = Done lightDirection →
  Z.of_nat (length (positionBuffer_ impl)) = lightmapWidth * lightmapHeight →
  Z.of_nat (length (smoothNormalBuffer_ impl)) = lightmapWidth * lightmapHeight →
  Forall (λ texel, is_Done (geometryIdOf texel)) (positionBuffer_ impl) →
  ∃ lighting,
    BakeLightmap Normalized heap scratch impl
    = Done (true, mkBakedData (mkIntVector2 lightmapWidth lightmapHeight) lighting) ∧
    Z.of_nat (length lighting) = lightmapWidth * lightmapHeight ∧
    (∀ j c,
       (j, c) ∈ seqZ 0 (numParallelChunks_ (settings_ impl)) ≫=
                  chunkStores impl (Vector3_neg (Normalized lightDirection)) scene
                    lightmapWidth lightmapHeight (lightmapWidth / RayPacketSize)
                    (lightmapHeight / numParallelChunks_ (settings_ impl)) →
       lighting !! Z.to_nat j = Some c) ∧
    (∀ j, 0 ≤ j < lightmapWidth * lightmapHeight →
       j ∉ (seqZ 0 (numParallelChunks_ (settings_ impl)) ≫=
              chunkStores impl (Vector3_neg (Normalized lightDirection)) scene
                lightmapWidth lightmapHeight (lightmapWidth / RayPacketSize)
                (lightmapHeight / numParallelChunks_ (settings_ impl))).*1 →
       lighting !! Z.to_nat j = Some Color_WHITE).
Proof.
  intros Hdesc HWdef HHdef HW HH HWH HN Hscene Hlight Hposition Hnormal Hmarkers.
  pose proof (buffers_readable impl _ Hposition Hnormal Hmarkers) as Hread.
  unfold BakeLightmap.
  rewrite (BakeLightmapTasks_spec Normalized heap scratch impl lightmapDesc scene
             lightDirection lightmapWidth lightmapHeight) by done.
  rewrite bind_Done. cbn [backedLighting_ data_lightmapSize_].
  rewrite concat_fmap_bind.
  destruct (run_stores_spec
              (seqZ 0 (numParallelChunks_ (settings_ impl)) ≫=
                 chunkStores impl (Vector3_neg (Normalized lightDirection)) scene
                   lightmapWidth lightmapHeight (lightmapWidth / RayPacketSize)
                   (lightmapHeight / numParallelChunks_ (settings_ impl)))
              (replicate (Z.to_nat (lightmapWidth * lightmapHeight)) Color_WHITE))
    as (lighting & -> & Hlength & Hstored & Hframe).
  { by apply NoDup_chunkStores_fst. }
  { intros st Hst. rewrite length_replicate, Z2Nat.id by nia.
    by eapply chunkStores_in_range. }
  exists lighting. rewrite bind_Done. split; [done|].
  rewrite length_replicate in Hlength. split; [nia|]. split; [done|].
  intros j Hj Hout. rewrite Hframe by (done || lia).
  apply lookup_replicate_2. lia.
Qed.

(** Without a directional light, and with a normalisation that leaves the
    zero vector as it is, a successful bake leaves every texel white or
    black: black where a band stored a colour, white elsewhere. *)
Theorem BakeLightmap_no_directional_light (Normalized : Vector3 → Vector3)
    (heap : NodeHeap) (scratch : Z → Packet) (impl : LightmapBakerImpl)
    (lightmapDesc : LightmapDesc) (scene : RTCScene) (lightmapWidth lightmapHeight : Z) :
  at_ (lightmaps_ impl) (currentLightmapIndex_ impl) = Done lightmapDesc →
  GetWidth (allocator_ lightmapDesc) = lightmapWidth →
  GetHeight (allocator_ lightmapDesc) = lightmapHeight →
  0 ≤ lightmapWidth < 2 ^ 31 → 0 ≤ lightmapHeight < 2 ^ 31 →
  lightmapWidth * lightmapHeight < 2 ^ 31 →
  0 < numParallelChunks_ (settings_ impl) < 2 ^ 32 →
  embreeScene_ impl = Some scene →
  Z.of_nat (length (positionBuffer_ impl)) = lightmapWidth * lightmapHeight →
  Z.of_nat (length (smoothNormalBuffer_ impl)) = lightmapWidth * lightmapHeight →
  Forall (λ texel, is_Done (geometryIdOf texel)) (positionBuffer_ impl) →
  Normalized Vector3_ZERO = Vector3_ZERO →
  Forall (λ p, ∃ n, heap !! p = Some n ∧ GetLight n ≠ Some LIGHT_DIRECTIONAL)
         (lights_ impl) →
  ∃ lighting,
    BakeLightmap Normalized heap scratch impl
    = Done (true, mkBakedData (mkIntVector2 lightmapWidth lightmapHeight) lighting) ∧
    Forall (λ c, c = Color_WHITE ∨ c = mkColor f0 f0 f0 f0) lighting.
Proof.
  intros Hdesc HWdef HHdef HW HH HWH HN Hscene Hposition Hnormal Hmarkers Hzero Hlights.
  apply findLightDirection_none in Hlights.
  destruct (BakeLightmap_stores Normalized heap scratch impl lightmapDesc scene
              Vector3_ZERO lightmapWidth lightmapHeight)
    as (lighting & Hbake & Hlength & Hstored & Hframe); try done.
  exists lighting. split; [done|].
  apply Forall_lookup. intros n c Hn.
  pose proof (lookup_lt_Some _ _ _ Hn) as Hlt.
  rewrite Hzero in Hstored, Hframe.
  set (stores := seqZ 0 (numParallelChunks_ (settings_ impl)) ≫=
                   chunkStores impl (Vector3_neg Vector3_ZERO) scene lightmapWidth
                     lightmapHeight (lightmapWidth / RayPacketSize)
                     (lightmapHeight / numParallelChunks_ (settings_ impl))) in *.
  destruct (decide (Z.of_nat n ∈ stores.*1)) as [Hin|Hout].
  - right. apply list_elem_of_fmap in Hin as ([j c'] & Hj & Hin). cbn in Hj. subst j.
    pose proof (Hstored _ _ Hin) as Hc. rewrite Nat2Z.id, Hn in Hc. injection Hc as ->.
    apply list_elem_of_bind in Hin as (k & Hin & Hk%elem_of_seqZ).
    apply chunkStores_index in Hin as (y & x & _ & _ & _ & Hin); [|done || lia..].
    apply texelStores_elem in Hin as (_ & texel & normal & _ & _ & _ & Hc).
    cbn in Hc. rewrite Hc. apply litColor_zero_direction.
  - left. specialize (Hframe (Z.of_nat n)). rewrite Nat2Z.id, Hn in Hframe.
    assert (Some c = Some Color_WHITE) as [= ->]; [|done].
    apply Hframe; [lia|done].
Qed.

Lemma BakeLightmap_no_directional_light_witness :
  ∃ lighting,
    BakeLightmap Example.Normalized Example.heapA Example.scratch Example.implNight
    = Done (true, mkBakedData (mkIntVector2 16 16) lighting) ∧
    Forall (λ c, c = Color_WHITE ∨ c = mkColor f0 f0 f0 f0) lighting.
Proof.
  apply (BakeLightmap_no_directional_light Example.Normalized Example.heapA Example.scratch
           Example.implNight Example.atlasA Example.empty 16 16).
  - vm_compute. reflexivity.
  - reflexivity.
  - reflexivity.
  - lia.
  - lia.
  - lia.
  - vm_compute. split; reflexivity.
  - reflexivity.
  - vm_compute. reflexivity.
  - vm_compute. reflexivity.
  - apply Forall_convertible. vm_compute. reflexivity.
  - reflexivity.
  - let lights := eval vm_compute in (lights_ Example.implNight) in
    change (lights_ Example.implNight) with lights.
    apply Forall_singleton. eexists. split; [reflexivity|]. vm_compute. discriminate.
Defined.

(** A successful bake leaves white, whatever its marker, every texel in a
    row from [chunks * (lightmapHeight / chunks)] on and every texel in a
    column from [16 * (lightmapWidth / 16)] on: no band and no packet
    reaches them. *)
Theorem BakeLightmap_unreached_texels (Normalized : Vector3 → Vector3)
    (heap : NodeHeap) (scratch : Z → Packet) (impl : LightmapBakerImpl)
    (lightmapDesc : LightmapDesc) (scene : RTCScene) (lightDirection : Vector3)
    (lightmapWidth lightmapHeight : Z) :
  at_ (lightmaps_ impl) (currentLightmapIndex_ impl) = Done lightmapDesc →
  GetWidth (allocator_ lightmapDesc) = lightmapWidth →
  GetHeight (allocator_ lightmapDesc) = lightmapHeight →
  0 ≤ lightmapWidth < 2 ^ 31 → 0 ≤ lightmapHeight < 2 ^ 31 →
  lightmapWidth * lightmapHeight < 2 ^ 31 →
  0 < numParallelChunks_ (settings_ impl) < 2 ^ 32 →
  embreeScene_ impl = Some scene →
  findLightDirection heap (lights_ impl) = Done lightDirection →
  Z.of_nat (length (positionBuffer_ impl)) = lightmapWidth * lightmapHeight →
  Z.of_nat (length (smoothNormalBuffer_ impl)) = lightmapWidth * lightmapHeight →
  Forall (λ texel, is_Done (geometryIdOf texel)) (positionBuffer_ impl) →
  ∃ lighting,
    BakeLightmap Normalized heap scratch impl
    = Done (true, mkBakedData (mkIntVector2 lightmapWidth lightmapHeight) lighting) ∧
    ∀ x y, 0 ≤ x < lightmapWidth → 0 ≤ y < lightmapHeight →
      numParallelChunks_ (settings_ impl)
        * (lightmapHeight / numParallelChunks_ (settings_ impl)) ≤ y ∨
      RayPacketSize * (lightmapWidth / RayPacketSize) ≤ x →
      lighting !! Z.to_nat (y * lightmapWidth + x) = Some Color_WHITE.
Proof.
  intros Hdesc HWdef HHdef HW HH HWH HN Hscene Hlight Hposition Hnormal Hmarkers.
  destruct (BakeLightmap_stores Normalized heap scratch impl lightmapDesc scene
              lightDirection lightmapWidth lightmapHeight)
    as (lighting & Hbake & Hlength & Hstored & Hframe); try done.
  pose proof (buffers_readable impl _ Hposition Hnormal Hmarkers) as Hread.
  exists lighting. split; [done|].
  intros x y Hx Hy Hunreached. apply Hframe; [nia|].
  intros ([j c] & Hj & Hin)%list_elem_of_fmap. cbn in Hj. subst j.
  apply list_elem_of_bind in Hin as (k & Hin & Hk%elem_of_seqZ).
  apply elem_of_chunkStores in Hin as (y' & x' & Hy' & Hx' & Hin); [|done || lia..].
  apply texelStores_elem in Hin as (Hindex & _). cbn in Hindex.
  pose proof (Z.mul_div_le lightmapWidth RayPacketSize ltac:(done)) as Hpackets.
  pose proof (Z.mul_div_le lightmapHeight (numParallelChunks_ (settings_ impl)) ltac:(lia)) as Hle.
  unfold RayPacketSize in *.
  assert (0 ≤ x' < lightmapWidth) by lia.
  assert (y = y') by nia. subst y'. assert (x = x') by lia. subst x'. nia.
Qed.

Lemma BakeLightmap_unreached_texels_witness :
  ∃ lighting,
    BakeLightmap Example.Normalized Example.heapB Example.scratch Example.implB
    = Done (true, mkBakedData (mkIntVector2 32 5) lighting) ∧
    lighting !! Z.to_nat (4 * 32 + 7) = Some Color_WHITE.
Proof.
  destruct (BakeLightmap_unreached_texels Example.Normalized Example.heapB Example.scratch
              Example.implB Example.atlasB Example.walled (mkVector3 f0 f0 fm1) 32 5)
    as (lighting & Hbake & Hwhite).
  - vm_compute. reflexivity.
  - reflexivity.
  - reflexivity.
  - lia.
  - lia.
  - lia.
  - vm_compute. split; reflexivity.
  - reflexivity.
  - vm_compute. reflexivity.
  - vm_compute. reflexivity.
  - vm_compute. reflexivity.
  - apply Forall_convertible. vm_compute. reflexivity.
  - exists lighting. split; [exact Hbake|].
    apply Hwhite; [lia|lia|]. left. vm_compute. discriminate.
Defined.

(** ** Ray caster: the number of bands *)

(** The stores of all bands together are those of the texels in the rows
    that the bands reach and the columns that the packets reach. *)
Lemma elem_of_bandStores (impl : LightmapBakerImpl) (rayDirection : Vector3)
    (scene : RTCScene) (lightmapWidth lightmapHeight chunks : Z) (st : Store) :
  0 ≤ lightmapWidth < 2 ^ 31 → 0 ≤ lightmapHeight < 2 ^ 31 →
  lightmapWidth * lightmapHeight < 2 ^ 31 → 0 < chunks < 2 ^ 32 →
  st ∈ seqZ 0 chunks ≫=
         chunkStores impl rayDirection scene lightmapWidth lightmapHeight
           (lightmapWidth / RayPacketSize) (lightmapHeight / chunks)
  ↔ ∃ y x, 0 ≤ y < chunks * (lightmapHeight / chunks) ∧
           0 ≤ x < RayPacketSize * (lightmapWidth / RayPacketSize) ∧
           st ∈ texelStores impl rayDirection scene (y * lightmapWidth + x).
Proof.
  intros HW HH HWH HN. rewrite list_elem_of_bind.
  assert (0 ≤ lightmapHeight / chunks) as Hpos by (apply Z.div_pos; lia).
  split.
  - intros (k & Hst & Hk%elem_of_seqZ).
    apply elem_of_chunkStores in Hst as (y & x & Hy & Hx & Hst); [|done..|lia].
    exists y, x. split; [nia|done].
  - intros (y & x & Hy & Hx & Hst).
    assert (0 < lightmapHeight / chunks) as Hch by nia.
    assert (0 ≤ y / (lightmapHeight / chunks) < chunks) as Hk.
    { split; [apply Z.div_pos; lia|apply Z.div_lt_upper_bound; lia]. }
    exists (y / (lightmapHeight / chunks)). split; [|apply elem_of_seqZ; lia].
    apply elem_of_chunkStores; [done..|]. exists y, x. split; [|done].
    pose proof (Z.mul_div_le y _ Hch). pose proof (Z.mul_succ_div_gt y _ Hch). nia.
Qed.

(** The colour that a bake leaves in a texel of a row that its bands
    reach: it does not depend on the number of bands. *)
Lemma bandStores_texel (impl : LightmapBakerImpl) (rayDirection : Vector3)
    (scene : RTCScene) (lightmapWidth lightmapHeight chunks : Z)
    (lighting : list Color) (x y : Z) :
  0 ≤ lightmapWidth < 2 ^ 31 → 0 ≤ lightmapHeight < 2 ^ 31 →
  lightmapWidth * lightmapHeight < 2 ^ 31 → 0 < chunks < 2 ^ 32 →
  (∀ j c,
     (j, c) ∈ seqZ 0 chunks ≫=
                chunkStores impl rayDirection scene lightmapWidth lightmapHeight
                  (lightmapWidth / RayPacketSize) (lightmapHeight / chunks) →
     lighting !! Z.to_nat j = Some c) →
  (∀ j, 0 ≤ j < lightmapWidth * lightmapHeight →
     j ∉ (seqZ 0 chunks ≫=
            chunkStores impl rayDirection scene lightmapWidth lightmapHeight
              (lightmapWidth / RayPacketSize) (lightmapHeight / chunks)).*1 →
     lighting !! Z.to_nat j = Some Color_WHITE) →
  0 ≤ x < lightmapWidth → 0 ≤ y < chunks * (lightmapHeight / chunks) →
  lighting !! Z.to_nat (y * lightmapWidth + x)
  = Some (if decide (x < RayPacketSize * (lightmapWidth / RayPacketSize)) then
            match texelStores impl rayDirection scene (y * lightmapWidth + x) with
            | st :: _ => st.2
            | [] => Color_WHITE
            end
          else Color_WHITE).
Proof.
  intros HW HH HWH HN Hstored Hframe Hx Hy.
  pose proof (Z.mul_div_le lightmapHeight chunks ltac:(lia)) as Hle.
  pose proof (Z.mul_div_le lightmapWidth RayPacketSize ltac:(done)) as Hpackets.
  assert (0 ≤ y * lightmapWidth + x < lightmapWidth * lightmapHeight) as Hj by nia.
  assert (∀ st y' x',
            0 ≤ x' < RayPacketSize * (lightmapWidth / RayPacketSize) →
            st ∈ texelStores impl rayDirection scene (y' * lightmapWidth + x') →
            st.1 = y * lightmapWidth + x →
            x < RayPacketSize * (lightmapWidth / RayPacketSize) ∧
            st ∈ texelStores impl rayDirection scene (y * lightmapWidth + x)) as Hsame.
  { intros st y' x' Hx' Hst Hindex.
    pose proof (texelStores_elem _ _ _ _ _ Hst) as [Hindex' _].
    rewrite Hindex in Hindex'.
    assert (y = y') by nia. subst y'. assert (x = x') by lia. subst x'. split; [lia|done]. }
  destruct (decide (x < RayPacketSize * (lightmapWidth / RayPacketSize))) as [Hreached|Hout].
  - destruct (texelStores impl rayDirection scene (y * lightmapWidth + x))
      as [|[j c] rest] eqn:Htexel.
    + apply Hframe; [done|].
      intros ([j c] & Hindex & Hin)%list_elem_of_fmap. cbn in Hindex.
      apply elem_of_bandStores in Hin as (y' & x' & _ & Hx' & Hin); [|done..].
      destruct (Hsame _ _ _ Hx' Hin) as [_ Hhere]; [done|].
      by apply elem_of_nil in Hhere.
    + assert ((j, c) ∈ texelStores impl rayDirection scene (y * lightmapWidth + x))
        as Hin by (rewrite Htexel; left).
      pose proof (texelStores_elem _ _ _ _ _ Hin) as [Hindex _]. cbn in Hindex.
      rewrite <- Hindex. apply Hstored.
      apply elem_of_bandStores; [done..|]. exists y, x. split; [done|]. split; [lia|].
      exact Hin.
  - apply Hframe; [done|].
    intros ([j c] & Hindex & Hin)%list_elem_of_fmap. cbn in Hindex.
    apply elem_of_bandStores in Hin as (y' & x' & _ & Hx' & Hin); [|done..].
    destruct (Hsame _ _ _ Hx' Hin) as [Hreached _]; done.
Qed.

(** The number of bands changes the baked buffer only through the rows it
    leaves out. Under the conditions of a successful bake, the bake with
    any other positive number of bands also succeeds; the two buffers hold
    the same colour in every texel of every row that both decompositions
    reach; and they are the same buffer when both numbers divide the
    height of the atlas. *)
Theorem BakeLightmap_band_count (Normalized : Vector3 → Vector3)
    (heap : NodeHeap) (scratch : Z → Packet) (impl : LightmapBakerImpl)
    (lightmapDesc : LightmapDesc) (scene : RTCScene) (lightDirection : Vector3)
    (lightmapWidth lightmapHeight chunks' : Z) :
  let chunks := numParallelChunks_ (settings_ impl) in
  at_ (lightmaps_ impl) (currentLightmapIndex_ impl) = Done lightmapDesc →
  GetWidth (allocator_ lightmapDesc) = lightmapWidth →
  GetHeight (allocator_ lightmapDesc) = lightmapHeight →
  0 ≤ lightmapWidth < 2 ^ 31 → 0 ≤ lightmapHeight < 2 ^ 31 →
  lightmapWidth * lightmapHeight < 2 ^ 31 →
  0 < chunks < 2 ^ 32 → 0 < chunks' < 2 ^ 32 →
  embreeScene_ impl = Some scene →
  findLightDirection heap (lights_ impl) = Done lightDirection →
  Z.of_nat (length (positionBuffer_ impl)) = lightmapWidth * lightmapHeight →
  Z.of_nat (length (smoothNormalBuffer_ impl)) = lightmapWidth * lightmapHeight →
  Forall (λ texel, is_Done (geometryIdOf texel)) (positionBuffer_ impl) →
  ∃ lighting lighting',
    BakeLightmap Normalized heap scratch impl
    = Done (true, mkBakedData (mkIntVector2 lightmapWidth lightmapHeight) lighting) ∧
    BakeLightmap Normalized heap scratch (with_numParallelChunks chunks' impl)
    = Done (true, mkBakedData (mkIntVector2 lightmapWidth lightmapHeight) lighting') ∧
    (∀ x y, 0 ≤ x < lightmapWidth →
       0 ≤ y < chunks * (lightmapHeight / chunks) →
       y < chunks' * (lightmapHeight / chunks') →
       lighting' !! Z.to_nat (y * lightmapWidth + x)
       = lighting !! Z.to_nat (y * lightmapWidth + x)) ∧
    (lightmapHeight mod chunks = 0 → lightmapHeight mod chunks' = 0 →
     lighting' = lighting).
Proof.
  intros chunks Hdesc HWdef HHdef HW HH HWH HN HN' Hscene Hlight Hposition Hnormal
    Hmarkers.
  destruct (BakeLightmap_stores Normalized heap scratch impl lightmapDesc scene
              lightDirection lightmapWidth lightmapHeight)
    as (lighting & Hbake & Hlength & Hstored & Hframe); try done.
  destruct (BakeLightmap_stores Normalized heap scratch
              (with_numParallelChunks chunks' impl) lightmapDesc scene
              lightDirection lightmapWidth lightmapHeight)
    as (lighting' & Hbake' & Hlength' & Hstored' & Hframe'); try done.
  cbn [with_numParallelChunks settings_ numParallelChunks_] in Hstored', Hframe'.
  exists lighting, lighting'. split; [done|]. split; [done|].
  assert (∀ x y, 0 ≤ x < lightmapWidth →
            0 ≤ y < chunks * (lightmapHeight / chunks) →
            y < chunks' * (lightmapHeight / chunks') →
            lighting' !! Z.to_nat (y * lightmapWidth + x)
            = lighting !! Z.to_nat (y * lightmapWidth + x)) as Hagree.
  { intros x y Hx Hy Hy'.
    rewrite (bandStores_texel impl (Vector3_neg (Normalized lightDirection)) scene
               lightmapWidth lightmapHeight chunks lighting x y) by done.
    by rewrite (bandStores_texel impl (Vector3_neg (Normalized lightDirection)) scene
                  lightmapWidth lightmapHeight chunks' lighting' x y) by (done || lia). }
  split; [done|].
  intros Hdiv Hdiv'. apply list_eq. intros i.
  destruct (decide (i < length lighting)%nat) as [Hi|Hi].
  - assert (0 < lightmapWidth) as Hpos by nia.
    pose proof (Z.div_mod (Z.of_nat i) lightmapWidth ltac:(lia)) as Hsplit.
    pose proof (Z.mod_pos_bound (Z.of_nat i) lightmapWidth Hpos) as Hx.
    assert (0 ≤ Z.of_nat i / lightmapWidth) as Hy by (apply Z.div_pos; lia).
    assert (Z.of_nat i / lightmapWidth < lightmapHeight) as Hy'
      by (apply Z.div_lt_upper_bound; nia).
    apply Z.div_exact in Hdiv, Hdiv'; [|lia..].
    specialize (Hagree (Z.of_nat i mod lightmapWidth) (Z.of_nat i / lightmapWidth)).
    replace (Z.of_nat i / lightmapWidth * lightmapWidth + Z.of_nat i mod lightmapWidth)
      with (Z.of_nat i) in Hagree by lia.
    rewrite Nat2Z.id in Hagree. apply Hagree; lia.
  - rewrite !lookup_ge_None_2; [done|lia..].
Qed.

Lemma BakeLightmap_band_count_witness :
  ∃ lighting,
    BakeLightmap Example.Normalized Example.heapA Example.scratch
      (Example.implA Example.walled)
    = Done (true, mkBakedData (mkIntVector2 16 16) lighting) ∧
    BakeLightmap Example.Normalized Example.heapA Example.scratch
      (with_numParallelChunks 4 (Example.implA Example.walled))
    = Done (true, mkBakedData (mkIntVector2 16 16) lighting).
Proof.
  destruct (BakeLightmap_band_count Example.Normalized Example.heapA Example.scratch
              (Example.implA Example.walled) Example.atlasA Example.walled
              (mkVector3 f0 f0 fm1) 16 16 4)
    as (lighting & lighting' & Hbake & Hbake' & _ & Hsame).
  - vm_compute. reflexivity.
  - reflexivity.
  - reflexivity.
  - lia.
  - lia.
  - lia.
  - vm_compute. split; reflexivity.
  - lia.
  - reflexivity.
  - vm_compute. reflexivity.
  - vm_compute. reflexivity.
  - vm_compute. reflexivity.
  - apply Forall_convertible. vm_compute. reflexivity.
  - exists lighting. split; [exact Hbake|].
    rewrite <- Hsame; [exact Hbake'|vm_compute; reflexivity|reflexivity].
Defined.
